(** * hyphe-traph: the LRU trie and the Traph coordinator

    A shallow embedding of [traph/lru_trie_node.py], [traph/lru_trie.py] and
    [traph/traph.py], and the properties of the specification that can be
    stated over it.

    Conventions.
    - A Python [str] (a byte string in Python 2) is a [string]; [ord] and
      [chr] are the conversions between its characters and integers.
    - The integers of a node record are kept unpacked: [struct.pack] and
      [struct.unpack] with one fixed format are inverse of each other on
      the values the trie writes (characters come from [ord], pointers are
      block indices), so a stored block is modelled by the values it packs.
    - Block indices are [nat], characters and flag registers are [Z].
    - A Python loop that may not terminate is a [Fixpoint] on a fuel; the
      fuel given is the number of blocks of the store plus one, and running
      out of it is the error [NonTermination]. *)

From Stdlib Require Import ZArith String Ascii Lia.
From stdpp Require Import base option list gmap strings.

Local Open Scope Z_scope.
Local Open Scope nat_scope.

(** ** Exceptions and results *)

Inductive error : Type :=
| LRUTrieNodeTraversalException
| TraphException
| OSError
| TypeError
| KeyError
| StructError
| NonTermination.

Inductive result (A : Type) : Type :=
| Ok (a : A)
| Raise (e : error).

Arguments Ok {A} a.
Arguments Raise {A} e.

Definition bind {A B : Type} (m : result A) (k : A -> result B) : result B :=
  match m with
  | Ok a => k a
  | Raise e => Raise e
  end.

Notation "'try' x <- m 'in' k" := (bind m (fun x => k))
  (at level 10, x pattern, m at level 100, k at level 200, only parsing).

(** ** The node record ([lru_trie_node.py]) *)

(** The format string ['2B3Q'] of the source: two unsigned bytes followed
    by three unsigned 64-bit integers. *)
Module Struct.

Inductive code : Type := B | Q.

Definition size (c : code) : nat :=
  match c with B => 1 | Q => 8 end.

(** Native alignment, as [struct.calcsize] applies it without a byte-order
    prefix: each field starts at a multiple of its size. *)
Definition align (offset : nat) (c : code) : nat :=
  Nat.div (offset + size c - 1) (size c) * size c.

Definition calcsize (format : list code) : nat :=
  fold_left (fun offset c => align offset c + size c) format 0.

End Struct.

Definition LRU_TRIE_NODE_FORMAT : list Struct.code :=
  [Struct.B; Struct.B; Struct.Q; Struct.Q; Struct.Q].

Definition LRU_TRIE_NODE_BLOCK_SIZE : nat := Struct.calcsize LRU_TRIE_NODE_FORMAT.

(** Positions of the fields in [self.data]. *)
Definition LRU_TRIE_NODE_CHAR : nat := 0.
Definition LRU_TRIE_NODE_FLAGS : nat := 1.
Definition LRU_TRIE_NODE_NEXT_BLOCK : nat := 2.
Definition LRU_TRIE_NODE_CHILD_BLOCK : nat := 3.
Definition LRU_TRIE_NODE_PARENT_BLOCK : nat := 4.

(** Flags. *)
Definition LRU_TRIE_NODE_FLAG_PAGE : Z := 0%Z.

(** Modelled from the spec: the flag bits [has_webentity] and
    [is_webentity_creation_rule] of section 3. [lru_trie.py] and [traph.py]
    test and set them through accessors that [lru_trie_node.py] does not
    define; the source gives no positions, the two after the page bit are
    taken. *)
Definition LRU_TRIE_NODE_FLAG_WEBENTITY : Z := 1%Z.
Definition LRU_TRIE_NODE_FLAG_WEBENTITY_CREATION_RULE : Z := 2%Z.

(** The list [self.data] as a record. The first five fields are the five
    positions of the source. [n_webentity] is modelled from the spec: the
    [webentity_id] of section 3, which [node.webentity()] and
    [node.set_webentity(id)] of the callers read and write; the format of
    the source has no slot for it. *)
Record NodeData : Type := mkNodeData {
  n_char : Z;
  n_flags : Z;
  n_next : nat;
  n_child : nat;
  n_parent : nat;
  n_webentity : nat
}.

(** The values the source hands to [struct.pack]: [self.data], in the order
    of the positions. *)
Definition data_list (d : NodeData) : list Z :=
  [n_char d; n_flags d; Z.of_nat (n_next d); Z.of_nat (n_child d);
   Z.of_nat (n_parent d)].

(** [__set_default_data(char)]; [char or 0] is the character itself. *)
Definition default_data (char : Z) : NodeData :=
  {| n_char := char; n_flags := 0%Z; n_next := 0; n_child := 0;
     n_parent := 0; n_webentity := 0 |}.

(** Helpers [flag], [unflag] and [test], on the register they are given. *)
Definition flag (register : Z) (pos : Z) : Z :=
  Z.lor register (Z.shiftl 1 pos).

Definition unflag (register : Z) (pos : Z) : Z :=
  Z.land register (Z.lnot (Z.shiftl 1 pos)).

Definition test (register : Z) (pos : Z) : bool :=
  negb (Z.land (Z.shiftr register pos) 1 =? 0)%Z.

Definition set_flags (f : Z) (d : NodeData) : NodeData :=
  {| n_char := n_char d; n_flags := f; n_next := n_next d;
     n_child := n_child d; n_parent := n_parent d;
     n_webentity := n_webentity d |}.

Definition data_set_char (c : Z) (d : NodeData) : NodeData :=
  {| n_char := c; n_flags := n_flags d; n_next := n_next d;
     n_child := n_child d; n_parent := n_parent d;
     n_webentity := n_webentity d |}.

Definition data_set_next (b : nat) (d : NodeData) : NodeData :=
  {| n_char := n_char d; n_flags := n_flags d; n_next := b;
     n_child := n_child d; n_parent := n_parent d;
     n_webentity := n_webentity d |}.

Definition data_set_child (b : nat) (d : NodeData) : NodeData :=
  {| n_char := n_char d; n_flags := n_flags d; n_next := n_next d;
     n_child := b; n_parent := n_parent d;
     n_webentity := n_webentity d |}.

Definition data_set_parent (b : nat) (d : NodeData) : NodeData :=
  {| n_char := n_char d; n_flags := n_flags d; n_next := n_next d;
     n_child := n_child d; n_parent := b;
     n_webentity := n_webentity d |}.

Definition data_set_webentity (w : nat) (d : NodeData) : NodeData :=
  {| n_char := n_char d;
     n_flags := flag (n_flags d) LRU_TRIE_NODE_FLAG_WEBENTITY;
     n_next := n_next d; n_child := n_child d; n_parent := n_parent d;
     n_webentity := w |}.

(** ** Block storage *)

(** Modelled from the spec: [memory_storage.py] is not among the sources.
    Section 4.1: [read] returns the block or nothing past the end of the
    store; [write] with an index overwrites in place, [write] without one
    appends and returns the new index. The spec is silent on a write at an
    index past the end; it is modelled as leaving the blocks unchanged (the
    trie only writes at the index of a block it has read or appended).

    [journal] is a ghost field: the writes in the order they were made,
    each with the index it went to. *)
Record Storage : Type := mkStorage {
  blocks : list NodeData;
  journal : list (nat * NodeData)
}.

Definition MemoryStorage : Storage := {| blocks := []; journal := [] |}.

Definition storage_read (st : Storage) (block : nat) : option NodeData :=
  blocks st !! block.

Definition storage_write (st : Storage) (d : NodeData) (block : option nat)
  : Storage * nat :=
  match block with
  | None =>
      ({| blocks := blocks st ++ [d];
          journal := journal st ++ [(length (blocks st), d)] |},
       length (blocks st))
  | Some b =>
      ({| blocks := <[b := d]> (blocks st);
          journal := journal st ++ [(b, d)] |}, b)
  end.

(** ** The node handle ([LRUTrieNode]) *)

Record LRUTrieNode : Type := mkNode {
  block : option nat;
  node_exists : bool;
  data : NodeData
}.

(** [LRUTrieNode(storage, char=char)]. *)
Definition node_of_char (char : Z) : LRUTrieNode :=
  {| block := None; node_exists := false; data := default_data char |}.

(** [read(block)]: a block past the end leaves [self.block] as it was. *)
Definition read (st : Storage) (node : LRUTrieNode) (b : nat) : LRUTrieNode :=
  match storage_read st b with
  | None =>
      {| block := block node; node_exists := false; data := default_data 0%Z |}
  | Some d =>
      {| block := Some b; node_exists := true; data := d |}
  end.

(** [LRUTrieNode(storage, block=block)]. *)
Definition node_of_block (st : Storage) (b : nat) : LRUTrieNode :=
  read st {| block := None; node_exists := false; data := default_data 0%Z |} b.

(** [write()]. *)
Definition write (st : Storage) (node : LRUTrieNode) : LRUTrieNode * Storage :=
  let '(st', b) := storage_write st (data node) (block node) in
  ({| block := Some b; node_exists := true; data := data node |}, st').

Definition is_root (node : LRUTrieNode) : bool :=
  match block node with
  | Some 0 => true
  | _ => false
  end.

Definition with_data (d : NodeData) (node : LRUTrieNode) : LRUTrieNode :=
  {| block := block node; node_exists := node_exists node; data := d |}.

Definition is_page (node : LRUTrieNode) : bool :=
  test (n_flags (data node)) LRU_TRIE_NODE_FLAG_PAGE.

Definition flag_as_page (node : LRUTrieNode) : LRUTrieNode :=
  with_data (set_flags (flag (n_flags (data node)) LRU_TRIE_NODE_FLAG_PAGE)
                       (data node)) node.

Definition unflag_as_page (node : LRUTrieNode) : LRUTrieNode :=
  with_data (set_flags (unflag (n_flags (data node)) LRU_TRIE_NODE_FLAG_PAGE)
                       (data node)) node.

Definition char (node : LRUTrieNode) : Z := n_char (data node).

Definition ord (c : ascii) : Z := Z.of_N (N_of_ascii c).
Definition chr (z : Z) : ascii := ascii_of_N (Z.to_N z).

Definition char_as_str (node : LRUTrieNode) : string :=
  String (chr (char node)) EmptyString.

Definition set_char (c : Z) (node : LRUTrieNode) : LRUTrieNode :=
  with_data (data_set_char c (data node)) node.

Definition has_next (node : LRUTrieNode) : bool :=
  negb (n_next (data node) =? 0).

Definition set_next (b : nat) (node : LRUTrieNode) : LRUTrieNode :=
  with_data (data_set_next b (data node)) node.

Definition read_next (st : Storage) (node : LRUTrieNode) : result LRUTrieNode :=
  if has_next node then Ok (read st node (n_next (data node)))
  else Raise LRUTrieNodeTraversalException.

Definition has_child (node : LRUTrieNode) : bool :=
  negb (n_child (data node) =? 0).

Definition set_child (b : nat) (node : LRUTrieNode) : LRUTrieNode :=
  with_data (data_set_child b (data node)) node.

Definition read_child (st : Storage) (node : LRUTrieNode) : result LRUTrieNode :=
  if has_child node then Ok (read st node (n_child (data node)))
  else Raise LRUTrieNodeTraversalException.

Definition parent (node : LRUTrieNode) : nat := n_parent (data node).

Definition set_parent (b : nat) (node : LRUTrieNode) : LRUTrieNode :=
  with_data (data_set_parent b (data node)) node.

Definition read_parent (st : Storage) (node : LRUTrieNode) : LRUTrieNode :=
  read st node (parent node).

(** Modelled from the spec: accessors that [lru_trie.py] and [traph.py]
    call and [lru_trie_node.py] does not define. They test and set the flag
    bits of section 3; [set_webentity] records the id and marks the node as
    a webentity prefix. *)
Definition has_webentity (node : LRUTrieNode) : bool :=
  test (n_flags (data node)) LRU_TRIE_NODE_FLAG_WEBENTITY.

Definition webentity (node : LRUTrieNode) : nat := n_webentity (data node).

Definition set_webentity (w : nat) (node : LRUTrieNode) : LRUTrieNode :=
  with_data (data_set_webentity w (data node)) node.

Definition has_webentity_creation_rule (node : LRUTrieNode) : bool :=
  test (n_flags (data node)) LRU_TRIE_NODE_FLAG_WEBENTITY_CREATION_RULE.

Definition flag_as_webentity_creation_rule (node : LRUTrieNode) : LRUTrieNode :=
  with_data (set_flags (flag (n_flags (data node))
                             LRU_TRIE_NODE_FLAG_WEBENTITY_CREATION_RULE)
                       (data node)) node.

Definition unflag_as_webentity_creation_rule (node : LRUTrieNode) : LRUTrieNode :=
  with_data (set_flags (unflag (n_flags (data node))
                               LRU_TRIE_NODE_FLAG_WEBENTITY_CREATION_RULE)
                       (data node)) node.

(** A pointer field is packed as an integer: handing [None] (the block of a
    node that was never read nor written) to [struct.pack] raises. *)
Definition block_value (node : LRUTrieNode) : result nat :=
  match block node with
  | Some b => Ok b
  | None => Raise StructError
  end.

(** [next_node()], [child_node()] and [parent_node()]: a new handle on the
    block pointed to; the node itself is left as it is. *)
Definition next_node (st : Storage) (node : LRUTrieNode) : result LRUTrieNode :=
  if has_next node then Ok (node_of_block st (n_next (data node)))
  else Raise LRUTrieNodeTraversalException.

Definition child_node (st : Storage) (node : LRUTrieNode) : result LRUTrieNode :=
  if has_child node then Ok (node_of_block st (n_child (data node)))
  else Raise LRUTrieNodeTraversalException.

Definition parent_node (st : Storage) (node : LRUTrieNode) : LRUTrieNode :=
  node_of_block st (parent node).

(** ** Packing ([struct.pack] and [struct.unpack]) *)

(** A format without a prefix is packed in the byte order of the machine,
    each field at a multiple of its size. A field is given by its size in
    bytes: 1 for [B], 2 for [H], 8 for [Q]. The bytes packed are a Python 2
    [str]. *)
Inductive byteorder : Type := little | big.

Module Pack.

Definition align (offset size : nat) : nat :=
  Nat.div (offset + size - 1) size * size.

Definition calcsize (sizes : list nat) : nat :=
  fold_left (fun offset size => align offset size + size) sizes 0.

(** The [size] low bytes of [v], the least significant first. *)
Fixpoint le_bytes (size : nat) (v : Z) : string :=
  match size with
  | 0 => EmptyString
  | S size' => String (chr (v mod 256)) (le_bytes size' (v / 256))
  end.

(** The [size] low bytes of [v], the most significant first. *)
Fixpoint be_bytes (size : nat) (v : Z) : string :=
  match size with
  | 0 => EmptyString
  | S size' =>
      String (chr ((v / 256 ^ Z.of_nat size') mod 256)) (be_bytes size' v)
  end.

Definition int_bytes (order : byteorder) (size : nat) (v : Z) : string :=
  match order with
  | little => le_bytes size v
  | big => be_bytes size v
  end.

(** Pad bytes are null bytes. *)
Fixpoint pad (n : nat) : string :=
  match n with
  | 0 => EmptyString
  | S n' => String zero (pad n')
  end.

(** An unsigned field of [size] bytes takes the integers from 0 to
    [256 ^ size - 1]; [struct.pack] raises [struct.error] on any other. *)
Definition fits (size : nat) (v : Z) : bool :=
  (0 <=? v)%Z && (v <? 256 ^ Z.of_nat size)%Z.

(** [struct.pack(format, *values)], from the offset reached. *)
Fixpoint pack (order : byteorder) (offset : nat) (sizes : list nat)
    (values : list Z) : result string :=
  match sizes, values with
  | [], [] => Ok EmptyString
  | size :: sizes', v :: values' =>
      if fits size v then
        try rest <- pack order (align offset size + size) sizes' values' in
        Ok (String.append (pad (align offset size - offset))
              (String.append (int_bytes order size v) rest))
      else Raise StructError
  | _, _ => Raise StructError
  end.

Fixpoint skip (n : nat) (data : string) : option string :=
  match n with
  | 0 => Some data
  | S n' =>
      match data with
      | EmptyString => None
      | String _ data' => skip n' data'
      end
  end.

Fixpoint le_value (size : nat) (data : string) : option (Z * string) :=
  match size with
  | 0 => Some (0%Z, data)
  | S size' =>
      match data with
      | EmptyString => None
      | String c data' =>
          match le_value size' data' with
          | None => None
          | Some (v, rest) => Some ((ord c + 256 * v)%Z, rest)
          end
      end
  end.

Fixpoint be_value (size : nat) (data : string) (acc : Z) : option (Z * string) :=
  match size with
  | 0 => Some (acc, data)
  | S size' =>
      match data with
      | EmptyString => None
      | String c data' => be_value size' data' (acc * 256 + ord c)%Z
      end
  end.

Definition int_value (order : byteorder) (size : nat) (data : string)
  : option (Z * string) :=
  match order with
  | little => le_value size data
  | big => be_value size data 0%Z
  end.

(** [struct.unpack(format, data)], from the offset reached: it raises
    [struct.error] unless the data has the size of the format. *)
Fixpoint unpack (order : byteorder) (offset : nat) (sizes : list nat)
    (data : string) : result (list Z) :=
  match sizes with
  | [] =>
      match data with
      | EmptyString => Ok []
      | String _ _ => Raise StructError
      end
  | size :: sizes' =>
      match skip (align offset size - offset) data with
      | None => Raise StructError
      | Some data =>
          match int_value order size data with
          | None => Raise StructError
          | Some (v, data) =>
              try values <- unpack order (align offset size + size) sizes' data in
              Ok (v :: values)
          end
      end
  end.

End Pack.

(** [pack()] and [unpack(data)] of a node, with [LRU_TRIE_NODE_FORMAT]. *)
Definition pack (order : byteorder) (node : LRUTrieNode) : result string :=
  Pack.pack order 0 (Struct.size <$> LRU_TRIE_NODE_FORMAT) (data_list (data node)).

Definition unpack (order : byteorder) (data : string) : result (list Z) :=
  Pack.unpack order 0 (Struct.size <$> LRU_TRIE_NODE_FORMAT) data.

(** ** The walk history *)

(** Modelled from the spec: [lru_trie_walk_history.py] is not among the
    sources. Section 4.4: the nearest webentity met on the walk (a later one
    overrides), the prefix and position it was met at, the rule prefixes met
    in root-to-leaf order, and whether [add_page] set the page flag. Before
    any webentity is met the position is -1, so that [position + 1] is the
    length of the prefix covered by a webentity, none. *)
Record LRUTrieWalkHistory : Type := mkHistory {
  webentity_id : option nat;
  webentity_prefix : string;
  webentity_position : Z;
  rule_prefixes : list string;
  page_was_created : bool
}.

Definition new_history : LRUTrieWalkHistory :=
  {| webentity_id := None; webentity_prefix := EmptyString;
     webentity_position := (-1)%Z; rule_prefixes := [];
     page_was_created := false |}.

Definition update_webentity (w : nat) (prefix : string) (position : nat)
    (h : LRUTrieWalkHistory) : LRUTrieWalkHistory :=
  {| webentity_id := Some w; webentity_prefix := prefix;
     webentity_position := Z.of_nat position;
     rule_prefixes := rule_prefixes h;
     page_was_created := page_was_created h |}.

Definition update_webentity_creation_rule (rule : string) (position : nat)
    (h : LRUTrieWalkHistory) : LRUTrieWalkHistory :=
  {| webentity_id := webentity_id h; webentity_prefix := webentity_prefix h;
     webentity_position := webentity_position h;
     rule_prefixes := rule_prefixes h ++ [rule];
     page_was_created := page_was_created h |}.

Definition set_page_was_created (b : bool) (h : LRUTrieWalkHistory)
  : LRUTrieWalkHistory :=
  {| webentity_id := webentity_id h; webentity_prefix := webentity_prefix h;
     webentity_position := webentity_position h;
     rule_prefixes := rule_prefixes h;
     page_was_created := b |}.

Definition rules_to_apply (h : LRUTrieWalkHistory) : list string :=
  rule_prefixes h.

(** Modelled from the spec: [node.webentity_creation_rule()], absent from
    [lru_trie_node.py]. Section 4.3 (c): the rule prefix of a rule node met
    at index [i] of the walk, that is the walked LRU up to this node. *)
Definition webentity_creation_rule (lru : string) (i : nat)
    (node : LRUTrieNode) : string :=
  String.substring 0 (S i) lru.

(** ** The trie ([lru_trie.py]) *)

(** Modelled from the spec: the constant is imported from
    [lru_trie_node.py], which does not define it. Section 3: block 0 is
    reserved as the null pointer and the records start at block 1. *)
Definition LRU_TRIE_NODE_HEADER_BLOCKS : nat := 1.

(** [__root()]. *)
Definition root (st : Storage) : LRUTrieNode :=
  node_of_block st LRU_TRIE_NODE_HEADER_BLOCKS.

(** [__ensure_headers()]: the loop over [header_block], which runs
    [LRU_TRIE_NODE_HEADER_BLOCKS] times. *)
Fixpoint ensure_headers_from (n header_block : nat) (st : Storage) : Storage :=
  match n with
  | 0 => st
  | S n' =>
      let header_node := node_of_block st header_block in
      let st :=
        if negb (node_exists header_node) then snd (write st header_node)
        else st in
      ensure_headers_from n' (S header_block) st
  end.

Definition ensure_headers (st : Storage) : Storage :=
  ensure_headers_from LRU_TRIE_NODE_HEADER_BLOCKS 0 st.

(** [LRUTrie(storage)]. *)
Definition LRUTrie (st : Storage) : Storage := ensure_headers st.

Definition scan_fuel (st : Storage) : nat := S (length (blocks st)).

(** The [while True] loop of [__ensure_char_from_siblings]: [true] with the
    node carrying the character, or [false] with the last sibling. *)
Fixpoint follow_siblings (fuel : nat) (st : Storage) (node : LRUTrieNode)
    (c : Z) : result (bool * LRUTrieNode) :=
  match fuel with
  | 0 => Raise NonTermination
  | S fuel' =>
      if (char node =? c)%Z then Ok (true, node)
      else if has_next node then
        try node <- read_next st node in
        follow_siblings fuel' st node c
      else Ok (false, node)
  end.

Definition ensure_char_from_siblings (st : Storage) (node : LRUTrieNode)
    (c : Z) : result (LRUTrieNode * Storage) :=
  if negb (node_exists node) then
    let node := set_char c node in
    Ok (write st node)
  else
    try (found, node) <- follow_siblings (scan_fuel st) st node c in
    if (found : bool) then Ok (node, st)
    else
      let sibling := node_of_char c in
      let sibling := set_parent (parent node) sibling in
      let '(sibling, st) := write st sibling in
      try b <- block_value sibling in
      let node := set_next b node in
      let '(_, st) := write st node in
      Ok (sibling, st).

(** The first loop of [add_lru], by recursion on the characters left to
    read, [rest = lru[i:]]. It stops with the characters it did not read. *)
Fixpoint descend (lru rest : string) (i : nat) (node : LRUTrieNode)
    (history : LRUTrieWalkHistory) (st : Storage)
  : result (LRUTrieNode * LRUTrieWalkHistory * string * Storage) :=
  match rest with
  | EmptyString => Ok (node, history, rest, st)
  | String c rest' =>
      try (node, st) <- ensure_char_from_siblings st node (ord c) in
      let history :=
        if has_webentity node
        then update_webentity (webentity node) (String.substring 0 i lru) i history
        else history in
      let history :=
        if has_webentity_creation_rule node
        then update_webentity_creation_rule
               (webentity_creation_rule lru i node) i history
        else history in
      match rest' with
      | EmptyString => Ok (node, history, rest', st)
      | String _ _ =>
          if has_child node then
            try node <- read_child st node in
            descend lru rest' (S i) node history st
          else Ok (node, history, rest', st)
      end
  end.

(** The second loop of [add_lru]: one new child per character left. *)
Fixpoint extend (rest : string) (node : LRUTrieNode) (st : Storage)
  : result (LRUTrieNode * Storage) :=
  match rest with
  | EmptyString => Ok (node, st)
  | String c rest' =>
      let child := node_of_char (ord c) in
      try b <- block_value node in
      let child := set_parent b child in
      let '(child, st) := write st child in
      try cb <- block_value child in
      let node := set_child cb node in
      let '(_, st) := write st node in
      extend rest' child st
  end.

Definition add_lru (lru : string) (st : Storage)
  : result (LRUTrieNode * LRUTrieWalkHistory * Storage) :=
  let history := new_history in
  let node := root st in
  try (node, history, rest, st) <- descend lru lru 0 node history st in
  try (node, st) <- extend rest node st in
  Ok (node, history, st).

Definition add_page (lru : string) (st : Storage)
  : result (LRUTrieNode * LRUTrieWalkHistory * Storage) :=
  try (node, history, st) <- add_lru lru st in
  if negb (is_page node) then
    let node := flag_as_page node in
    let '(node, st) := write st node in
    Ok (node, set_page_was_created true history, st)
  else Ok (node, history, st).

(** The [while] loop of [lru_node]: the node carrying the character, or
    nothing when the siblings are exhausted. *)
Fixpoint seek (fuel : nat) (st : Storage) (node : LRUTrieNode) (c : Z)
  : result (option LRUTrieNode) :=
  match fuel with
  | 0 => Raise NonTermination
  | S fuel' =>
      if negb (char node =? c)%Z then
        if negb (has_next node) then Ok None
        else
          try node <- read_next st node in
          seek fuel' st node c
      else Ok (Some node)
  end.

(** The [for] loop of [lru_node]; [None] is the bare [return]. *)
Fixpoint lru_node_from (rest : string) (node : LRUTrieNode) (st : Storage)
  : result (option LRUTrieNode) :=
  match rest with
  | EmptyString => Ok (Some node)
  | String c rest' =>
      try found <- seek (scan_fuel st) st node (ord c) in
      match found with
      | None => Ok None
      | Some node =>
          match rest' with
          | EmptyString => Ok (Some node)
          | String _ _ =>
              if negb (has_child node) then Ok None
              else
                try node <- read_child st node in
                lru_node_from rest' node st
          end
      end
  end.

Definition lru_node (lru : string) (st : Storage) : result (option LRUTrieNode) :=
  lru_node_from lru (root st) st.

(** The loop of [nodes_iter]; the list is the sequence of the nodes
    yielded, each as it is when yielded. [node.block + 1] on a node without
    a block is a [TypeError]. *)
Fixpoint nodes_loop (fuel : nat) (st : Storage) (node : LRUTrieNode)
  : result (list LRUTrieNode) :=
  match fuel with
  | 0 => Raise NonTermination
  | S fuel' =>
      if node_exists node then
        match block node with
        | None => Raise TypeError
        | Some b =>
            try later <- nodes_loop fuel' st (read st node (b + 1)) in
            Ok (node :: later)
        end
      else Ok []
  end.

Definition nodes_iter (st : Storage) : result (list LRUTrieNode) :=
  nodes_loop (scan_fuel st) st (root st).

(** The [while] loop of [node_siblings_iter]. *)
Fixpoint siblings_loop (fuel : nat) (st : Storage) (sibling : LRUTrieNode)
  : result (list LRUTrieNode) :=
  match fuel with
  | 0 => Raise NonTermination
  | S fuel' =>
      if has_next sibling then
        try sibling <- read_next st sibling in
        try later <- siblings_loop fuel' st sibling in
        Ok (sibling :: later)
      else Ok []
  end.

Definition node_siblings_iter (st : Storage) (node : LRUTrieNode)
  : result (list LRUTrieNode) :=
  if negb (has_next node) then Ok []
  else
    try sibling <- next_node st node in
    try later <- siblings_loop (scan_fuel st) st sibling in
    Ok (sibling :: later).

(** [lru[:-1]]. *)
Fixpoint remove_last (s : string) : string :=
  match s with
  | EmptyString => EmptyString
  | String c EmptyString => EmptyString
  | String c s' => String c (remove_last s')
  end.

(** The loop of [dfs_iter]; the list is the sequence of the pairs yielded,
    each node as it is when yielded. *)
Fixpoint dfs_loop (fuel : nat) (st : Storage) (node : LRUTrieNode)
    (descending : bool) (lru : string) : result (list (LRUTrieNode * string)) :=
  match fuel with
  | 0 => Raise NonTermination
  | S fuel' =>
      let yielded :=
        if descending then [(node, String.append lru (char_as_str node))]
        else [] in
      if descending && has_child node then
        try child <- read_child st node in
        try later <- dfs_loop fuel' st child true
                       (String.append lru (char_as_str node)) in
        Ok (yielded ++ later)
      else if has_next node then
        try sibling <- read_next st node in
        try later <- dfs_loop fuel' st sibling true lru in
        Ok (yielded ++ later)
      else if negb (is_root node) then
        try later <- dfs_loop fuel' st (read_parent st node) false
                       (remove_last lru) in
        Ok (yielded ++ later)
      else Ok yielded
  end.

(** [dfs_iter(self)]: it takes no argument besides [self]. *)
Definition dfs_iter (st : Storage) : result (list (LRUTrieNode * string)) :=
  let node := root st in
  if negb (node_exists node) then Ok []
  else dfs_loop (2 * length (blocks st) + 2) st node true EmptyString.

Definition pages_iter (st : Storage) : result (list (LRUTrieNode * string)) :=
  try pairs <- dfs_iter st in
  Ok (filter (fun p => is_page (fst p) = true) pairs).

Definition empty_trie : Storage := LRUTrie MemoryStorage.

(** ** The coordinator ([traph.py]) *)

(** A compiled regular expression, by what the source uses of it:
    [regexp.search(lru)] followed by [match.group()], nothing when the
    search finds no match. *)
Definition Pattern : Type := string -> option string.

(** Modelled from the spec: [traph_write_report.py] is not among the
    sources. Section 6: the number of pages created and the prefixes of the
    webentities created, by id; two reports are merged by summing. *)
Record TraphWriteReport : Type := mkReport {
  nb_created_pages : nat;
  created_webentities : gmap nat (list string)
}.

Definition new_report : TraphWriteReport :=
  {| nb_created_pages := 0; created_webentities := ∅ |}.

Definition report_add (r1 r2 : TraphWriteReport) : TraphWriteReport :=
  {| nb_created_pages := nb_created_pages r1 + nb_created_pages r2;
     created_webentities := created_webentities r2 ∪ created_webentities r1 |}.

Definition report_created (w : nat) (prefixes : list string)
    (r : TraphWriteReport) : TraphWriteReport :=
  {| nb_created_pages := nb_created_pages r;
     created_webentities := <[w := prefixes]> (created_webentities r) |}.

(** An argument of a Python call. *)
Inductive argument : Type :=
| ArgNode (node : LRUTrieNode)
| ArgStr (s : string).

(** A call [self.lru_trie.dfs_iter(...)] with the positional arguments
    given after [self]. The method is declared [def dfs_iter(self)]: the
    arguments are bound when the generator function is called, and a call
    with any raises [TypeError] before the body runs. *)
Definition call_dfs_iter (args : list argument) (st : Storage)
  : result (list (LRUTrieNode * string)) :=
  match args with
  | [] => dfs_iter st
  | _ :: _ => Raise TypeError
  end.

(** The outcome of a call whose state is kept when it raises: the value
    returned, one of the exceptions above, or a plain
    [Exception(message)]. *)
Inductive outcome (A : Type) : Type :=
| Returns (a : A)
| Raises (e : error)
| RaisesException (message : string).

Arguments Returns {A} a.
Arguments Raises {A} e.
Arguments RaisesException {A} message.

Section Coordinator.

(** [helpers.lru_variations], an input of the core (section 4.6). *)
Variable lru_variations : string -> list string.

(** The state of the link store, and [LinkStore.add_outlinks] and
    [LinkStore.add_inlinks]: [link_store.py] is not among the sources.
    They are handed a node and the blocks of its peers, and may write
    both stores. *)
Variable LinkStorage : Type.
Variable add_outlinks add_inlinks :
  LRUTrieNode -> list (option nat) -> Storage * LinkStorage ->
  result (Storage * LinkStorage).

(** The fields of a [Traph]. [last_webentity_id] is modelled from the
    spec: the monotonic counter of section 3, which the source reaches as
    [self.lru_trie.header], an attribute [lru_trie.py] does not define.
    [add_page_calls] is a ghost field: the LRUs [__add_page] was entered
    with, the latest first. *)
Record Traph : Type := mkTraph {
  lru_trie_storage : Storage;
  links_store_storage : LinkStorage;
  last_webentity_id : nat;
  default_webentity_creation_rule : Pattern;
  webentity_creation_rules : gmap string Pattern;
  add_page_calls : list string
}.

Definition with_storage (st : Storage) (t : Traph) : Traph :=
  {| lru_trie_storage := st;
     links_store_storage := links_store_storage t;
     last_webentity_id := last_webentity_id t;
     default_webentity_creation_rule := default_webentity_creation_rule t;
     webentity_creation_rules := webentity_creation_rules t;
     add_page_calls := add_page_calls t |}.

Definition with_stores (s : Storage * LinkStorage) (t : Traph) : Traph :=
  {| lru_trie_storage := fst s;
     links_store_storage := snd s;
     last_webentity_id := last_webentity_id t;
     default_webentity_creation_rule := default_webentity_creation_rule t;
     webentity_creation_rules := webentity_creation_rules t;
     add_page_calls := add_page_calls t |}.

Definition with_rules (rules : gmap string Pattern) (t : Traph) : Traph :=
  {| lru_trie_storage := lru_trie_storage t;
     links_store_storage := links_store_storage t;
     last_webentity_id := last_webentity_id t;
     default_webentity_creation_rule := default_webentity_creation_rule t;
     webentity_creation_rules := rules;
     add_page_calls := add_page_calls t |}.

Definition entered (lru : string) (t : Traph) : Traph :=
  {| lru_trie_storage := lru_trie_storage t;
     links_store_storage := links_store_storage t;
     last_webentity_id := last_webentity_id t;
     default_webentity_creation_rule := default_webentity_creation_rule t;
     webentity_creation_rules := webentity_creation_rules t;
     add_page_calls := lru :: add_page_calls t |}.

(** [__generated_web_entity_id()]. *)
Definition generated_web_entity_id (t : Traph) : nat * Traph :=
  let id := S (last_webentity_id t) in
  (id,
   {| lru_trie_storage := lru_trie_storage t;
      links_store_storage := links_store_storage t;
      last_webentity_id := id;
      default_webentity_creation_rule := default_webentity_creation_rule t;
      webentity_creation_rules := webentity_creation_rules t;
      add_page_calls := add_page_calls t |}).

(** The loop of [__add_prefixes]. *)
Fixpoint set_prefixes (webentity_id : nat) (prefixes : list string)
    (st : Storage) : result Storage :=
  match prefixes with
  | [] => Ok st
  | prefix :: prefixes' =>
      try (node, _, st) <- add_lru prefix st in
      let node := set_webentity webentity_id node in
      let '(_, st) := write st node in
      set_prefixes webentity_id prefixes' st
  end.

Definition add_prefixes (prefixes : list string) (t : Traph)
  : result (nat * Traph) :=
  let '(webentity_id, t) := generated_web_entity_id t in
  try st <- set_prefixes webentity_id prefixes (lru_trie_storage t) in
  Ok (webentity_id, with_storage st t).

(** [__apply_webentity_creation_rule(rule_prefix, lru)]. *)
Definition apply_webentity_creation_rule (t : Traph) (rule_prefix lru : string)
  : result (option string) :=
  match webentity_creation_rules t !! rule_prefix with
  | None => Raise KeyError
  | Some regexp => Ok (regexp lru)
  end.

(** [__apply_webentity_default_creation_rule(lru)]. *)
Definition apply_webentity_default_creation_rule (t : Traph) (lru : string)
  : option string :=
  default_webentity_creation_rule t lru.

Definition expand_prefix (prefix : string) : list string :=
  lru_variations prefix.

(** Truth value of a string: the empty string is false. *)
Definition nonempty (s : string) : bool :=
  match s with
  | EmptyString => false
  | String _ _ => true
  end.

(** The loop of [__add_page] that retrieves the longest candidate
    prefix. *)
Fixpoint longest_candidate (t : Traph) (rule_prefixes : list string)
    (lru : string) (longest_candidate_prefix : string) : result string :=
  match rule_prefixes with
  | [] => Ok longest_candidate_prefix
  | rule_prefix :: rule_prefixes' =>
      try candidate_prefix <- apply_webentity_creation_rule t rule_prefix lru in
      let longest_candidate_prefix :=
        match candidate_prefix with
        | Some c =>
            if nonempty c
               && (String.length longest_candidate_prefix <? String.length c)
            then c else longest_candidate_prefix
        | None => longest_candidate_prefix
        end in
      longest_candidate t rule_prefixes' lru longest_candidate_prefix
  end.

(** [__add_page(lru)]. When the default rule finds no match,
    [lru_variations] is handed [None]; that is modelled as a
    [TypeError]. *)
Definition Traph_add_page (lru : string) (t : Traph)
  : result (LRUTrieNode * TraphWriteReport * Traph) :=
  let t := entered lru t in
  try (node, history, st) <- add_page lru (lru_trie_storage t) in
  let t := with_storage st t in
  let report := new_report in
  try longest_candidate_prefix <-
    longest_candidate t (rules_to_apply history) lru EmptyString in
  if nonempty longest_candidate_prefix
     && (Z.of_nat (String.length longest_candidate_prefix)
         <=? webentity_position history + 1)%Z
  then Ok (node, report, t)
  else if nonempty longest_candidate_prefix then
    let expanded_prefixes := expand_prefix longest_candidate_prefix in
    try (webentity_id, t) <- add_prefixes expanded_prefixes t in
    Ok (node, report_created webentity_id expanded_prefixes report, t)
  else
    match apply_webentity_default_creation_rule t lru with
    | None => Raise TypeError
    | Some longest_candidate_prefix =>
        let expanded_prefixes := expand_prefix longest_candidate_prefix in
        try (webentity_id, t) <- add_prefixes expanded_prefixes t in
        Ok (node, report_created webentity_id expanded_prefixes report, t)
    end.

(** The public [add_page(lru)]. *)
Definition Traph_add_page_report (lru : string) (t : Traph)
  : result (TraphWriteReport * Traph) :=
  try (_, report, t) <- Traph_add_page lru t in
  Ok (report, t).

(** The loop of [add_webentity_creation_rule] over the pairs yielded. *)
Fixpoint replay_pages (pairs : list (LRUTrieNode * string))
    (report : TraphWriteReport) (t : Traph)
  : result (TraphWriteReport * Traph) :=
  match pairs with
  | [] => Ok (report, t)
  | (node2, lru) :: pairs' =>
      if is_page node2 then
        try (_, add_report, t) <- Traph_add_page lru t in
        replay_pages pairs' (report_add report add_report) t
      else replay_pages pairs' report t
  end.

(** [add_webentity_creation_rule(rule_prefix, pattern, write_in_trie)];
    [pattern] is the expression once compiled. A node object is true, so
    [if not node] never raises. *)
Definition add_webentity_creation_rule (rule_prefix : string)
    (pattern : Pattern) (write_in_trie : bool) (t : Traph)
  : result (TraphWriteReport * Traph) :=
  let t := with_rules (<[rule_prefix := pattern]> (webentity_creation_rules t)) t in
  let report := new_report in
  if write_in_trie then
    try (node, _, st) <- add_lru rule_prefix (lru_trie_storage t) in
    let node := flag_as_webentity_creation_rule node in
    let '(node, st) := write st node in
    let t := with_storage st t in
    try pairs <- call_dfs_iter [ArgNode node; ArgStr (remove_last rule_prefix)]
                   (lru_trie_storage t) in
    replay_pages pairs report t
  else Ok (report, t).

(** [remove_webentity_creation_rule(rule_prefix)], with the state it
    leaves. A missing key raises [KeyError] at the first line; a compiled
    pattern is true, so the [raise] under it is never reached, and the rule
    is deleted before the node is looked for. *)
Definition remove_webentity_creation_rule (rule_prefix : string) (t : Traph)
  : outcome bool * Traph :=
  match webentity_creation_rules t !! rule_prefix with
  | None => (Raises KeyError, t)
  | Some _ =>
      let t := with_rules (delete rule_prefix (webentity_creation_rules t)) t in
      match lru_node rule_prefix (lru_trie_storage t) with
      | Raise e => (Raises e, t)
      | Ok None =>
          (RaisesException (String.append "Prefix not in tree: " rule_prefix), t)
      | Ok (Some node) =>
          let node := unflag_as_webentity_creation_rule node in
          let '(_, st) := write (lru_trie_storage t) node in
          (Returns true, with_storage st t)
      end
  end.

(** [pages_iter()] of the Traph. *)
Definition Traph_pages_iter (t : Traph) : result (list (LRUTrieNode * string)) :=
  pages_iter (lru_trie_storage t).

(** The first loop of [add_links]: the pages of the batch are added and
    the two multimaps are built. *)
Definition multimap_append (k v : string) (m : gmap string (list string))
  : gmap string (list string) :=
  <[k := default [] (m !! k) ++ [v]]> m.

Definition links_state : Type :=
  (Traph * TraphWriteReport * gmap string LRUTrieNode
   * gmap string (list string) * gmap string (list string))%type.

Definition add_links_page (page : string) (s : Traph * TraphWriteReport * gmap string LRUTrieNode)
  : result (Traph * TraphWriteReport * gmap string LRUTrieNode) :=
  let '(t, report, pages) := s in
  match pages !! page with
  | Some _ => Ok (t, report, pages)
  | None =>
      try (node, page_report, t) <- Traph_add_page page t in
      Ok (t, report_add report page_report, <[page := node]> pages)
  end.

Fixpoint add_links_pages (links : list (string * string)) (s : links_state)
  : result links_state :=
  match links with
  | [] => Ok s
  | (source_page, target_page) :: links' =>
      let '(t, report, pages, outlinks, inlinks) := s in
      try s1 <- add_links_page source_page (t, report, pages) in
      try (t, report, pages) <- add_links_page target_page s1 in
      add_links_pages links'
        (t, report, pages,
         multimap_append source_page target_page outlinks,
         multimap_append target_page source_page inlinks)
  end.

(** The blocks of the pages of a list; a page missing from the cache is a
    [KeyError]. *)
Fixpoint page_blocks (pages : gmap string LRUTrieNode) (names : list string)
  : result (list (option nat)) :=
  match names with
  | [] => Ok []
  | name :: names' =>
      match pages !! name with
      | None => Raise KeyError
      | Some node =>
          try bs <- page_blocks pages names' in
          Ok (block node :: bs)
      end
  end.

(** The two loops of [add_links] that hand the multimaps to the link
    store, one call per key; the keys come in the order of the map. *)
Fixpoint flush_links
    (store_op : LRUTrieNode -> list (option nat) -> Storage * LinkStorage ->
                result (Storage * LinkStorage))
    (pages : gmap string LRUTrieNode)
    (items : list (string * list string)) (s : Storage * LinkStorage)
  : result (Storage * LinkStorage) :=
  match items with
  | [] => Ok s
  | (page, peers) :: items' =>
      match pages !! page with
      | None => Raise KeyError
      | Some node =>
          try peer_blocks <- page_blocks pages peers in
          try s <- store_op node peer_blocks s in
          flush_links store_op pages items' s
      end
  end.

(** [add_links(links)]. *)
Definition add_links (links : list (string * string)) (t : Traph)
  : result (TraphWriteReport * Traph) :=
  try (t, report, pages, outlinks, inlinks) <-
    add_links_pages links (t, new_report, ∅, ∅, ∅) in
  try s <- flush_links add_outlinks pages (map_to_list outlinks)
             (lru_trie_storage t, links_store_storage t) in
  try s <- flush_links add_inlinks pages (map_to_list inlinks) s in
  Ok (report, with_stores s t).

End Coordinator.

(** ** The header of the link store ([link_store/header.py]) *)

Module LinkStoreHeader.

(** ['QQH']: two unsigned 64-bit integers and an unsigned 16-bit one, by
    their sizes. *)
Definition LINK_STORE_HEADER_FORMAT : list nat := [8; 8; 2].

Definition LINK_STORE_HEADER_BLOCKS : nat := 1.

Section Header.

(** The storage the header is built on, by the three members of it that
    the header uses: [file_storage.py] and [memory_storage.py] are not
    among the sources. *)
Variable storage : Type.
Variable storage_read : storage -> nat -> option string.
Variable storage_write : string -> nat -> storage -> storage.
Variable block_size : storage -> nat.

Variable order : byteorder.

(** What [struct.unpack] raises when it is handed [None], a [TypeError] or
    a [struct.error] by the version of Python. *)
Variable unpack_of_none : error.

Definition unpack (data : string) : result (list Z) :=
  Pack.unpack order 0 LINK_STORE_HEADER_FORMAT data.

Definition pack (data : list Z) : result string :=
  Pack.pack order 0 LINK_STORE_HEADER_FORMAT data.

(** [not data]: nothing, or the empty string. *)
Definition falsy (data : option string) : bool :=
  match data with
  | None => true
  | Some EmptyString => true
  | Some (String _ _) => false
  end.

(** The loop of [__ensure]: [block] goes up by the block size of the
    storage. *)
Fixpoint ensure_loop (fuel : nat) (empty_data : string) (block : nat)
    (st : storage) : result storage :=
  match fuel with
  | 0 => Raise NonTermination
  | S fuel' =>
      if block <? LINK_STORE_HEADER_BLOCKS then
        let data := storage_read st block in
        let st :=
          if falsy data then storage_write empty_data block st else st in
        ensure_loop fuel' empty_data (block + block_size st) st
      else Ok st
  end.

Definition ensure (fuel : nat) (st : storage) : result storage :=
  try empty_data <- pack [0; 0; 0]%Z in
  ensure_loop fuel empty_data 0 st.

(** [read()]: the data of the header, from block 0. *)
Definition read (st : storage) : result (list Z) :=
  match storage_read st 0 with
  | None => Raise unpack_of_none
  | Some data => unpack data
  end.

(** [write()], for a header whose data is [data]. *)
Definition write (data : list Z) (st : storage) : result storage :=
  try packed <- pack data in
  Ok (storage_write packed 0 st).

(** [LinkStoreHeader(storage)]: the storage and [self.data] once the
    constructor is through. *)
Definition LinkStoreHeader (fuel : nat) (st : storage)
  : result (storage * list Z) :=
  try st <- ensure fuel st in
  try data <- read st in
  Ok (st, data).

End Header.

End LinkStoreHeader.

(** * Properties *)

(** ** Well-formed stores *)

(** A pointer of a block is null or points forward to a block of the store;
    the parent is a block of the store. Blocks are appended and a pointer is
    only ever set to the block just appended. *)
Definition block_ok (len b : nat) (d : NodeData) : Prop :=
  (n_next d = 0 ∨ b < n_next d < len)
  ∧ (n_child d = 0 ∨ b < n_child d < len)
  ∧ n_parent d < len.

Definition fwd (bs : list NodeData) : Prop :=
  ∀ b d, bs !! b = Some d → block_ok (length bs) b d.

Definition wf (st : Storage) : Prop :=
  1 ≤ length (blocks st) ∧ fwd (blocks st).

Definition block_okb (len b : nat) (d : NodeData) : bool :=
  ((n_next d =? 0) || ((b <? n_next d) && (n_next d <? len)))
  && ((n_child d =? 0) || ((b <? n_child d) && (n_child d <? len)))
  && (n_parent d <? len).

Fixpoint fwdb_from (len b : nat) (bs : list NodeData) : bool :=
  match bs with
  | [] => true
  | d :: bs' => block_okb len b d && fwdb_from len (S b) bs'
  end.

Definition wfb (st : Storage) : bool :=
  (1 <=? length (blocks st)) && fwdb_from (length (blocks st)) 0 (blocks st).

Lemma block_okb_sound len b d : block_okb len b d = true → block_ok len b d.
Proof.
  unfold block_okb, block_ok. intros H.
  apply andb_true_iff in H as [H Hp]. apply andb_true_iff in H as [Hn Hc].
  apply Nat.ltb_lt in Hp.
  split; [|split]; [| |done].
  - apply orb_true_iff in Hn as [Hn|Hn]; [left; by apply Nat.eqb_eq|right].
    apply andb_true_iff in Hn as [H1 H2].
    apply Nat.ltb_lt in H1. apply Nat.ltb_lt in H2. lia.
  - apply orb_true_iff in Hc as [Hc|Hc]; [left; by apply Nat.eqb_eq|right].
    apply andb_true_iff in Hc as [H1 H2].
    apply Nat.ltb_lt in H1. apply Nat.ltb_lt in H2. lia.
Qed.

Lemma fwdb_from_sound len bs :
  ∀ off, fwdb_from len off bs = true →
         ∀ b d, bs !! b = Some d → block_ok len (off + b) d.
Proof.
  induction bs as [|x bs IH]; intros off H b d Hb; [done|].
  simpl in H. apply andb_true_iff in H as [Hx Hrest].
  destruct b as [|b]; simpl in Hb.
  - inversion Hb; subst. rewrite Nat.add_0_r. by apply block_okb_sound.
  - replace (off + S b) with (S off + b) by lia. by apply IH.
Qed.

Lemma wfb_sound st : wfb st = true → wf st.
Proof.
  unfold wfb, wf. intros H. apply andb_true_iff in H as [H1 H2].
  apply Nat.leb_le in H1. split; [done|].
  intros b d Hb. by apply (fwdb_from_sound _ _ 0 H2 b d).
Qed.

(** ** Sibling lists *)

(** The blocks reached from [b] along [next], [b] first. *)
Fixpoint chain_aux (fuel : nat) (bs : list NodeData) (b : nat) : list nat :=
  match fuel with
  | 0 => []
  | S fuel' =>
      match bs !! b with
      | None => []
      | Some d =>
          b :: (if n_next d =? 0 then [] else chain_aux fuel' bs (n_next d))
      end
  end.

Definition chain (bs : list NodeData) (b : nat) : list nat :=
  chain_aux (length bs - b) bs b.

Definition char_at (bs : list NodeData) (v : nat) : Z :=
  match bs !! v with
  | Some d => n_char d
  | None => 0%Z
  end.

(** The first block of a list that carries a character. *)
Definition find_sibling (bs : list NodeData) (c : Z) (l : list nat) : option nat :=
  List.find (fun v => (char_at bs v =? c)%Z) l.

Lemma chain_aux_fuel bs :
  fwd bs →
  ∀ f1 f2 b, length bs - b ≤ f1 → length bs - b ≤ f2 →
             chain_aux f1 bs b = chain_aux f2 bs b.
Proof.
  intros Hf. induction f1 as [|f1 IH]; intros f2 b H1 H2.
  - assert (bs !! b = None) as Hn by (apply lookup_ge_None; lia).
    destruct f2; simpl; [done|]. by rewrite Hn.
  - destruct f2 as [|f2].
    + assert (bs !! b = None) as Hn by (apply lookup_ge_None; lia).
      simpl. by rewrite Hn.
    + simpl. destruct (bs !! b) as [d|] eqn:Hb; [|done].
      f_equal. destruct (n_next d =? 0) eqn:Hz; [done|].
      apply Nat.eqb_neq in Hz.
      destruct (Hf b d Hb) as [[?|?] _]; [done|].
      apply IH; lia.
Qed.

Lemma chain_unfold bs b d :
  fwd bs → bs !! b = Some d →
  chain bs b = b :: (if n_next d =? 0 then [] else chain bs (n_next d)).
Proof.
  intros Hf Hb. unfold chain.
  pose proof (lookup_lt_Some _ _ _ Hb) as Hlt.
  destruct (length bs - b) as [|k] eqn:Hk; [lia|].
  simpl. rewrite Hb. f_equal.
  destruct (n_next d =? 0) eqn:Hz; [done|].
  apply Nat.eqb_neq in Hz.
  destruct (Hf b d Hb) as [[?|?] _]; [done|].
  apply chain_aux_fuel; [done|lia|lia].
Qed.

Lemma chain_outside bs b : length bs ≤ b → chain bs b = [].
Proof.
  intros H. unfold chain. replace (length bs - b) with 0 by lia. done.
Qed.

(** Induction along the sibling lists of a well-formed store. *)
Lemma chain_ind bs (P : nat → Prop) :
  fwd bs →
  (∀ b d, bs !! b = Some d →
          (n_next d ≠ 0 → P (n_next d)) → P b) →
  ∀ b, b < length bs → P b.
Proof.
  intros Hf Hstep.
  assert (∀ n b, length bs - b ≤ n → b < length bs → P b) as H.
  { induction n as [|n IH]; intros b Hn Hb; [lia|].
    destruct (lookup_lt_is_Some_2 bs b Hb) as [d Hd].
    apply (Hstep b d Hd). intros Hz.
    destruct (Hf b d Hd) as [[?|?] _]; [done|].
    apply IH; lia. }
  intros b Hb. by apply (H (length bs - b)).
Qed.

(** ** The loops over siblings, on a well-formed store *)

(** The handle of a block that was read: [read] found [d] at [b]. *)
Definition handle (b : nat) (d : NodeData) : LRUTrieNode :=
  {| block := Some b; node_exists := true; data := d |}.

Lemma read_handle st node b d :
  blocks st !! b = Some d → read st node b = handle b d.
Proof. intros H. unfold read, storage_read. by rewrite H. Qed.

Lemma find_sibling_cons bs c v l :
  find_sibling bs c (v :: l) =
  if (char_at bs v =? c)%Z then Some v else find_sibling bs c l.
Proof. done. Qed.

Lemma char_at_lookup bs v d : bs !! v = Some d → char_at bs v = n_char d.
Proof. intros H. unfold char_at. by rewrite H. Qed.

Lemma follow_siblings_spec st c :
  fwd (blocks st) →
  ∀ b, b < length (blocks st) →
  ∀ d fuel, blocks st !! b = Some d → length (blocks st) - b ≤ fuel →
    match find_sibling (blocks st) c (chain (blocks st) b) with
    | Some v =>
        ∃ dv, blocks st !! v = Some dv ∧ n_char dv = c
              ∧ follow_siblings fuel st (handle b d) c = Ok (true, handle v dv)
    | None =>
        ∃ t dt, last (chain (blocks st) b) = Some t
                ∧ blocks st !! t = Some dt ∧ n_next dt = 0
                ∧ follow_siblings fuel st (handle b d) c = Ok (false, handle t dt)
    end.
Proof.
  intros Hf. apply (chain_ind (blocks st) (fun b => ∀ d fuel, blocks st !! b = Some d →
    length (blocks st) - b ≤ fuel → _) Hf).
  intros b d0 Hb0 IH d fuel Hb Hfuel.
  assert (d0 = d) as -> by congruence.
  pose proof (lookup_lt_Some _ _ _ Hb) as Hlt.
  rewrite (chain_unfold _ _ _ Hf Hb), find_sibling_cons, (char_at_lookup _ _ _ Hb).
  destruct fuel as [|fuel]; [lia|]. simpl. unfold char. simpl.
  destruct (n_char d =? c)%Z eqn:Hc.
  - exists d. apply Z.eqb_eq in Hc. done.
  - unfold has_next, read_next, has_next. simpl.
    destruct (n_next d =? 0) eqn:Hz; simpl.
    + exists b, d. apply Nat.eqb_eq in Hz. done.
    + apply Nat.eqb_neq in Hz.
      destruct (Hf b d Hb) as [[?|Hn] _]; [done|].
      destruct (lookup_lt_is_Some_2 (blocks st) (n_next d)) as [d' Hd']; [lia|].
      rewrite (read_handle _ _ _ _ Hd').
      specialize (IH Hz d' fuel Hd' ltac:(lia)).
      destruct (find_sibling (blocks st) c (chain (blocks st) (n_next d))) as [v|].
      * done.
      * destruct IH as (t & dt & Hlast & Ht & Hnext & Hrun).
        exists t, dt. split; [|done].
        rewrite (chain_unfold _ _ _ Hf Hd') in Hlast |- *.
        by rewrite last_cons_cons.
Qed.

Lemma seek_spec st c :
  fwd (blocks st) →
  ∀ b, b < length (blocks st) →
  ∀ d fuel, blocks st !! b = Some d → length (blocks st) - b ≤ fuel →
    match find_sibling (blocks st) c (chain (blocks st) b) with
    | Some v =>
        ∃ dv, blocks st !! v = Some dv ∧ n_char dv = c
              ∧ seek fuel st (handle b d) c = Ok (Some (handle v dv))
    | None => seek fuel st (handle b d) c = Ok None
    end.
Proof.
  intros Hf. apply (chain_ind (blocks st) (fun b => ∀ d fuel, blocks st !! b = Some d →
    length (blocks st) - b ≤ fuel → _) Hf).
  intros b d0 Hb0 IH d fuel Hb Hfuel.
  assert (d0 = d) as -> by congruence.
  pose proof (lookup_lt_Some _ _ _ Hb) as Hlt.
  rewrite (chain_unfold _ _ _ Hf Hb), find_sibling_cons, (char_at_lookup _ _ _ Hb).
  destruct fuel as [|fuel]; [lia|]. simpl. unfold char. simpl.
  destruct (n_char d =? c)%Z eqn:Hc; simpl.
  - exists d. apply Z.eqb_eq in Hc. done.
  - unfold has_next, read_next, has_next. simpl.
    destruct (n_next d =? 0) eqn:Hz; simpl; [done|].
    apply Nat.eqb_neq in Hz.
    destruct (Hf b d Hb) as [[?|Hn] _]; [done|].
    destruct (lookup_lt_is_Some_2 (blocks st) (n_next d)) as [d' Hd']; [lia|].
    rewrite (read_handle _ _ _ _ Hd').
    exact (IH Hz d' fuel Hd' ltac:(lia)).
Qed.

(** ** Flag registers *)

Lemma test_testbit f pos : (0 <= pos)%Z → test f pos = Z.testbit f pos.
Proof.
  intros Hp. unfold test.
  change 1%Z with (Z.ones 1). rewrite Z.land_ones by lia.
  change (2 ^ 1)%Z with 2%Z. rewrite <- Z.bit0_mod.
  rewrite Z.shiftr_spec by lia. rewrite Z.add_0_l.
  destruct (Z.testbit f pos); reflexivity.
Qed.

Lemma test_flag f p q :
  (0 <= p)%Z → (0 <= q)%Z →
  test (flag f p) q = (p =? q)%Z || test f q.
Proof.
  intros Hp Hq. rewrite !test_testbit by done. unfold flag.
  rewrite Z.lor_spec, Z.shiftl_spec by done.
  destruct (p =? q)%Z eqn:E.
  - apply Z.eqb_eq in E. subst. rewrite Z.sub_diag. simpl.
    by rewrite orb_true_r.
  - apply Z.eqb_neq in E. simpl.
    replace (Z.testbit 1 (q - p)) with false; [by rewrite orb_false_r|].
    destruct (Z.lt_ge_cases q p).
    + by rewrite Z.testbit_neg_r by lia.
    + symmetry. change 1%Z with (2 ^ 0)%Z. apply Z.pow2_bits_false. lia.
Qed.

Lemma flag_idem f p : (0 <= p)%Z → test f p = true → flag f p = f.
Proof.
  intros Hp Ht. rewrite test_testbit in Ht by done.
  apply Z.bits_inj'. intros n Hn. unfold flag.
  rewrite Z.lor_spec, Z.shiftl_spec by done.
  destruct (Z.eq_dec n p) as [->|Hne].
  - rewrite Ht. done.
  - replace (Z.testbit 1 (n - p)) with false; [by rewrite orb_false_r|].
    destruct (Z.lt_ge_cases n p).
    + by rewrite Z.testbit_neg_r by lia.
    + symmetry. change 1%Z with (2 ^ 0)%Z. apply Z.pow2_bits_false. lia.
Qed.

Definition page_bit (d : NodeData) : bool :=
  test (n_flags d) LRU_TRIE_NODE_FLAG_PAGE.
Definition web_bit (d : NodeData) : bool :=
  test (n_flags d) LRU_TRIE_NODE_FLAG_WEBENTITY.
Definition rule_bit (d : NodeData) : bool :=
  test (n_flags d) LRU_TRIE_NODE_FLAG_WEBENTITY_CREATION_RULE.

(** ** Later states of a store *)

(** [ext bs bs'] : [bs'] is a later state of [bs], as the insertions and
    the flagging of pages and webentities make it. Characters and parents
    are kept, a pointer that is set is kept, the rule flag is kept, the
    other flags are only ever set, and the blocks appended carry no rule
    flag. *)
Record ext (bs bs' : list NodeData) : Prop := mkExt {
  ext_len : length bs ≤ length bs';
  ext_old : ∀ b d, bs !! b = Some d →
    ∃ d', bs' !! b = Some d'
          ∧ n_char d' = n_char d ∧ n_parent d' = n_parent d
          ∧ (n_next d ≠ 0 → n_next d' = n_next d)
          ∧ (n_child d ≠ 0 → n_child d' = n_child d)
          ∧ rule_bit d' = rule_bit d
          ∧ (web_bit d = true → web_bit d' = true)
          ∧ (page_bit d = true → page_bit d' = true);
  ext_new : ∀ b d', length bs ≤ b → bs' !! b = Some d' → rule_bit d' = false
}.

Lemma ext_refl bs : ext bs bs.
Proof.
  split; [done| |].
  - intros b d Hb. exists d. done.
  - intros b d' Hlen Hb. apply lookup_lt_Some in Hb. lia.
Qed.

Lemma ext_trans bs1 bs2 bs3 : ext bs1 bs2 → ext bs2 bs3 → ext bs1 bs3.
Proof.
  intros [L1 O1 N1] [L2 O2 N2]. split; [lia| |].
  - intros b d Hb.
    destruct (O1 b d Hb) as (d' & Hb' & Hc & Hp & Hn & Hch & Hr & Hw & Hg).
    destruct (O2 b d' Hb') as (d'' & Hb'' & Hc' & Hp' & Hn' & Hch' & Hr' & Hw' & Hg').
    exists d''. split; [done|].
    split; [congruence|]. split; [congruence|].
    split; [intros Hz; rewrite Hn' by (rewrite Hn; done); by apply Hn|].
    split; [intros Hz; rewrite Hch' by (rewrite Hch; done); by apply Hch|].
    split; [congruence|]. split; auto.
  - intros b d'' Hlen Hb.
    destruct (decide (b < length bs2)) as [Hlt|Hge].
    + destruct (lookup_lt_is_Some_2 bs2 b Hlt) as [d' Hb'].
      destruct (O2 b d' Hb') as (d3 & Hb3 & _ & _ & _ & _ & Hr & _).
      assert (d3 = d'') as -> by congruence.
      rewrite Hr. by apply (N1 b).
    + apply (N2 b); [lia|done].
Qed.

(** ** Sibling lists under the writes of the trie *)

Lemma chain_mem bs h a :
  fwd bs → a ∈ chain bs h → h ≤ a ∧ a < length bs.
Proof.
  intros Hf.
  destruct (decide (h < length bs)) as [Hlt|Hge];
    [|rewrite chain_outside by lia; by intros ?%elem_of_nil].
  revert h Hlt a.
  apply (chain_ind bs (fun h => ∀ a, a ∈ chain bs h → h ≤ a ∧ a < length bs) Hf).
  intros b d Hb IH a. rewrite (chain_unfold _ _ _ Hf Hb).
  pose proof (lookup_lt_Some _ _ _ Hb).
  intros [->|Ha]%elem_of_cons; [lia|].
  destruct (n_next d =? 0) eqn:Hz; [by apply elem_of_nil in Ha|].
  apply Nat.eqb_neq in Hz.
  destruct (Hf b d Hb) as [[?|?] _]; [done|].
  specialize (IH Hz a Ha). lia.
Qed.

Lemma chain_last bs h t :
  fwd bs → last (chain bs h) = Some t →
  ∃ dt, bs !! t = Some dt ∧ n_next dt = 0.
Proof.
  intros Hf.
  destruct (decide (h < length bs)) as [Hlt|Hge];
    [|rewrite chain_outside by lia; done].
  revert h Hlt t.
  apply (chain_ind bs (fun h => ∀ t, last (chain bs h) = Some t → _) Hf).
  intros b d Hb IH t. rewrite (chain_unfold _ _ _ Hf Hb).
  destruct (n_next d =? 0) eqn:Hz.
  - simpl. intros [= <-]. apply Nat.eqb_eq in Hz. by exists d.
  - apply Nat.eqb_neq in Hz.
    destruct (Hf b d Hb) as [[?|?] _]; [done|].
    destruct (lookup_lt_is_Some_2 bs (n_next d)) as [d' Hd']; [lia|].
    rewrite (chain_unfold _ _ _ Hf Hd'), last_cons_cons.
    rewrite <- (chain_unfold _ _ _ Hf Hd'). by apply IH.
Qed.

Lemma chain_head bs h d :
  fwd bs → bs !! h = Some d → ∃ l, chain bs h = h :: l.
Proof. intros Hf Hh. rewrite (chain_unfold _ _ _ Hf Hh). eauto. Qed.

(** Two stores with the same [next] pointers have the same lists. *)
Lemma chain_same_next bs bs' :
  fwd bs → fwd bs' → length bs ≤ length bs' →
  (∀ b d, bs !! b = Some d → ∃ d', bs' !! b = Some d' ∧ n_next d' = n_next d) →
  ∀ h, h < length bs → chain bs' h = chain bs h.
Proof.
  intros Hf Hf' Hlen Hsame.
  apply (chain_ind bs (fun h => chain bs' h = chain bs h) Hf).
  intros b d Hb IH.
  destruct (Hsame b d Hb) as (d' & Hb' & Hn).
  rewrite (chain_unfold _ _ _ Hf Hb), (chain_unfold _ _ _ Hf' Hb'), Hn.
  destruct (n_next d =? 0) eqn:Hz; [done|].
  apply Nat.eqb_neq in Hz. by rewrite IH.
Qed.

Definition new_sibling (bs : list NodeData) (t : nat) (dt : NodeData) (c : Z)
  : list NodeData :=
  <[t := data_set_next (length bs) dt]>
    (bs ++ [data_set_parent (n_parent dt) (default_data c)]).

Definition new_child (bs : list NodeData) (v : nat) (dv : NodeData) (c : Z)
  : list NodeData :=
  <[v := data_set_child (length bs) dv]>
    (bs ++ [data_set_parent v (default_data c)]).

Lemma new_sibling_length bs t dt c : length (new_sibling bs t dt c) = S (length bs).
Proof. unfold new_sibling. rewrite length_insert, length_app. simpl. lia. Qed.

Lemma new_child_length bs v dv c : length (new_child bs v dv c) = S (length bs).
Proof. unfold new_child. rewrite length_insert, length_app. simpl. lia. Qed.

Lemma new_sibling_lookup bs t dt c b :
  bs !! t = Some dt →
  new_sibling bs t dt c !! b =
  if decide (b = t) then Some (data_set_next (length bs) dt)
  else if decide (b = length bs)
       then Some (data_set_parent (n_parent dt) (default_data c))
       else bs !! b.
Proof.
  intros Ht. pose proof (lookup_lt_Some _ _ _ Ht) as Hlt. unfold new_sibling.
  destruct (decide (b = t)) as [->|Hne].
  - rewrite list_lookup_insert_eq; [done|]. rewrite length_app. simpl. lia.
  - rewrite list_lookup_insert_ne by done.
    destruct (decide (b = length bs)) as [->|Hne2].
    + rewrite lookup_app_r by lia. by rewrite Nat.sub_diag.
    + destruct (decide (b < length bs)).
      * by rewrite lookup_app_l.
      * rewrite !lookup_ge_None_2; [done|lia|rewrite length_app; simpl; lia].
Qed.

Lemma new_child_lookup bs v dv c b :
  bs !! v = Some dv →
  new_child bs v dv c !! b =
  if decide (b = v) then Some (data_set_child (length bs) dv)
  else if decide (b = length bs)
       then Some (data_set_parent v (default_data c))
       else bs !! b.
Proof.
  intros Hv. pose proof (lookup_lt_Some _ _ _ Hv) as Hlt. unfold new_child.
  destruct (decide (b = v)) as [->|Hne].
  - rewrite list_lookup_insert_eq; [done|]. rewrite length_app. simpl. lia.
  - rewrite list_lookup_insert_ne by done.
    destruct (decide (b = length bs)) as [->|Hne2].
    + rewrite lookup_app_r by lia. by rewrite Nat.sub_diag.
    + destruct (decide (b < length bs)).
      * by rewrite lookup_app_l.
      * rewrite !lookup_ge_None_2; [done|lia|rewrite length_app; simpl; lia].
Qed.

Lemma new_sibling_fwd bs t dt c :
  fwd bs → bs !! t = Some dt → fwd (new_sibling bs t dt c).
Proof.
  intros Hf Ht b d. pose proof (lookup_lt_Some _ _ _ Ht) as Hlt.
  rewrite (new_sibling_lookup _ _ _ _ _ Ht), new_sibling_length.
  destruct (Hf t dt Ht) as (Hn & Hc & Hp).
  repeat case_decide; subst.
  - intros [= <-]. unfold block_ok. simpl. split; [right; lia|]. split; [|lia].
    destruct Hc; [by left|right; lia].
  - intros [= <-]. unfold block_ok. simpl. split; [by left|]. split; [by left|lia].
  - intros Hb. destruct (Hf b d Hb) as (Hn' & Hc' & Hp'). unfold block_ok.
    split; [destruct Hn'; [by left|right; lia]|].
    split; [destruct Hc'; [by left|right; lia]|lia].
Qed.

Lemma new_child_fwd bs v dv c :
  fwd bs → bs !! v = Some dv → fwd (new_child bs v dv c).
Proof.
  intros Hf Hv b d. pose proof (lookup_lt_Some _ _ _ Hv) as Hlt.
  rewrite (new_child_lookup _ _ _ _ _ Hv), new_child_length.
  destruct (Hf v dv Hv) as (Hn & Hc & Hp).
  repeat case_decide; subst.
  - intros [= <-]. unfold block_ok. simpl.
    split; [destruct Hn; [by left|right; lia]|]. split; [right; lia|lia].
  - intros [= <-]. unfold block_ok. simpl. split; [by left|]. split; [by left|lia].
  - intros Hb. destruct (Hf b d Hb) as (Hn' & Hc' & Hp'). unfold block_ok.
    split; [destruct Hn'; [by left|right; lia]|].
    split; [destruct Hc'; [by left|right; lia]|lia].
Qed.

Lemma new_child_chain bs v dv c h :
  fwd bs → bs !! v = Some dv → h < length bs →
  chain (new_child bs v dv c) h = chain bs h.
Proof.
  intros Hf Hv Hh. apply chain_same_next; [done|by apply new_child_fwd| |  |done].
  - rewrite new_child_length. lia.
  - intros b d Hb. rewrite (new_child_lookup _ _ _ _ _ Hv).
    pose proof (lookup_lt_Some _ _ _ Hb).
    repeat case_decide; subst; [|lia|by exists d].
    exists (data_set_child (length bs) dv). split; [done|].
    simpl. congruence.
Qed.

Lemma new_child_chain_new bs v dv c :
  fwd bs → bs !! v = Some dv →
  chain (new_child bs v dv c) (length bs) = [length bs].
Proof.
  intros Hf Hv. pose proof (lookup_lt_Some _ _ _ Hv) as Hlt.
  rewrite (chain_unfold _ _ (data_set_parent v (default_data c)));
    [done|by apply new_child_fwd|].
  rewrite (new_child_lookup _ _ _ _ _ Hv).
  repeat case_decide; [lia|done|done].
Qed.

Lemma new_sibling_chain bs t dt c h :
  fwd bs → bs !! t = Some dt → n_next dt = 0 → h < length bs →
  chain (new_sibling bs t dt c) h =
  if decide (t ∈ chain bs h) then chain bs h ++ [length bs] else chain bs h.
Proof.
  intros Hf Ht Hz. pose proof (lookup_lt_Some _ _ _ Ht) as Hlt.
  pose proof (new_sibling_fwd _ _ _ c Hf Ht) as Hf'.
  assert (chain (new_sibling bs t dt c) (length bs) = [length bs]) as Hnew.
  { rewrite (chain_unfold _ _ (data_set_parent (n_parent dt) (default_data c)));
      [done|done|].
    rewrite (new_sibling_lookup _ _ _ _ _ Ht). repeat case_decide; [lia|done|done]. }
  revert h.
  apply (chain_ind bs (fun h => chain (new_sibling bs t dt c) h =
    if decide (t ∈ chain bs h) then chain bs h ++ [length bs] else chain bs h) Hf).
  intros b d Hb IH. pose proof (lookup_lt_Some _ _ _ Hb) as Hblt.
  rewrite (chain_unfold _ _ _ Hf Hb).
  destruct (decide (b = t)) as [->|Hne].
  - assert (d = dt) as -> by congruence.
    rewrite Hz. simpl.
    rewrite (chain_unfold _ _ (data_set_next (length bs) dt)); [|done|].
    2:{ rewrite (new_sibling_lookup _ _ _ _ _ Ht). by rewrite decide_True. }
    simpl. destruct (length bs =? 0) eqn:E; [apply Nat.eqb_eq in E; lia|].
    rewrite Hnew. rewrite decide_True by (apply elem_of_cons; by left). done.
  - rewrite (chain_unfold _ _ d); [|done|].
    2:{ rewrite (new_sibling_lookup _ _ _ _ _ Ht).
        rewrite decide_False by done. rewrite decide_False by lia. done. }
    destruct (n_next d =? 0) eqn:Hnz.
    + rewrite decide_False; [done|].
      intros [?|?%elem_of_nil]%elem_of_cons; done.
    + apply Nat.eqb_neq in Hnz. rewrite (IH Hnz).
      destruct (decide (t ∈ chain bs (n_next d))) as [Hin|Hnin].
      * rewrite decide_True by (apply elem_of_cons; by right). done.
      * rewrite decide_False; [done|].
        intros [?|?]%elem_of_cons; done.
Qed.

(** ** The sibling list of a parent *)

(** The first child of block [p]; the children of block 0, the null
    parent, are the top-level nodes, and the first of them is the root. *)
Definition head_of (bs : list NodeData) (p : nat) : nat :=
  if p =? 0 then LRU_TRIE_NODE_HEADER_BLOCKS
  else match bs !! p with
       | Some d => n_child d
       | None => 0
       end.

Definition siblings (bs : list NodeData) (p : nat) : list nat :=
  let h := head_of bs p in
  if h =? 0 then [] else chain bs h.

(** The invariant of the trie: the pointers are well formed, the members
    of the sibling list of [p] record [p] as their parent, and no two
    siblings carry the same character. *)
Record tree (bs : list NodeData) : Prop := mkTree {
  tree_len : 1 ≤ length bs;
  tree_fwd : fwd bs;
  tree_parent : ∀ p a, a ∈ siblings bs p →
                       ∃ da, bs !! a = Some da ∧ n_parent da = p;
  tree_chars : ∀ p, NoDup (char_at bs <$> siblings bs p)
}.

(** ** The writes of the trie *)

(** The four ways the trie changes its store: the root is appended to an
    empty trie; a sibling is appended and the last node of a sibling list
    that does not carry its character is linked to it; a child is appended
    and a childless node is linked to it; a node is rewritten with flags
    set or a webentity id. *)
Inductive step : Storage → Storage → Prop :=
| step_root st d :
    length (blocks st) = LRU_TRIE_NODE_HEADER_BLOCKS →
    n_next d = 0 → n_child d = 0 → n_parent d = 0 → rule_bit d = false →
    step st {| blocks := blocks st ++ [d];
               journal := journal st ++ [(length (blocks st), d)] |}
| step_sibling st p t dt c :
    last (siblings (blocks st) p) = Some t →
    blocks st !! t = Some dt →
    find_sibling (blocks st) c (siblings (blocks st) p) = None →
    step st {| blocks := new_sibling (blocks st) t dt c;
               journal := journal st ++
                 [(length (blocks st),
                   data_set_parent (n_parent dt) (default_data c));
                  (t, data_set_next (length (blocks st)) dt)] |}
| step_child st v dv c :
    0 < v → blocks st !! v = Some dv → n_child dv = 0 →
    step st {| blocks := new_child (blocks st) v dv c;
               journal := journal st ++
                 [(length (blocks st), data_set_parent v (default_data c));
                  (v, data_set_child (length (blocks st)) dv)] |}
| step_flags st b d d' :
    blocks st !! b = Some d →
    n_char d' = n_char d → n_next d' = n_next d → n_child d' = n_child d →
    n_parent d' = n_parent d → rule_bit d' = rule_bit d →
    (web_bit d = true → web_bit d' = true) →
    (page_bit d = true → page_bit d' = true) →
    step st {| blocks := <[b := d']> (blocks st);
               journal := journal st ++ [(b, d')] |}.

Definition steps : Storage → Storage → Prop := rtc step.

Lemma siblings_last_next bs p t :
  fwd bs → last (siblings bs p) = Some t →
  ∃ dt, bs !! t = Some dt ∧ n_next dt = 0.
Proof.
  intros Hf. unfold siblings. destruct (head_of bs p =? 0); [done|].
  by apply chain_last.
Qed.

Lemma step_wf st st' : wf st → step st st' → wf st'.
Proof.
  intros [Hlen Hf] Hs. destruct Hs as
    [st d Hl Hn Hc Hp Hr|st p t dt c Hlast Ht Hfind|st v dv c Hv0 Hv Hz
    |st b d d' Hb Hc Hn Hch Hp Hr Hw Hg]; split; simpl.
  - rewrite length_app. simpl. lia.
  - intros b x Hb. rewrite length_app. simpl.
    destruct (decide (b < length (blocks st))) as [Hlt|Hge].
    + rewrite lookup_app_l in Hb by done.
      destruct (Hf b x Hb) as (H1 & H2 & H3). unfold block_ok.
      split; [destruct H1; [by left|right; lia]|].
      split; [destruct H2; [by left|right; lia]|lia].
    + rewrite lookup_app_r in Hb by lia.
      destruct (b - length (blocks st)) eqn:E; [|done].
      simpl in Hb. inversion Hb; subst. unfold block_ok.
      split; [by left|]. split; [by left|]. lia.
  - rewrite new_sibling_length. lia.
  - by apply new_sibling_fwd.
  - rewrite new_child_length. lia.
  - by apply new_child_fwd.
  - rewrite length_insert. lia.
  - intros b' x Hb'. rewrite length_insert.
    pose proof (lookup_lt_Some _ _ _ Hb) as Hlt.
    destruct (decide (b' = b)) as [->|Hne].
    + rewrite list_lookup_insert_eq in Hb' by done. inversion Hb'; subst.
      destruct (Hf b d Hb) as (H1 & H2 & H3). unfold block_ok.
      rewrite Hn, Hch, Hp. done.
    + rewrite list_lookup_insert_ne in Hb' by done. by apply Hf.
Qed.

Lemma steps_wf st st' : wf st → steps st st' → wf st'.
Proof. intros Hw Hs. induction Hs; [done|]. eauto using step_wf. Qed.

Lemma step_ext st st' : wf st → step st st' → ext (blocks st) (blocks st').
Proof.
  intros [Hlen Hf] Hs. destruct Hs as
    [st d Hl Hn Hc Hp Hr|st p t dt c Hlast Ht Hfind|st v dv c Hv0 Hv Hz
    |st b d d' Hb Hc Hn Hch Hp Hr Hw Hg]; simpl.
  - split.
    + rewrite length_app. lia.
    + intros b x Hb. exists x. rewrite lookup_app_l by (by eapply lookup_lt_Some).
      done.
    + intros b x Hge Hb. rewrite lookup_app_r in Hb by done.
      destruct (b - length (blocks st)); [|done]. simpl in Hb. congruence.
  - destruct (siblings_last_next _ _ _ Hf Hlast) as (dt' & Ht' & Hnz).
    assert (dt' = dt) as -> by congruence.
    split.
    + rewrite new_sibling_length. lia.
    + intros b x Hb. pose proof (lookup_lt_Some _ _ _ Hb).
      rewrite (new_sibling_lookup _ _ _ _ _ Ht).
      repeat case_decide; subst; [|lia|by exists x].
      assert (x = dt) as -> by congruence.
      eexists. split; [done|]. simpl. done.
    + intros b x Hge. rewrite (new_sibling_lookup _ _ _ _ _ Ht).
      pose proof (lookup_lt_Some _ _ _ Ht).
      repeat case_decide; subst; [lia| |].
      * intros [= <-]. done.
      * intros Hb. apply lookup_lt_Some in Hb. lia.
  - split.
    + rewrite new_child_length. lia.
    + intros b x Hb. pose proof (lookup_lt_Some _ _ _ Hb).
      rewrite (new_child_lookup _ _ _ _ _ Hv).
      repeat case_decide; subst; [|lia|by exists x].
      assert (x = dv) as -> by congruence.
      eexists. split; [done|]. simpl. done.
    + intros b x Hge. rewrite (new_child_lookup _ _ _ _ _ Hv).
      pose proof (lookup_lt_Some _ _ _ Hv).
      repeat case_decide; subst; [lia| |].
      * intros [= <-]. done.
      * intros Hb'. apply lookup_lt_Some in Hb'. lia.
  - pose proof (lookup_lt_Some _ _ _ Hb) as Hlt. split.
    + rewrite length_insert. lia.
    + intros b' x Hb'. destruct (decide (b' = b)) as [->|Hne].
      * assert (x = d) as -> by congruence.
        exists d'. rewrite list_lookup_insert_eq by done.
        split; [done|]. rewrite Hn, Hch. done.
      * exists x. rewrite list_lookup_insert_ne by done. done.
    + intros b' x Hge Hb'. apply lookup_lt_Some in Hb'.
      rewrite length_insert in Hb'. lia.
Qed.

Lemma steps_ext st st' : wf st → steps st st' → ext (blocks st) (blocks st').
Proof.
  intros Hw Hs. induction Hs as [|st st1 st2 H1 H2 IH]; [apply ext_refl|].
  eapply ext_trans; [by apply step_ext|]. apply IH. by eapply step_wf.
Qed.

Lemma find_sibling_None bs c l :
  find_sibling bs c l = None → c ∉ char_at bs <$> l.
Proof.
  induction l as [|v l IH]; [intros _ ?%elem_of_nil; done|].
  rewrite find_sibling_cons, fmap_cons.
  destruct (char_at bs v =? c)%Z eqn:E; [done|].
  apply Z.eqb_neq in E. intros Hn [?|?]%elem_of_cons; [done|by apply IH].
Qed.

Lemma find_sibling_Some bs c l v :
  find_sibling bs c l = Some v → v ∈ l ∧ char_at bs v = c.
Proof.
  induction l as [|a l IH]; [done|]. rewrite find_sibling_cons.
  destruct (char_at bs a =? c)%Z eqn:E.
  - intros [= <-]. apply Z.eqb_eq in E. split; [by left|done].
  - intros H. destruct (IH H). split; [by right|done].
Qed.

Lemma head_of_lt bs q :
  fwd bs → q ≠ 0 → head_of bs q ≠ 0 → head_of bs q < length bs.
Proof.
  intros Hf Hq. unfold head_of. destruct (q =? 0) eqn:E;
    [apply Nat.eqb_eq in E; done|].
  destruct (bs !! q) as [d|] eqn:Hd; [|done].
  destruct (Hf q d Hd) as (_ & [?|?] & _); [done|lia].
Qed.

Lemma siblings_mem bs p a :
  fwd bs → a ∈ siblings bs p → 0 < a < length bs.
Proof.
  intros Hf. unfold siblings.
  destruct (head_of bs p =? 0) eqn:E; [by intros ?%elem_of_nil|].
  apply Nat.eqb_neq in E. intros Ha.
  destruct (chain_mem _ _ _ Hf Ha). lia.
Qed.

Lemma last_elem_of {A} (l : list A) x : last l = Some x → x ∈ l.
Proof.
  intros H. apply last_Some in H as [l' ->].
  apply elem_of_app. right. by left.
Qed.

Lemma step_tree st st' : tree (blocks st) → step st st' → tree (blocks st').
Proof.
  intros Ht Hs.
  assert (wf st) as Hw by (split; apply Ht).
  destruct (step_wf _ _ Hw Hs) as [Hlen' Hf'].
  destruct Ht as [Hlen Hf HM HU].
  destruct Hs as
    [st d Hl Hn Hc Hp Hr|st p t dt c Hlast Ht Hfind|st v dv c Hv0 Hv Hz
    |st b d d' Hb Hc Hn Hch Hp Hr Hwb Hg]; simpl in *.
  - (* the root *)
    assert (∀ q, siblings (blocks st ++ [d]) q = if q =? 0 then [1] else []) as Hsib.
    { intros q. unfold siblings, head_of.
      change LRU_TRIE_NODE_HEADER_BLOCKS with 1 in *.
      destruct (q =? 0) eqn:E.
      - simpl. rewrite (chain_unfold _ _ d); [by rewrite Hn|done|].
        rewrite lookup_app_r by lia. by rewrite Hl.
      - apply Nat.eqb_neq in E.
        destruct (decide (q = 1)) as [->|Hne].
        + rewrite lookup_app_r by lia. rewrite Hl. simpl. by rewrite Hc.
        + rewrite lookup_ge_None_2; [done|]. rewrite length_app. simpl. lia. }
    split; [done|done| |].
    + intros q a. rewrite Hsib. destruct (q =? 0) eqn:E;
        [|by intros ?%elem_of_nil].
      apply Nat.eqb_eq in E. subst. intros ->%list_elem_of_singleton.
      exists d. rewrite lookup_app_r by (change LRU_TRIE_NODE_HEADER_BLOCKS with 1 in *; lia).
      change LRU_TRIE_NODE_HEADER_BLOCKS with 1 in *. rewrite Hl. done.
    + intros q. rewrite Hsib. destruct (q =? 0); simpl.
      * apply NoDup_singleton.
      * apply NoDup_nil_2.
  - (* a sibling *)
    destruct (siblings_last_next _ _ _ Hf Hlast) as (dt' & Ht' & Hnz).
    assert (dt' = dt) as -> by congruence.
    pose proof (last_elem_of _ _ Hlast) as Htin.
    destruct (siblings_mem _ _ _ Hf Htin) as [Ht0 Htlt].
    destruct (HM p t Htin) as (dt' & Ht'' & Hpt).
    assert (dt' = dt) as -> by congruence.
    assert (∀ q, head_of (new_sibling (blocks st) t dt c) q = head_of (blocks st) q)
      as Hhead.
    { intros q. unfold head_of. destruct (q =? 0); [done|].
      rewrite (new_sibling_lookup _ _ _ _ _ Ht).
      repeat case_decide; subst; [by rewrite Ht| |done].
      rewrite lookup_ge_None_2 by lia. done. }
    assert (head_of (blocks st) p ≠ 0
            ∧ siblings (blocks st) p = chain (blocks st) (head_of (blocks st) p))
      as [Hhp Hsp].
    { unfold siblings in *. destruct (head_of (blocks st) p =? 0) eqn:E.
      - by apply elem_of_nil in Htin.
      - by apply Nat.eqb_neq in E. }
    assert (∀ q, head_of (blocks st) q ≠ 0 →
                 head_of (blocks st) q < length (blocks st)) as Hhlt.
    { intros q Hq. destruct (decide (q = 0)) as [->|Hq0]; [|by apply head_of_lt].
      unfold head_of. simpl. change LRU_TRIE_NODE_HEADER_BLOCKS with 1. lia. }
    assert (∀ q, siblings (new_sibling (blocks st) t dt c) q =
                 if decide (q = p) then siblings (blocks st) p ++ [length (blocks st)]
                 else siblings (blocks st) q) as Hsib.
    { intros q. destruct (decide (q = p)) as [->|Hne].
      - rewrite Hsp. unfold siblings. rewrite Hhead.
        rewrite (proj2 (Nat.eqb_neq _ _) Hhp).
        rewrite (new_sibling_chain _ _ _ _ _ Hf Ht Hnz (Hhlt _ Hhp)).
        rewrite decide_True; [done|]. by rewrite <- Hsp.
      - unfold siblings. rewrite Hhead.
        destruct (head_of (blocks st) q =? 0) eqn:E; [done|].
        apply Nat.eqb_neq in E.
        rewrite (new_sibling_chain _ _ _ _ _ Hf Ht Hnz (Hhlt _ E)).
        rewrite decide_False; [done|]. intros Hin.
        assert (t ∈ siblings (blocks st) q) as Hin'.
        { unfold siblings. by rewrite (proj2 (Nat.eqb_neq _ _) E). }
        destruct (HM q t Hin') as (dt' & Ht3 & Hpq). congruence. }
    assert (∀ a, a < length (blocks st) →
              char_at (new_sibling (blocks st) t dt c) a = char_at (blocks st) a)
      as Hchar.
    { intros a Ha. unfold char_at. rewrite (new_sibling_lookup _ _ _ _ _ Ht).
      repeat case_decide; subst; [by rewrite Ht|lia|done]. }
    assert (∀ q, char_at (new_sibling (blocks st) t dt c) <$> siblings (blocks st) q
                 = char_at (blocks st) <$> siblings (blocks st) q) as Hchars.
    { intros q. apply list_fmap_ext. intros i a Hia. apply Hchar.
      apply list_elem_of_lookup_2 in Hia. by apply (siblings_mem _ q). }
    split; [done|done| |].
    + intros q a. rewrite Hsib. destruct (decide (q = p)) as [->|Hq].
      * intros [Ha| ->%list_elem_of_singleton]%elem_of_app.
        -- destruct (HM p a Ha) as (da & Hda & Hpa).
           rewrite (new_sibling_lookup _ _ _ _ _ Ht).
           pose proof (lookup_lt_Some _ _ _ Hda).
           repeat case_decide; subst; [|lia|by exists da].
           eexists. split; [done|]. simpl. congruence.
        -- rewrite (new_sibling_lookup _ _ _ _ _ Ht).
           repeat case_decide; [lia| |done]. eexists. split; [done|]. done.
      * intros Ha. destruct (HM q a Ha) as (da & Hda & Hpa).
        rewrite (new_sibling_lookup _ _ _ _ _ Ht).
        pose proof (lookup_lt_Some _ _ _ Hda).
        repeat case_decide; subst; [|lia|by exists da].
        eexists. split; [done|]. simpl. congruence.
    + intros q. rewrite Hsib.
      destruct (decide (q = p)) as [->|Hq]; [|rewrite Hchars; apply HU].
      rewrite fmap_app, Hchars. apply NoDup_app.
      split; [apply HU|]. split; [|apply NoDup_singleton].
      intros x Hx ->%list_elem_of_singleton.
      apply (find_sibling_None _ _ _ Hfind).
      replace c with (char_at (new_sibling (blocks st) t dt c) (length (blocks st)));
        [done|].
      unfold char_at. rewrite (new_sibling_lookup _ _ _ _ _ Ht).
      repeat case_decide; [lia|done|done].
  - (* a child *)
    pose proof (lookup_lt_Some _ _ _ Hv) as Hvlt.
    assert (∀ q, q ≠ v →
              head_of (new_child (blocks st) v dv c) q = head_of (blocks st) q)
      as Hhead.
    { intros q Hq. unfold head_of. destruct (q =? 0); [done|].
      rewrite (new_child_lookup _ _ _ _ _ Hv).
      repeat case_decide; subst; [done| |done].
      rewrite lookup_ge_None_2 by lia. done. }
    assert (siblings (new_child (blocks st) v dv c) v = [length (blocks st)])
      as Hsibv.
    { unfold siblings, head_of. destruct (v =? 0) eqn:E;
        [apply Nat.eqb_eq in E; lia|].
      rewrite (new_child_lookup _ _ _ _ _ Hv), decide_True by done. simpl.
      destruct (length (blocks st) =? 0) eqn:E'; [apply Nat.eqb_eq in E'; lia|].
      by apply new_child_chain_new. }
    assert (∀ q, q ≠ v →
              siblings (new_child (blocks st) v dv c) q = siblings (blocks st) q)
      as Hsib.
    { intros q Hq. unfold siblings. rewrite Hhead by done.
      destruct (head_of (blocks st) q =? 0) eqn:E; [done|].
      apply Nat.eqb_neq in E. apply new_child_chain; [done|done|].
      destruct (decide (q = 0)) as [->|Hq0]; [|by apply head_of_lt].
      unfold head_of. simpl. change LRU_TRIE_NODE_HEADER_BLOCKS with 1. lia. }
    assert (∀ a, a < length (blocks st) →
              char_at (new_child (blocks st) v dv c) a = char_at (blocks st) a)
      as Hchar.
    { intros a Ha. unfold char_at. rewrite (new_child_lookup _ _ _ _ _ Hv).
      repeat case_decide; subst; [by rewrite Hv|lia|done]. }
    split; [done|done| |].
    + intros q a. destruct (decide (q = v)) as [->|Hq].
      * rewrite Hsibv. intros ->%list_elem_of_singleton.
        rewrite (new_child_lookup _ _ _ _ _ Hv).
        repeat case_decide; [lia| |done]. eexists. split; [done|]. done.
      * rewrite Hsib by done. intros Ha.
        destruct (HM q a Ha) as (da & Hda & Hpa).
        rewrite (new_child_lookup _ _ _ _ _ Hv).
        pose proof (lookup_lt_Some _ _ _ Hda).
        repeat case_decide; subst; [|lia|by exists da].
        eexists. split; [done|]. simpl. congruence.
    + intros q. destruct (decide (q = v)) as [->|Hq].
      * rewrite Hsibv. apply NoDup_singleton.
      * rewrite Hsib by done.
        replace (char_at (new_child (blocks st) v dv c) <$> siblings (blocks st) q)
          with (char_at (blocks st) <$> siblings (blocks st) q); [apply HU|].
        apply list_fmap_ext. intros i a Hia. symmetry. apply Hchar.
        apply list_elem_of_lookup_2 in Hia. by apply (siblings_mem _ q).
  - (* flags *)
    pose proof (lookup_lt_Some _ _ _ Hb) as Hblt.
    assert (∀ q, head_of (<[b := d']> (blocks st)) q = head_of (blocks st) q)
      as Hhead.
    { intros q. unfold head_of. destruct (q =? 0); [done|].
      destruct (decide (q = b)) as [->|Hne].
      - rewrite list_lookup_insert_eq by done. by rewrite Hb, Hch.
      - by rewrite list_lookup_insert_ne by done. }
    assert (∀ q, siblings (<[b := d']> (blocks st)) q = siblings (blocks st) q)
      as Hsib.
    { intros q. unfold siblings. rewrite Hhead.
      destruct (head_of (blocks st) q =? 0) eqn:E; [done|].
      apply Nat.eqb_neq in E.
      destruct (decide (head_of (blocks st) q < length (blocks st))) as [Hlt|Hge].
      - apply chain_same_next; [done|done|by rewrite length_insert| |done].
        intros a da Ha. destruct (decide (a = b)) as [->|Hne].
        + exists d'. rewrite list_lookup_insert_eq by done.
          split; [done|]. congruence.
        + exists da. by rewrite list_lookup_insert_ne by done.
      - rewrite !chain_outside; [done|lia|rewrite length_insert; lia]. }
    assert (∀ a, char_at (<[b := d']> (blocks st)) a = char_at (blocks st) a)
      as Hchar.
    { intros a. unfold char_at. destruct (decide (a = b)) as [->|Hne].
      - rewrite list_lookup_insert_eq by done. by rewrite Hb.
      - by rewrite list_lookup_insert_ne by done. }
    split; [done|done| |].
    + intros q a. rewrite Hsib. intros Ha.
      destruct (HM q a Ha) as (da & Hda & Hpa).
      destruct (decide (a = b)) as [->|Hne].
      * exists d'. rewrite list_lookup_insert_eq by done.
        split; [done|]. congruence.
      * exists da. by rewrite list_lookup_insert_ne by done.
    + intros q. rewrite Hsib.
      replace (char_at (<[b := d']> (blocks st)) <$> siblings (blocks st) q)
        with (char_at (blocks st) <$> siblings (blocks st) q); [apply HU|].
      apply list_fmap_ext. intros i a Hia. by rewrite Hchar.
Qed.

Lemma steps_tree st st' : tree (blocks st) → steps st st' → tree (blocks st').
Proof. intros Ht Hs. induction Hs; [done|]. eauto using step_tree. Qed.

(** ** The path of an LRU *)

(** What the walk records at a node met at index [i]: the two updates of
    the history in the first loop of [add_lru]. *)
Definition observe (lru : string) (i : nat) (d : NodeData)
    (history : LRUTrieWalkHistory) : LRUTrieWalkHistory :=
  let history :=
    if web_bit d
    then update_webentity (n_webentity d) (String.substring 0 i lru) i history
    else history in
  if rule_bit d
  then update_webentity_creation_rule (String.substring 0 (S i) lru) i history
  else history.

(** The nodes of an LRU that is in the trie: from the head [b] of a sibling
    list, the sibling carrying the first character, then down its children
    with the characters left. The result is the last node and the history of
    the walk. *)
Fixpoint pwalk (bs : list NodeData) (lru rest : string) (i b : nat)
    (history : LRUTrieWalkHistory) : option (nat * NodeData * LRUTrieWalkHistory) :=
  match rest with
  | EmptyString => None
  | String c rest' =>
      match find_sibling bs (ord c) (chain bs b) with
      | None => None
      | Some v =>
          match bs !! v with
          | None => None
          | Some dv =>
              let history := observe lru i dv history in
              match rest' with
              | EmptyString => Some (v, dv, history)
              | String _ _ =>
                  if n_child dv =? 0 then None
                  else pwalk bs lru rest' (S i) (n_child dv) history
              end
          end
      end
  end.

Definition pwalk_below (bs : list NodeData) (lru rest : string) (i v : nat)
    (dv : NodeData) (history : LRUTrieWalkHistory)
  : option (nat * NodeData * LRUTrieWalkHistory) :=
  match rest with
  | EmptyString => Some (v, dv, history)
  | String _ _ =>
      if n_child dv =? 0 then None
      else pwalk bs lru rest i (n_child dv) history
  end.

Lemma pwalk_cons bs lru c rest i b history :
  pwalk bs lru (String c rest) i b history =
  match find_sibling bs (ord c) (chain bs b) with
  | None => None
  | Some v =>
      match bs !! v with
      | None => None
      | Some dv => pwalk_below bs lru rest (S i) v dv (observe lru i dv history)
      end
  end.
Proof. by destruct rest. Qed.

(** The history of a walk and that of a later walk of the same LRU: the
    same rules; the webentity met is at least as deep. *)
Definition hist_le (i : nat) (h h2 : LRUTrieWalkHistory) : Prop :=
  rule_prefixes h2 = rule_prefixes h
  ∧ (webentity_position h <= webentity_position h2)%Z
  ∧ (webentity_position h2 < Z.of_nat i)%Z.

Lemma hist_le_mono i j h h2 : i ≤ j → hist_le i h h2 → hist_le j h h2.
Proof. intros Hij (H1 & H2 & H3). split; [done|]. split; [done|lia]. Qed.

Lemma observe_le lru i d d1 h h2 :
  hist_le i h h2 → rule_bit d1 = rule_bit d →
  (web_bit d = true → web_bit d1 = true) →
  hist_le (S i) (observe lru i d h) (observe lru i d1 h2).
Proof.
  intros (Hr & Hp1 & Hp2) Hrule Hweb. unfold observe. rewrite Hrule.
  assert (hist_le (S i)
    (if web_bit d
     then update_webentity (n_webentity d) (String.substring 0 i lru) i h else h)
    (if web_bit d1
     then update_webentity (n_webentity d1) (String.substring 0 i lru) i h2 else h2))
    as (Hr' & Hp1' & Hp2').
  { destruct (web_bit d) eqn:E.
    - rewrite Hweb by done. unfold hist_le. simpl. split; [done|lia].
    - destruct (web_bit d1); unfold hist_le; simpl; (split; [done|lia]). }
  destruct (rule_bit d); [|done].
  unfold hist_le. simpl. by rewrite Hr'.
Qed.

Lemma find_sibling_ext bs bs1 c h v :
  ext bs bs1 → fwd bs → fwd bs1 →
  find_sibling bs c (chain bs h) = Some v →
  find_sibling bs1 c (chain bs1 h) = Some v.
Proof.
  intros He Hf Hf1.
  destruct (decide (h < length bs)) as [Hlt|Hge];
    [|rewrite chain_outside by lia; done].
  revert h Hlt.
  apply (chain_ind bs (fun h => find_sibling bs c (chain bs h) = Some v →
                                find_sibling bs1 c (chain bs1 h) = Some v) Hf).
  intros b d Hb IH.
  destruct (ext_old _ _ He b d Hb) as (d1 & Hb1 & Hc & _ & Hn & _).
  rewrite (chain_unfold _ _ _ Hf Hb), (chain_unfold _ _ _ Hf1 Hb1).
  rewrite !find_sibling_cons, (char_at_lookup _ _ _ Hb), (char_at_lookup _ _ _ Hb1), Hc.
  destruct (n_char d =? c)%Z; [done|].
  destruct (n_next d =? 0) eqn:Hz; [done|].
  apply Nat.eqb_neq in Hz. rewrite (Hn Hz).
  rewrite (proj2 (Nat.eqb_neq _ _) Hz). by apply IH.
Qed.

(** ** What the loops of [add_lru] do *)

Arguments scan_fuel : simpl never.

Lemma node_of_block_handle st b d :
  blocks st !! b = Some d → node_of_block st b = handle b d.
Proof. intros H. unfold node_of_block. by apply read_handle. Qed.

Lemma node_of_block_missing st b :
  length (blocks st) ≤ b →
  node_of_block st b =
  {| block := None; node_exists := false; data := default_data 0%Z |}.
Proof.
  intros H. unfold node_of_block, read, storage_read.
  by rewrite lookup_ge_None_2.
Qed.

Lemma head_of_root bs : head_of bs 0 = LRU_TRIE_NODE_HEADER_BLOCKS.
Proof. done. Qed.

Lemma head_missing st p :
  wf st → head_of (blocks st) p ≠ 0 →
  length (blocks st) ≤ head_of (blocks st) p →
  p = 0 ∧ length (blocks st) = LRU_TRIE_NODE_HEADER_BLOCKS.
Proof.
  intros [Hlen Hf] Hnz Hge.
  destruct (decide (p = 0)) as [->|Hp].
  - split; [done|]. rewrite head_of_root in Hge.
    change LRU_TRIE_NODE_HEADER_BLOCKS with 1 in *. lia.
  - pose proof (head_of_lt _ _ Hf Hp Hnz). lia.
Qed.

Lemma ensure_char_spec st p c :
  wf st → head_of (blocks st) p ≠ 0 →
  ∃ v dv st',
    ensure_char_from_siblings st (node_of_block st (head_of (blocks st) p)) c
      = Ok (handle v dv, st')
    ∧ steps st st'
    ∧ blocks st' !! v = Some dv ∧ 0 < v
    ∧ head_of (blocks st') p = head_of (blocks st) p
    ∧ find_sibling (blocks st') c (chain (blocks st') (head_of (blocks st) p))
      = Some v
    ∧ ((st' = st ∧ find_sibling (blocks st) c (siblings (blocks st) p) = Some v)
       ∨ (find_sibling (blocks st) c (siblings (blocks st) p) = None
          ∧ v = length (blocks st)
          ∧ siblings (blocks st') p
            = siblings (blocks st) p ++ [length (blocks st)])).
Proof.
  intros Hw Hnz. pose proof Hw as [Hlen Hf].
  set (b := head_of (blocks st) p) in *.
  destruct (decide (b < length (blocks st))) as [Hlt|Hge].
  - destruct (lookup_lt_is_Some_2 _ _ Hlt) as [d Hd].
    rewrite (node_of_block_handle _ _ _ Hd).
    unfold ensure_char_from_siblings. cbn [node_exists handle negb].
    pose proof (follow_siblings_spec st c Hf b Hlt d (scan_fuel st) Hd
                  ltac:(unfold scan_fuel; lia)) as Hscan.
    assert (siblings (blocks st) p = chain (blocks st) b) as Hsib.
    { unfold siblings. fold b. by rewrite (proj2 (Nat.eqb_neq _ _) Hnz). }
    destruct (find_sibling (blocks st) c (chain (blocks st) b)) as [v|] eqn:Hfind.
    + destruct Hscan as (dv & Hv & Hc & ->). simpl.
      exists v, dv, st. split; [done|]. split; [apply rtc_refl|].
      split; [done|]. split.
      { apply find_sibling_Some in Hfind as [Hin _].
        destruct (chain_mem _ _ _ Hf Hin). lia. }
      split; [done|]. split; [done|]. left. by rewrite Hsib.
    + destruct Hscan as (t & dt & Hlast & Ht & Hz & ->). simpl.
      unfold write. simpl.
      set (dnew := data_set_parent (n_parent dt) (default_data c)).
      set (st' := {| blocks := new_sibling (blocks st) t dt c;
                     journal := journal st ++
                       [(length (blocks st), dnew);
                        (t, data_set_next (length (blocks st)) dt)] |}).
      exists (length (blocks st)), dnew, st'.
      assert (step st st') as Hstep.
      { apply (step_sibling st p t dt c); [by rewrite Hsib|done|by rewrite Hsib]. }
      split.
      { unfold st', new_sibling. by rewrite <- app_assoc. }
      split; [by apply rtc_once|].
      split.
      { simpl. rewrite (new_sibling_lookup _ _ _ _ _ Ht).
        pose proof (lookup_lt_Some _ _ _ Ht).
        repeat case_decide; [lia|done|done]. }
      split; [lia|].
      assert (head_of (blocks st') p = b) as Hhead'.
      { simpl. unfold b, head_of. destruct (p =? 0); [done|].
        rewrite (new_sibling_lookup _ _ _ _ _ Ht).
        pose proof (lookup_lt_Some _ _ _ Ht).
        repeat case_decide; subst; [by rewrite Ht| |done].
        by rewrite lookup_ge_None_2 by lia. }
      split; [done|].
      assert (chain (blocks st') b = chain (blocks st) b ++ [length (blocks st)])
        as Hchain'.
      { simpl. rewrite (new_sibling_chain _ _ _ _ _ Hf Ht Hz Hlt).
        by rewrite decide_True by (by apply last_elem_of). }
      split; [|right; split; [by rewrite Hsib|]; split; [done|];
               unfold siblings at 1; rewrite Hhead', Hsib, Hchain';
               by rewrite (proj2 (Nat.eqb_neq _ _) Hnz)].
      rewrite Hchain'. simpl.
      assert (∀ l, (∀ a, a ∈ l → a < length (blocks st)) →
                find_sibling (blocks st) c l = None →
                find_sibling (new_sibling (blocks st) t dt c) c
                  (l ++ [length (blocks st)]) = Some (length (blocks st))) as Hgen.
      { induction l as [|a l IH]; intros Hall Hnone.
        - simpl. unfold find_sibling. simpl. unfold char_at.
          rewrite (new_sibling_lookup _ _ _ _ _ Ht).
          pose proof (lookup_lt_Some _ _ _ Ht).
          repeat case_decide; [lia| |done]. simpl. by rewrite Z.eqb_refl.
        - rewrite find_sibling_cons in Hnone.
          rewrite <- app_comm_cons, find_sibling_cons.
          assert (char_at (new_sibling (blocks st) t dt c) a = char_at (blocks st) a)
            as ->.
          { unfold char_at. rewrite (new_sibling_lookup _ _ _ _ _ Ht).
            pose proof (Hall a ltac:(by left)).
            repeat case_decide; subst; [by rewrite Ht|lia|done]. }
          destruct (char_at (blocks st) a =? c)%Z; [done|].
          apply IH; [|done]. intros a' Ha'. apply Hall. by right. }
      apply Hgen; [|done]. intros a Ha. by destruct (chain_mem _ _ _ Hf Ha).
  - destruct (head_missing st p Hw Hnz ltac:(fold b; lia)) as [-> Hl].
    rewrite node_of_block_missing by lia.
    unfold ensure_char_from_siblings. simpl. unfold write. simpl.
    exists (length (blocks st)), (default_data c).
    eexists. split; [done|].
    assert (b = 1) as Hb1 by done.
    change LRU_TRIE_NODE_HEADER_BLOCKS with 1 in Hl.
    split; [apply rtc_once; by apply (step_root st (default_data c))|].
    simpl. split; [rewrite lookup_app_r by lia; by rewrite Nat.sub_diag|].
    split; [lia|]. split; [done|].
    assert (fwd (blocks st ++ [default_data c])) as Hf'.
    { apply (step_wf st _ Hw (step_root st (default_data c) Hl eq_refl eq_refl
                                eq_refl eq_refl)). }
    assert (chain (blocks st ++ [default_data c]) 1 = [1]) as Hchain'.
    { rewrite (chain_unfold _ _ (default_data c)); [done|done|].
      rewrite lookup_app_r by lia. by rewrite Hl. }
    rewrite Hb1. split.
    + change (data_set_char c (default_data 0)) with (default_data c).
      rewrite Hchain', find_sibling_cons. unfold char_at.
      rewrite lookup_app_r by lia. rewrite Hl. simpl.
      by rewrite Z.eqb_refl.
    + right.
      assert (siblings (blocks st) 0 = []) as ->.
      { unfold siblings. rewrite head_of_root. simpl.
        apply chain_outside. change LRU_TRIE_NODE_HEADER_BLOCKS with 1. lia. }
      split; [done|]. split; [done|].
      change (data_set_char c (default_data 0)) with (default_data c).
      unfold siblings. rewrite head_of_root. simpl.
      change LRU_TRIE_NODE_HEADER_BLOCKS with 1. by rewrite Hchain', Hl.
Qed.

Lemma descend_cons lru c rest' i node history st :
  descend lru (String c rest') i node history st =
  bind (ensure_char_from_siblings st node (ord c)) (fun r =>
    let history := observe lru i (data (fst r)) history in
    match rest' with
    | EmptyString => Ok (fst r, history, rest', snd r)
    | String _ _ =>
        if has_child (fst r) then
          bind (read_child (snd r) (fst r)) (fun node =>
            descend lru rest' (S i) node history (snd r))
        else Ok (fst r, history, rest', snd r)
    end).
Proof.
  simpl. destruct (ensure_char_from_siblings st node (ord c)) as [[n s]|e];
    [|done].
  simpl. by destruct rest'.
Qed.

Lemma extend_cons c rest v dv st :
  extend (String c rest) (handle v dv) st =
  extend rest
    (handle (length (blocks st)) (data_set_parent v (default_data (ord c))))
    {| blocks := new_child (blocks st) v dv (ord c);
       journal := journal st ++
         [(length (blocks st), data_set_parent v (default_data (ord c)));
          (v, data_set_child (length (blocks st)) dv)] |}.
Proof.
  simpl. unfold write. simpl. unfold new_child. by rewrite <- app_assoc.
Qed.

Lemma head_of_child bs v dv : 0 < v → bs !! v = Some dv → head_of bs v = n_child dv.
Proof.
  intros Hv Hd. unfold head_of.
  destruct (v =? 0) eqn:E; [apply Nat.eqb_eq in E; lia|]. by rewrite Hd.
Qed.

Lemma descend_spec lru :
  ∀ rest i st p history,
    wf st → head_of (blocks st) p ≠ 0 → rest ≠ EmptyString →
    ∃ v dv history' rest' st',
      descend lru rest i (node_of_block st (head_of (blocks st) p)) history st
        = Ok (handle v dv, history', rest', st')
      ∧ steps st st'
      ∧ blocks st' !! v = Some dv ∧ 0 < v
      ∧ (rest' ≠ EmptyString → n_child dv = 0)
      ∧ (∀ bs1 history2,
           ext (blocks st') bs1 → fwd bs1 → hist_le i history history2 →
           ∃ dv1 history2' i',
             bs1 !! v = Some dv1
             ∧ hist_le i' history' history2'
             ∧ pwalk bs1 lru rest i (head_of (blocks st) p) history2
               = pwalk_below bs1 lru rest' i' v dv1 history2').
Proof.
  induction rest as [|c rest' IH]; intros i st p history Hw Hnz Hne; [done|].
  destruct (ensure_char_spec st p (ord c) Hw Hnz)
    as (v & dv & st1 & Hens & Hsteps & Hv & Hv0 & Hhead & Hfind & _).
  pose proof (steps_wf _ _ Hw Hsteps) as Hw1.
  rewrite descend_cons, Hens. cbn [bind fst snd data handle].
  set (history1 := observe lru i dv history).
  assert (∀ bs1 history2,
    ext (blocks st1) bs1 → fwd bs1 → hist_le i history history2 →
    ∃ dv1, bs1 !! v = Some dv1
      ∧ hist_le (S i) history1 (observe lru i dv1 history2)
      ∧ (n_child dv ≠ 0 → n_child dv1 = n_child dv)
      ∧ pwalk bs1 lru (String c rest') i (head_of (blocks st) p) history2
        = pwalk_below bs1 lru rest' (S i) v dv1 (observe lru i dv1 history2))
    as Hpath.
  { intros bs1 history2 He Hf1 Hle.
    destruct (ext_old _ _ He v dv Hv) as (dv1 & Hv1 & _ & _ & _ & Hch & Hr & Hwb & _).
    exists dv1. split; [done|]. split; [by apply observe_le|]. split; [done|].
    rewrite pwalk_cons.
    rewrite (find_sibling_ext _ _ _ _ _ He (proj2 Hw1) Hf1 Hfind). by rewrite Hv1. }
  destruct rest' as [|c2 rest''].
  - exists v, dv, history1, EmptyString, st1.
    split; [done|]. split; [done|]. split; [done|]. split; [done|].
    split; [done|].
    intros bs1 history2 He Hf1 Hle.
    destruct (Hpath bs1 history2 He Hf1 Hle) as (dv1 & Hv1 & Hle1 & _ & Hp).
    exists dv1, (observe lru i dv1 history2), (S i). done.
  - destruct (has_child (handle v dv)) eqn:Hchild.
    + unfold has_child in Hchild. simpl in Hchild.
      apply negb_true_iff, Nat.eqb_neq in Hchild.
      pose proof (head_of_child _ _ _ Hv0 Hv) as Hhd.
      destruct (proj2 Hw1 v dv Hv) as (_ & [?|Hclt] & _); [done|].
      destruct (lookup_lt_is_Some_2 (blocks st1) (n_child dv)) as [dch Hdch]; [lia|].
      assert (read_child st1 (handle v dv)
              = Ok (node_of_block st1 (head_of (blocks st1) v))) as ->.
      { unfold read_child, has_child. simpl.
        rewrite (proj2 (Nat.eqb_neq _ _) Hchild). simpl.
        rewrite Hhd, (node_of_block_handle _ _ _ Hdch).
        by rewrite (read_handle _ _ _ _ Hdch). }
      cbn [bind].
      destruct (IH (S i) st1 v history1 Hw1 ltac:(by rewrite Hhd) ltac:(done))
        as (v' & dv' & history' & rest1 & st' & Hdesc & Hsteps' & Hv' & Hv0' & Hch' & Hpath').
      exists v', dv', history', rest1, st'.
      split; [done|]. split; [by eapply rtc_trans|].
      split; [done|]. split; [done|]. split; [done|].
      intros bs1 history2 He Hf1 Hle.
      pose proof (steps_ext _ _ Hw1 Hsteps') as He1.
      destruct (Hpath bs1 history2 (ext_trans _ _ _ He1 He) Hf1 Hle)
        as (dv1 & Hv1 & Hle1 & Hc1 & Hp).
      destruct (Hpath' bs1 (observe lru i dv1 history2) He Hf1 Hle1)
        as (dv1' & history2' & i' & Hv1' & Hle' & Hp').
      exists dv1', history2', i'. split; [done|]. split; [done|].
      rewrite Hp. unfold pwalk_below at 1.
      rewrite (Hc1 Hchild), (proj2 (Nat.eqb_neq _ _) Hchild).
      by rewrite <- Hhd.
    + unfold has_child in Hchild. simpl in Hchild.
      apply negb_false_iff, Nat.eqb_eq in Hchild.
      exists v, dv, history1, (String c2 rest''), st1.
      split; [done|]. split; [done|]. split; [done|]. split; [done|].
      split; [done|].
      intros bs1 history2 He Hf1 Hle.
      destruct (Hpath bs1 history2 He Hf1 Hle) as (dv1 & Hv1 & Hle1 & _ & Hp).
      exists dv1, (observe lru i dv1 history2), (S i). done.
Qed.

Lemma extend_spec lru :
  ∀ rest st v dv,
    wf st → 0 < v → blocks st !! v = Some dv →
    (rest ≠ EmptyString → n_child dv = 0) →
    ∃ v' dv' st',
      extend rest (handle v dv) st = Ok (handle v' dv', st')
      ∧ steps st st'
      ∧ blocks st' !! v' = Some dv' ∧ 0 < v'
      ∧ (∀ bs1 i h history2 dv1,
           ext (blocks st') bs1 → fwd bs1 → hist_le i h history2 →
           bs1 !! v = Some dv1 →
           ∃ dv1' history2' i',
             bs1 !! v' = Some dv1'
             ∧ hist_le i' h history2'
             ∧ pwalk_below bs1 lru rest i v dv1 history2
               = Some (v', dv1', history2')).
Proof.
  induction rest as [|c rest' IH]; intros st v dv Hw Hv0 Hv Hch.
  - exists v, dv, st. split; [done|]. split; [apply rtc_refl|].
    split; [done|]. split; [done|].
    intros bs1 i h history2 dv1 He Hf1 Hle Hv1.
    exists dv1, history2, i. done.
  - rewrite extend_cons.
    set (dnew := data_set_parent v (default_data (ord c))).
    set (st1 := {| blocks := new_child (blocks st) v dv (ord c);
                   journal := journal st ++
                     [(length (blocks st), dnew);
                      (v, data_set_child (length (blocks st)) dv)] |}).
    pose proof (lookup_lt_Some _ _ _ Hv) as Hvlt.
    assert (step st st1) as Hstep
      by (apply (step_child st v dv (ord c)); [done|done|by apply Hch]).
    pose proof (step_wf _ _ Hw Hstep) as Hw1.
    assert (blocks st1 !! length (blocks st) = Some dnew) as Hnew.
    { simpl. rewrite (new_child_lookup _ _ _ _ _ Hv).
      repeat case_decide; [lia|done|done]. }
    assert (blocks st1 !! v = Some (data_set_child (length (blocks st)) dv)) as Hv1.
    { simpl. rewrite (new_child_lookup _ _ _ _ _ Hv). by rewrite decide_True. }
    destruct (IH st1 (length (blocks st)) dnew Hw1 ltac:(lia) Hnew ltac:(done))
      as (v' & dv' & st' & Hext & Hsteps & Hv' & Hv0' & Hpath).
    exists v', dv', st'. split; [done|].
    split; [by eapply rtc_l|]. split; [done|]. split; [done|].
    intros bs1 i h history2 dv1 He Hf1 Hle Hdv1.
    pose proof (ext_trans _ _ _ (steps_ext _ _ Hw1 Hsteps) He) as He1.
    destruct (ext_old _ _ He1 _ _ Hv1) as (dv1x & Hx & _ & _ & _ & Hchx & _).
    assert (dv1x = dv1) as -> by congruence.
    simpl in Hchx. specialize (Hchx ltac:(lia)).
    destruct (ext_old _ _ He1 _ _ Hnew) as (dn1 & Hn1 & Hcn & _ & _ & _ & Hrn & Hwn & _).
    assert (hist_le (S i) h (observe lru i dn1 history2)) as Hle1.
    { change h with (observe lru i dnew h). by apply observe_le. }
    destruct (Hpath bs1 (S i) h (observe lru i dn1 history2) dn1 He Hf1 Hle1 Hn1)
      as (dv1' & history2' & i' & Hv1' & Hle' & Hp).
    exists dv1', history2', i'. split; [done|]. split; [done|].
    unfold pwalk_below at 1. rewrite Hchx.
    destruct (length (blocks st) =? 0) eqn:E; [apply Nat.eqb_eq in E; lia|].
    rewrite pwalk_cons.
    rewrite (chain_unfold _ _ _ Hf1 Hn1), find_sibling_cons,
      (char_at_lookup _ _ _ Hn1), Hcn.
    simpl. rewrite Z.eqb_refl, Hn1. done.
Qed.

Lemma hist_le_new : hist_le 0 new_history new_history.
Proof. unfold hist_le. simpl. split; [done|lia]. Qed.

Lemma add_lru_empty st : add_lru EmptyString st = Ok (root st, new_history, st).
Proof. done. Qed.

Lemma add_lru_spec lru st :
  wf st → lru ≠ EmptyString →
  ∃ v dv history st',
    add_lru lru st = Ok (handle v dv, history, st')
    ∧ steps st st'
    ∧ blocks st' !! v = Some dv ∧ 0 < v
    ∧ (∀ bs1, ext (blocks st') bs1 → fwd bs1 →
         ∃ dv1 history2 i',
           bs1 !! v = Some dv1
           ∧ hist_le i' history history2
           ∧ pwalk bs1 lru lru 0 LRU_TRIE_NODE_HEADER_BLOCKS new_history
             = Some (v, dv1, history2)).
Proof.
  intros Hw Hne.
  destruct (descend_spec lru lru 0 st 0 new_history Hw ltac:(done) Hne)
    as (v & dv & history & rest' & st1 & Hdesc & Hsteps & Hv & Hv0 & Hch & Hpath).
  pose proof (steps_wf _ _ Hw Hsteps) as Hw1.
  destruct (extend_spec lru rest' st1 v dv Hw1 Hv0 Hv Hch)
    as (v' & dv' & st' & Hext & Hsteps' & Hv' & Hv0' & Hpath').
  exists v', dv', history, st'.
  split.
  { unfold add_lru, root. rewrite head_of_root in Hdesc. rewrite Hdesc.
    cbn [bind]. rewrite Hext. done. }
  split; [by eapply rtc_trans|]. split; [done|]. split; [done|].
  intros bs1 He Hf1.
  pose proof (ext_trans _ _ _ (steps_ext _ _ Hw1 Hsteps') He) as He1.
  destruct (Hpath bs1 new_history He1 Hf1 hist_le_new)
    as (dv1 & history2 & i' & Hv1 & Hle & Hp).
  destruct (Hpath' bs1 i' history history2 dv1 He Hf1 Hle Hv1)
    as (dv1' & history2' & i'' & Hv1' & Hle' & Hp').
  exists dv1', history2', i''. split; [done|]. split; [done|].
  rewrite head_of_root in Hp. by rewrite Hp.
Qed.

Lemma find_sibling_head bs c h v :
  find_sibling bs c (chain bs h) = Some v → h < length bs.
Proof.
  intros H. destruct (decide (h < length bs)); [done|].
  rewrite chain_outside in H by lia. done.
Qed.

Lemma ensure_char_found st b c v dv :
  wf st → find_sibling (blocks st) c (chain (blocks st) b) = Some v →
  blocks st !! v = Some dv →
  ensure_char_from_siblings st (node_of_block st b) c = Ok (handle v dv, st)
  ∧ b ≤ v.
Proof.
  intros [Hlen Hf] Hfind Hv.
  pose proof (find_sibling_head _ _ _ _ Hfind) as Hlt.
  destruct (lookup_lt_is_Some_2 _ _ Hlt) as [d Hd].
  rewrite (node_of_block_handle _ _ _ Hd).
  unfold ensure_char_from_siblings. cbn [node_exists handle negb].
  pose proof (follow_siblings_spec st c Hf b Hlt d (scan_fuel st) Hd
                ltac:(unfold scan_fuel; lia)) as Hscan.
  rewrite Hfind in Hscan. destruct Hscan as (dv' & Hv' & _ & ->).
  assert (dv' = dv) as -> by congruence.
  split; [done|].
  apply find_sibling_Some in Hfind as [Hin _].
  by destruct (chain_mem _ _ _ Hf Hin).
Qed.

Lemma read_child_handle st v dv :
  wf st → blocks st !! v = Some dv → n_child dv ≠ 0 →
  read_child st (handle v dv) = Ok (node_of_block st (n_child dv))
  ∧ n_child dv < length (blocks st).
Proof.
  intros [Hlen Hf] Hv Hnz.
  destruct (Hf v dv Hv) as (_ & [?|Hclt] & _); [done|].
  destruct (lookup_lt_is_Some_2 (blocks st) (n_child dv)) as [dch Hdch]; [lia|].
  split; [|lia].
  unfold read_child, has_child. simpl.
  rewrite (proj2 (Nat.eqb_neq _ _) Hnz). simpl.
  by rewrite (node_of_block_handle _ _ _ Hdch), (read_handle _ _ _ _ Hdch).
Qed.

(** An LRU whose nodes are all in the trie is walked without a write. *)
Lemma descend_present lru :
  ∀ rest i st b history v dv h,
    wf st → 0 < b →
    pwalk (blocks st) lru rest i b history = Some (v, dv, h) →
    descend lru rest i (node_of_block st b) history st
      = Ok (handle v dv, h, EmptyString, st)
    ∧ blocks st !! v = Some dv ∧ 0 < v.
Proof.
  induction rest as [|c rest' IH]; intros i st b history v dv h Hw Hb Hp; [done|].
  rewrite pwalk_cons in Hp.
  destruct (find_sibling (blocks st) (ord c) (chain (blocks st) b)) as [u|] eqn:Hfind;
    [|done].
  destruct (blocks st !! u) as [du|] eqn:Hu; [|done].
  destruct (ensure_char_found _ _ _ _ _ Hw Hfind Hu) as [Hens Hbu].
  rewrite descend_cons, Hens. cbn [bind fst snd data handle].
  destruct rest' as [|c2 rest''].
  - simpl in Hp. inversion Hp; subst. split; [done|]. split; [done|lia].
  - unfold pwalk_below in Hp.
    destruct (n_child du =? 0) eqn:Hz; [done|].
    apply Nat.eqb_neq in Hz.
    destruct (read_child_handle _ _ _ Hw Hu Hz) as [Hrc Hclt].
    unfold has_child at 1. cbn [data handle]. rewrite (proj2 (Nat.eqb_neq _ _) Hz).
    cbn [negb]. rewrite Hrc. cbn [bind].
    apply IH; [done|lia|done].
Qed.

Lemma header_blocks_pos : 0 < LRU_TRIE_NODE_HEADER_BLOCKS.
Proof. unfold LRU_TRIE_NODE_HEADER_BLOCKS. lia. Qed.

Lemma add_lru_present lru st v dv h :
  wf st →
  pwalk (blocks st) lru lru 0 LRU_TRIE_NODE_HEADER_BLOCKS new_history
    = Some (v, dv, h) →
  add_lru lru st = Ok (handle v dv, h, st) ∧ blocks st !! v = Some dv ∧ 0 < v.
Proof.
  intros Hw Hp.
  destruct (descend_present lru lru 0 st LRU_TRIE_NODE_HEADER_BLOCKS new_history
              v dv h Hw header_blocks_pos Hp) as (Hd & Hv & Hv0).
  split; [|done]. unfold add_lru, root. rewrite Hd. done.
Qed.

Definition found_handle (r : option (nat * NodeData * LRUTrieWalkHistory))
  : option LRUTrieNode :=
  match r with
  | Some (v, dv, _) => Some (handle v dv)
  | None => None
  end.

(** [lru_node] finds the last node of the path, and nothing when there is
    no path. *)
Lemma lru_node_from_spec lru :
  ∀ rest i st b history,
    wf st → b < length (blocks st) → rest ≠ EmptyString →
    lru_node_from rest (node_of_block st b) st
      = Ok (found_handle (pwalk (blocks st) lru rest i b history)).
Proof.
  induction rest as [|c rest' IH]; intros i st b history Hw Hb Hne; [done|].
  destruct (lookup_lt_is_Some_2 _ _ Hb) as [d Hd].
  rewrite (node_of_block_handle _ _ _ Hd), pwalk_cons.
  pose proof (seek_spec st (ord c) (proj2 Hw) b Hb d (scan_fuel st) Hd
                ltac:(unfold scan_fuel; lia)) as Hseek.
  cbn [lru_node_from].
  destruct (find_sibling (blocks st) (ord c) (chain (blocks st) b)) as [u|];
    [|by rewrite Hseek].
  destruct Hseek as (du & Hu & _ & ->). rewrite Hu. cbn [bind].
  destruct rest' as [|c2 rest'']; [done|].
  unfold pwalk_below, has_child. cbn [data handle].
  destruct (n_child du =? 0) eqn:Hz; [done|].
  apply Nat.eqb_neq in Hz. cbn [negb].
  destruct (read_child_handle _ _ _ Hw Hu Hz) as [-> Hclt]. cbn [bind].
  by apply IH.
Qed.

Lemma pwalk_root_exists bs lru rest i b history r :
  pwalk bs lru rest i b history = Some r → b < length bs.
Proof.
  destruct rest as [|c rest']; [done|]. rewrite pwalk_cons.
  destruct (find_sibling bs (ord c) (chain bs b)) eqn:Hfind; [|done].
  intros _. by eapply find_sibling_head.
Qed.

Lemma lru_node_present lru st v dv h :
  wf st →
  pwalk (blocks st) lru lru 0 LRU_TRIE_NODE_HEADER_BLOCKS new_history
    = Some (v, dv, h) →
  lru_node lru st = Ok (Some (handle v dv)).
Proof.
  intros Hw Hp. unfold lru_node, root.
  rewrite (lru_node_from_spec lru lru 0 st _ new_history Hw
             (pwalk_root_exists _ _ _ _ _ _ _ Hp)).
  - by rewrite Hp.
  - intros ->. done.
Qed.

(** ** The default record *)

(** The node of a missing block: the default record, with no block. *)
Definition missing_node : LRUTrieNode :=
  {| block := None; node_exists := false; data := default_data 0%Z |}.

(** ** The empty trie *)

Lemma empty_trie_blocks : blocks empty_trie = [default_data 0%Z].
Proof. done. Qed.

Lemma empty_trie_tree : tree (blocks empty_trie).
Proof.
  assert (wf empty_trie) as [Hlen Hf] by (by apply wfb_sound).
  assert (∀ p, siblings (blocks empty_trie) p = []) as Hsib.
  { intros p. unfold siblings, head_of.
    destruct (p =? 0) eqn:E; [done|].
    destruct p as [|[|p]]; done. }
  split; [done|done| |].
  - intros p a. rewrite Hsib. by intros ?%elem_of_nil.
  - intros p. rewrite Hsib. apply NoDup_nil_2.
Qed.

Lemma tree_wf st : tree (blocks st) → wf st.
Proof. intros Ht. split; apply Ht. Qed.

(** * The claims on the trie *)

(** C10. For the empty LRU, [add_lru] returns the root node and makes no
    write: no block is allocated and the store has the size it had; and
    [lru_node] returns the root node, not nothing. *)
Theorem empty_lru_is_root (st : Storage) :
  (∃ st',
     add_lru EmptyString st = Ok (root st, new_history, st')
     ∧ length (blocks st') = length (blocks st)
     ∧ journal st' = journal st
     ∧ st' = st)
  ∧ lru_node EmptyString st = Ok (Some (root st)).
Proof.
  split.
  - exists st. split; [apply add_lru_empty|]. done.
  - unfold lru_node. reflexivity.
Qed.

(** ** The order of the writes *)

(** A write of the journal, replayed: an index equal to the size of the
    store is an append. *)
Definition apply_write (bs : list NodeData) (w : nat * NodeData) : list NodeData :=
  if fst w =? length bs then bs ++ [snd w] else <[fst w := snd w]> bs.

(** The pointers of a record are blocks that are written. *)
Definition refs_written (len : nat) (d : NodeData) : Prop :=
  n_next d < len ∧ n_child d < len ∧ n_parent d < len.

(** No stored pointer references an unwritten block. *)
Definition closed (bs : list NodeData) : Prop :=
  ∀ b d, bs !! b = Some d → refs_written (length bs) d.

(** Each write of [ws], at the time it is made from [bs] on, goes to a
    written block or to the end of the store, carries pointers to blocks
    written before it, and leaves the store closed. *)
Fixpoint ordered (bs : list NodeData) (ws : list (nat * NodeData)) : Prop :=
  match ws with
  | [] => True
  | w :: ws' =>
      fst w ≤ length bs
      ∧ refs_written (length bs) (snd w)
      ∧ closed (apply_write bs w)
      ∧ ordered (apply_write bs w) ws'
  end.

Definition replay (bs : list NodeData) (ws : list (nat * NodeData)) : list NodeData :=
  foldl apply_write bs ws.

Definition journaled (st st' : Storage) : Prop :=
  ∃ ws, journal st' = journal st ++ ws
        ∧ ordered (blocks st) ws
        ∧ replay (blocks st) ws = blocks st'.

Lemma ordered_app bs ws1 ws2 :
  ordered bs ws1 → ordered (replay bs ws1) ws2 → ordered bs (ws1 ++ ws2).
Proof.
  revert bs. induction ws1 as [|w ws1 IH]; intros bs H1 H2; [done|].
  simpl in *. destruct H1 as (Ha & Hb & Hc & Hd).
  split; [done|]. split; [done|]. split; [done|]. by apply IH.
Qed.

Lemma journaled_refl st : journaled st st.
Proof. exists []. by rewrite app_nil_r. Qed.

Lemma journaled_trans st1 st2 st3 :
  journaled st1 st2 → journaled st2 st3 → journaled st1 st3.
Proof.
  intros (ws1 & Hj1 & Ho1 & Hr1) (ws2 & Hj2 & Ho2 & Hr2).
  exists (ws1 ++ ws2). split; [by rewrite Hj2, Hj1, app_assoc|].
  split.
  - apply ordered_app; [done|]. by rewrite Hr1.
  - unfold replay in *. by rewrite foldl_app, Hr1.
Qed.

Lemma wf_closed st : wf st → closed (blocks st).
Proof.
  intros [Hlen Hf] b d Hb. destruct (Hf b d Hb) as (Hn & Hc & Hp).
  unfold refs_written. lia.
Qed.

Lemma closed_app bs d :
  closed bs → refs_written (length bs) d → closed (bs ++ [d]).
Proof.
  intros Hc Hd b x Hb. rewrite length_app. simpl.
  destruct (decide (b < length bs)) as [Hlt|Hge].
  - rewrite lookup_app_l in Hb by done.
    destruct (Hc b x Hb) as (?&?&?). unfold refs_written. lia.
  - rewrite lookup_app_r in Hb by lia.
    destruct (b - length bs); [|done]. simpl in Hb. inversion Hb; subst.
    destruct Hd as (?&?&?). unfold refs_written. lia.
Qed.

Lemma apply_write_append bs d : apply_write bs (length bs, d) = bs ++ [d].
Proof. unfold apply_write. simpl. by rewrite Nat.eqb_refl. Qed.

Lemma apply_write_insert bs b d :
  b < length bs → apply_write bs (b, d) = <[b := d]> bs.
Proof.
  intros H. unfold apply_write. simpl.
  destruct (b =? length bs) eqn:E; [apply Nat.eqb_eq in E; lia|done].
Qed.

Lemma step_journaled st st' : wf st → step st st' → journaled st st'.
Proof.
  intros Hw Hs. pose proof (step_wf _ _ Hw Hs) as Hw'.
  pose proof (wf_closed _ Hw') as Hcl'. pose proof (wf_closed _ Hw) as Hcl.
  destruct Hw as [Hlen Hf].
  destruct Hs as
    [st d Hl Hn Hc Hp Hr|st p t dt c Hlast Ht Hfind|st v dv c Hv0 Hv Hz
    |st b d d' Hb Hc Hn Hch Hp Hr Hwb Hg]; simpl in *.
  - exists [(length (blocks st), d)]. split; [done|].
    simpl. unfold replay. simpl. rewrite !apply_write_append.
    split; [|done]. split; [done|].
    split; [unfold refs_written; rewrite Hn, Hc, Hp; lia|]. done.
  - pose proof (lookup_lt_Some _ _ _ Ht) as Htlt.
    destruct (Hf t dt Ht) as (Hn & Hc & Hp).
    set (dnew := data_set_parent (n_parent dt) (default_data c)).
    assert (refs_written (length (blocks st)) dnew) as Hrn
      by (unfold refs_written; simpl; lia).
    eexists. split; [done|]. unfold replay. simpl.
    rewrite !apply_write_append.
    rewrite !apply_write_insert by (rewrite length_app; simpl; lia).
    rewrite length_app. simpl.
    split; [|done]. split; [done|]. split; [done|].
    split; [by apply closed_app|]. split; [lia|].
    split; [unfold refs_written; simpl; destruct Hc; lia|]. done.
  - pose proof (lookup_lt_Some _ _ _ Hv) as Hvlt.
    destruct (Hf v dv Hv) as (Hn & Hc & Hp).
    set (dnew := data_set_parent v (default_data c)).
    assert (refs_written (length (blocks st)) dnew) as Hrn
      by (unfold refs_written; simpl; lia).
    eexists. split; [done|]. unfold replay. simpl.
    rewrite !apply_write_append.
    rewrite !apply_write_insert by (rewrite length_app; simpl; lia).
    rewrite length_app. simpl.
    split; [|done]. split; [done|]. split; [done|].
    split; [by apply closed_app|]. split; [lia|].
    split; [unfold refs_written; simpl; destruct Hn; lia|]. done.
  - pose proof (lookup_lt_Some _ _ _ Hb) as Hblt.
    destruct (Hcl b d Hb) as (H1 & H2 & H3).
    eexists. split; [done|]. unfold replay. simpl.
    rewrite !apply_write_insert by done.
    split; [|done]. split; [lia|].
    split; [unfold refs_written; rewrite Hn, Hch, Hp; lia|]. done.
Qed.

Lemma steps_journaled st st' : wf st → steps st st' → journaled st st'.
Proof.
  intros Hw Hs. induction Hs as [|st st1 st2 H1 H2 IH]; [apply journaled_refl|].
  eapply journaled_trans; [by apply step_journaled|].
  apply IH. by eapply step_wf.
Qed.

(** ** Insertions on a later store *)

(** [add_lru] returns the node of a block, and on every later state of the
    store it returns the node of the same block without a write, with a
    history that carries the same rules. *)
Lemma add_lru_later lru st :
  wf st →
  lru ≠ EmptyString ∨ LRU_TRIE_NODE_HEADER_BLOCKS < length (blocks st) →
  ∃ v dv history st',
    add_lru lru st = Ok (handle v dv, history, st')
    ∧ steps st st'
    ∧ blocks st' !! v = Some dv ∧ 0 < v
    ∧ (∀ st1, ext (blocks st') (blocks st1) → wf st1 →
         ∃ dv1 history2 i',
           blocks st1 !! v = Some dv1
           ∧ hist_le i' history history2
           ∧ add_lru lru st1 = Ok (handle v dv1, history2, st1)).
Proof.
  intros Hw Hcase.
  destruct (decide (lru = EmptyString)) as [->|Hne].
  - destruct Hcase as [?|Hroot]; [done|].
    destruct (lookup_lt_is_Some_2 _ _ Hroot) as [d Hd].
    exists LRU_TRIE_NODE_HEADER_BLOCKS, d, new_history, st.
    split; [by rewrite add_lru_empty; unfold root;
            rewrite (node_of_block_handle _ _ _ Hd)|].
    split; [apply rtc_refl|]. split; [done|]. split; [apply header_blocks_pos|].
    intros st1 He Hw1.
    destruct (ext_old _ _ He _ _ Hd) as (d1 & Hd1 & _).
    exists d1, new_history, 0. split; [done|]. split; [apply hist_le_new|].
    rewrite add_lru_empty. unfold root. by rewrite (node_of_block_handle _ _ _ Hd1).
  - destruct (add_lru_spec lru st Hw Hne)
      as (v & dv & history & st' & Hadd & Hsteps & Hv & Hv0 & Hpath).
    exists v, dv, history, st'. split; [done|]. split; [done|].
    split; [done|]. split; [done|].
    intros st1 He Hw1.
    destruct (Hpath (blocks st1) He (proj2 Hw1)) as (dv1 & h2 & i' & Hv1 & Hle & Hp).
    exists dv1, h2, i'. split; [done|]. split; [done|].
    by destruct (add_lru_present lru st1 v dv1 h2 Hw1 Hp).
Qed.

Lemma write_handle st v d :
  write st (handle v d)
  = (handle v d, {| blocks := <[v := d]> (blocks st);
                    journal := journal st ++ [(v, d)] |}).
Proof. done. Qed.

Lemma write_missing st d :
  write st {| block := None; node_exists := false; data := d |}
  = (handle (length (blocks st)) d,
     {| blocks := blocks st ++ [d];
        journal := journal st ++ [(length (blocks st), d)] |}).
Proof. done. Qed.

Lemma page_bit_flag d :
  page_bit (set_flags (flag (n_flags d) LRU_TRIE_NODE_FLAG_PAGE) d) = true
  ∧ rule_bit (set_flags (flag (n_flags d) LRU_TRIE_NODE_FLAG_PAGE) d) = rule_bit d
  ∧ (web_bit d = true →
     web_bit (set_flags (flag (n_flags d) LRU_TRIE_NODE_FLAG_PAGE) d) = true).
Proof.
  unfold page_bit, rule_bit, web_bit. simpl.
  rewrite !test_flag by done. simpl. split; [done|]. split; done.
Qed.

Lemma web_bit_flag w d :
  web_bit (data_set_webentity w d) = true
  ∧ rule_bit (data_set_webentity w d) = rule_bit d
  ∧ (page_bit d = true → page_bit (data_set_webentity w d) = true).
Proof.
  unfold page_bit, rule_bit, web_bit. simpl.
  rewrite !test_flag by done. simpl. split; [done|]. split; done.
Qed.

(** [add_page] of the trie returns the node of a block flagged as a page,
    and on every later state of the store it returns the node of the same
    block without a write. *)
Lemma add_page_spec lru st :
  wf st →
  ∃ v dv history st',
    add_page lru st = Ok (handle v dv, history, st')
    ∧ steps st st'
    ∧ blocks st' !! v = Some dv ∧ 0 < v ∧ page_bit dv = true
    ∧ (∀ st1, ext (blocks st') (blocks st1) → wf st1 →
         ∃ dv1 history2 i',
           blocks st1 !! v = Some dv1
           ∧ hist_le i' history history2
           ∧ add_page lru st1 = Ok (handle v dv1, history2, st1)).
Proof.
  intros Hw.
  assert (∀ v dv history sa,
    wf sa → blocks sa !! v = Some dv → 0 < v →
    (∀ st1, ext (blocks sa) (blocks st1) → wf st1 →
       ∃ dv1 history2 i',
         blocks st1 !! v = Some dv1 ∧ hist_le i' history history2
         ∧ add_lru lru st1 = Ok (handle v dv1, history2, st1)) →
    ∀ dv' history' st',
      page_bit dv' = true → blocks st' !! v = Some dv' →
      ext (blocks sa) (blocks st') →
      rule_prefixes history' = rule_prefixes history →
      webentity_position history' = webentity_position history →
      ∀ st1, ext (blocks st') (blocks st1) → wf st1 →
        ∃ dv1 history2 i',
          blocks st1 !! v = Some dv1 ∧ hist_le i' history' history2
          ∧ add_page lru st1 = Ok (handle v dv1, history2, st1)) as Hlater.
  { intros v dv history sa Hwa Hv Hv0 Hl dv' history' st' Hpg Hv' He Hr Hpos
      st1 He1 Hw1.
    destruct (Hl st1 (ext_trans _ _ _ He He1) Hw1) as (dv1 & h2 & i' & Hv1 & Hle & Hadd).
    exists dv1, h2, i'. split; [done|].
    split; [unfold hist_le in *; by rewrite Hr, Hpos|].
    unfold add_page. rewrite Hadd. cbn [bind].
    destruct (ext_old _ _ He1 _ _ Hv') as (dx & Hx & _ & _ & _ & _ & _ & _ & Hp).
    assert (dx = dv1) as -> by congruence.
    unfold is_page. cbn [data handle]. fold (page_bit dv1). by rewrite Hp. }
  destruct (decide (lru = EmptyString
                    ∧ length (blocks st) ≤ LRU_TRIE_NODE_HEADER_BLOCKS))
    as [[-> Hmiss]|Hcase].
  - (* the empty LRU on an empty trie: the root is appended *)
    assert (length (blocks st) = LRU_TRIE_NODE_HEADER_BLOCKS) as Hl.
    { destruct Hw. change LRU_TRIE_NODE_HEADER_BLOCKS with 1 in *. lia. }
    unfold add_page. rewrite add_lru_empty. cbn [bind].
    unfold root. rewrite node_of_block_missing by lia.
    set (d := set_flags (flag 0 LRU_TRIE_NODE_FLAG_PAGE) (default_data 0%Z)).
    set (st' := {| blocks := blocks st ++ [d];
                   journal := journal st ++ [(length (blocks st), d)] |}).
    assert (step st st') as Hstep by (by apply (step_root st d)).
    assert (blocks st' !! LRU_TRIE_NODE_HEADER_BLOCKS = Some d) as Hd.
    { simpl. rewrite <- Hl, lookup_app_r by lia. by rewrite Nat.sub_diag. }
    exists LRU_TRIE_NODE_HEADER_BLOCKS, d, (set_page_was_created true new_history), st'.
    split; [by rewrite <- Hl|]. split; [by apply rtc_once|].
    split; [done|]. split; [apply header_blocks_pos|]. split; [done|].
    intros st1 He Hw1.
    destruct (ext_old _ _ He _ _ Hd) as (d1 & Hd1 & _ & _ & _ & _ & _ & _ & Hp).
    exists d1, new_history, 0. split; [done|]. split; [apply hist_le_new|].
    unfold add_page. rewrite add_lru_empty. cbn [bind]. unfold root.
    rewrite (node_of_block_handle _ _ _ Hd1).
    unfold is_page. cbn [data handle]. fold (page_bit d1). by rewrite Hp.
  - destruct (add_lru_later lru st Hw) as
      (v & dv & history & sa & Hadd & Hsteps & Hv & Hv0 & Hl).
    { destruct (decide (lru = EmptyString)) as [E|E]; [right|by left].
      destruct (decide (length (blocks st) ≤ LRU_TRIE_NODE_HEADER_BLOCKS));
        [by destruct Hcase|lia]. }
    pose proof (steps_wf _ _ Hw Hsteps) as Hwa.
    unfold add_page. rewrite Hadd. cbn [bind].
    unfold is_page. cbn [data handle]. fold (page_bit dv).
    destruct (page_bit dv) eqn:Hpg; cbn [negb].
    + exists v, dv, history, sa. split; [done|]. split; [done|].
      split; [done|]. split; [done|]. split; [done|].
      by apply (Hlater v dv history sa Hwa Hv Hv0 Hl dv history sa Hpg Hv
                  (ext_refl _)).
    + unfold flag_as_page, with_data. cbn [data handle block node_exists].
      set (d := set_flags (flag (n_flags dv) LRU_TRIE_NODE_FLAG_PAGE) dv).
      change {| block := Some v; node_exists := true; data := d |} with (handle v d).
      rewrite write_handle.
      set (st' := {| blocks := <[v := d]> (blocks sa);
                     journal := journal sa ++ [(v, d)] |}).
      destruct (page_bit_flag dv) as (Hp1 & Hp2 & Hp3).
      assert (step sa st') as Hstep.
      { apply (step_flags sa v dv d); try done; by rewrite Hpg. }
      assert (blocks st' !! v = Some d) as Hd.
      { simpl. apply list_lookup_insert_eq. by eapply lookup_lt_Some. }
      exists v, d, (set_page_was_created true history), st'.
      split; [done|]. split; [by eapply rtc_r|].
      split; [done|]. split; [done|]. split; [done|].
      by apply (Hlater v dv history sa Hwa Hv Hv0 Hl d _ st' Hp1 Hd
                  (step_ext _ _ Hwa Hstep)).
Qed.

(** C5. On a well-formed store, the writes of [add_lru], and of [add_page]
    after it, are ordered: replayed one by one from the store they start
    from, each write goes to a block already written or appends one, each
    record written points only to blocks written before it, and after each
    write no stored pointer references an unwritten block. *)
Theorem writes_are_ordered (lru : string) (st : Storage) :
  wf st →
  (∃ n history st',
     add_lru lru st = Ok (n, history, st')
     ∧ ∃ ws, journal st' = journal st ++ ws
             ∧ ordered (blocks st) ws
             ∧ replay (blocks st) ws = blocks st')
  ∧ (∃ n history st',
       add_page lru st = Ok (n, history, st')
       ∧ ∃ ws, journal st' = journal st ++ ws
               ∧ ordered (blocks st) ws
               ∧ replay (blocks st) ws = blocks st').
Proof.
  intros Hw. split.
  - destruct (decide (lru = EmptyString)) as [->|Hne].
    + exists (root st), new_history, st. split; [done|].
      apply (journaled_refl st).
    + destruct (add_lru_spec lru st Hw Hne)
        as (v & dv & history & st' & Hadd & Hsteps & _).
      exists (handle v dv), history, st'. split; [done|].
      by apply steps_journaled.
  - destruct (add_page_spec lru st Hw)
      as (v & dv & history & st' & Hadd & Hsteps & _).
    exists (handle v dv), history, st'. split; [done|].
    by apply steps_journaled.
Qed.

Lemma writes_are_ordered_witness :
  wf empty_trie
  ∧ (∃ n history st',
       add_lru "ab" empty_trie = Ok (n, history, st')
       ∧ ∃ ws, journal st' = journal empty_trie ++ ws
               ∧ ordered (blocks empty_trie) ws
               ∧ replay (blocks empty_trie) ws = blocks st').
Proof.
  split; [apply wfb_sound; reflexivity|].
  apply (writes_are_ordered "ab" empty_trie).
  apply wfb_sound. reflexivity.
Defined.

(** ** Sibling lists only grow at the tail *)

Lemma chain_ext_prefix bs bs1 h :
  ext bs bs1 → fwd bs → fwd bs1 → chain bs h `prefix_of` chain bs1 h.
Proof.
  intros He Hf Hf1.
  destruct (decide (h < length bs)) as [Hlt|Hge];
    [|rewrite chain_outside by lia; apply prefix_nil].
  revert h Hlt.
  apply (chain_ind bs (fun h => chain bs h `prefix_of` chain bs1 h) Hf).
  intros b d Hb IH.
  destruct (ext_old _ _ He b d Hb) as (d1 & Hb1 & _ & _ & Hn & _).
  rewrite (chain_unfold _ _ _ Hf Hb), (chain_unfold _ _ _ Hf1 Hb1).
  apply prefix_cons.
  destruct (n_next d =? 0) eqn:Hz; [apply prefix_nil|].
  apply Nat.eqb_neq in Hz. rewrite (Hn Hz), (proj2 (Nat.eqb_neq _ _) Hz).
  by apply IH.
Qed.

Lemma siblings_ext_prefix bs bs1 q :
  ext bs bs1 → fwd bs → fwd bs1 → siblings bs q `prefix_of` siblings bs1 q.
Proof.
  intros He Hf Hf1. unfold siblings.
  destruct (head_of bs q =? 0) eqn:E; [apply prefix_nil|].
  apply Nat.eqb_neq in E.
  assert (head_of bs1 q = head_of bs q) as Hh.
  { unfold head_of in *. destruct (q =? 0); [done|].
    destruct (bs !! q) as [d|] eqn:Hd; [|done].
    destruct (ext_old _ _ He q d Hd) as (d1 & Hd1 & _ & _ & _ & Hc & _).
    rewrite Hd1. by apply Hc. }
  rewrite Hh, (proj2 (Nat.eqb_neq _ _) E). by apply chain_ext_prefix.
Qed.

Lemma find_sibling_notin bs c l :
  c ∉ char_at bs <$> l → find_sibling bs c l = None.
Proof.
  induction l as [|v l IH]; [done|]. rewrite fmap_cons, find_sibling_cons.
  intros Hn. destruct (char_at bs v =? c)%Z eqn:E.
  - apply Z.eqb_eq in E. destruct Hn. rewrite E. by left.
  - apply IH. intros Hin. apply Hn. by right.
Qed.

(** A sequence of [add_lru] operations. *)
Fixpoint add_lrus (lrus : list string) (st : Storage) : result Storage :=
  match lrus with
  | [] => Ok st
  | lru :: lrus' =>
      try (_, _, st) <- add_lru lru st in
      add_lrus lrus' st
  end.

Lemma add_lru_steps lru st :
  wf st → ∃ n history st', add_lru lru st = Ok (n, history, st') ∧ steps st st'.
Proof.
  intros Hw. destruct (decide (lru = EmptyString)) as [->|Hne].
  - exists (root st), new_history, st. split; [done|apply rtc_refl].
  - destruct (add_lru_spec lru st Hw Hne)
      as (v & dv & history & st' & Hadd & Hsteps & _).
    by exists (handle v dv), history, st'.
Qed.

Lemma add_lrus_tree lrus :
  ∀ st, tree (blocks st) →
        ∃ st', add_lrus lrus st = Ok st' ∧ tree (blocks st').
Proof.
  induction lrus as [|lru lrus IH]; intros st Ht; [by exists st|].
  destruct (add_lru_steps lru st (tree_wf _ Ht)) as (n & h & st1 & Hadd & Hsteps).
  destruct (IH st1 (steps_tree _ _ Ht Hsteps)) as (st' & Hrun & Ht').
  exists st'. split; [|done]. cbn [add_lrus]. by rewrite Hadd.
Qed.

(** C4. After any sequence of [add_lru] operations from the empty trie, the
    characters of every sibling list are pairwise distinct; asking a sibling
    list for a character it does not carry appends a node for it at the tail
    of the list; and whatever is inserted next, every sibling list keeps its
    nodes in their order, the new ones after them. *)
Theorem sibling_lists_distinct_and_ordered (lrus : list string) :
  ∃ st,
    add_lrus lrus empty_trie = Ok st
    ∧ (∀ p, NoDup (char_at (blocks st) <$> siblings (blocks st) p))
    ∧ (∀ p c,
         head_of (blocks st) p ≠ 0 →
         c ∉ char_at (blocks st) <$> siblings (blocks st) p →
         ∃ dv st',
           ensure_char_from_siblings st
             (node_of_block st (head_of (blocks st) p)) c
             = Ok (handle (length (blocks st)) dv, st')
           ∧ n_char dv = c
           ∧ siblings (blocks st') p
             = siblings (blocks st) p ++ [length (blocks st)])
    ∧ (∀ lru,
         ∃ n history st',
           add_lru lru st = Ok (n, history, st')
           ∧ ∀ p, siblings (blocks st) p `prefix_of` siblings (blocks st') p).
Proof.
  destruct (add_lrus_tree lrus empty_trie empty_trie_tree) as (st & Hrun & Ht).
  pose proof (tree_wf _ Ht) as Hw.
  exists st. split; [done|]. split; [apply Ht|]. split.
  - intros p c Hnz Hnotin.
    destruct (ensure_char_spec st p c Hw Hnz)
      as (v & dv & st' & Hens & Hsteps & Hv & Hv0 & Hhead & Hfind & Hcase).
    pose proof (find_sibling_notin _ _ _ Hnotin) as Hnone.
    destruct Hcase as [[_ Hsome]|(_ & -> & Hsib)]; [congruence|].
    exists dv, st'. split; [done|]. split; [|done].
    apply find_sibling_Some in Hfind as [_ Hc].
    by rewrite (char_at_lookup _ _ _ Hv) in Hc.
  - intros lru.
    destruct (add_lru_steps lru st Hw) as (n & h & st' & Hadd & Hsteps).
    exists n, h, st'. split; [done|]. intros p.
    apply siblings_ext_prefix;
      [by apply steps_ext|apply Hw|apply (steps_wf _ _ Hw Hsteps)].
Qed.

(** * The claims on the coordinator *)

Section CoordinatorProperties.

Variable lru_variations : string -> list string.
Variable LinkStorage : Type.
Variable add_outlinks add_inlinks :
  LRUTrieNode -> list (option nat) -> Storage * LinkStorage ->
  result (Storage * LinkStorage).

Abbreviation Traph := (Traph LinkStorage).

Lemma longest_candidate_rules (t1 t2 : Traph) rules lru :
  webentity_creation_rules _ t1 = webentity_creation_rules _ t2 →
  ∀ acc, longest_candidate LinkStorage t1 rules lru acc = longest_candidate LinkStorage t2 rules lru acc.
Proof.
  intros Heq. induction rules as [|rp rules IH]; intros acc; [done|].
  cbn [longest_candidate]. unfold apply_webentity_creation_rule.
  rewrite Heq.
  destruct (webentity_creation_rules _ t2 !! rp) as [re|]; [|done].
  cbn [bind]. apply IH.
Qed.

Lemma nonempty_length s : nonempty s = true ↔ 0 < String.length s.
Proof. destruct s; simpl; split; intros; try done; lia. Qed.


(** ** Webentity prefixes set twice *)

(** Two states of a store that differ at most by webentity ids. *)
Definition same_shape (bs bs' : list NodeData) : Prop :=
  length bs' = length bs
  ∧ ∀ b d, bs !! b = Some d →
      ∃ d', bs' !! b = Some d'
            ∧ n_char d' = n_char d ∧ n_flags d' = n_flags d
            ∧ n_next d' = n_next d ∧ n_child d' = n_child d
            ∧ n_parent d' = n_parent d.

Lemma same_shape_refl bs : same_shape bs bs.
Proof. split; [done|]. intros b d Hb. by exists d. Qed.

Lemma same_shape_trans bs1 bs2 bs3 :
  same_shape bs1 bs2 → same_shape bs2 bs3 → same_shape bs1 bs3.
Proof.
  intros [L1 H1] [L2 H2]. split; [congruence|]. intros b d Hb.
  destruct (H1 b d Hb) as (d' & Hb' & ? & ? & ? & ? & ?).
  destruct (H2 b d' Hb') as (d'' & Hb'' & ? & ? & ? & ? & ?).
  exists d''. split; [done|]. repeat split; congruence.
Qed.

Lemma same_shape_ext bs bs' : same_shape bs bs' → ext bs bs'.
Proof.
  intros [L H]. split; [lia| |].
  - intros b d Hb. destruct (H b d Hb) as (d' & Hb' & Hc & Hfl & Hn & Hch & Hp).
    exists d'. split; [done|]. unfold rule_bit, web_bit, page_bit.
    rewrite Hc, Hfl, Hn, Hch, Hp. done.
  - intros b d' Hlen Hb. apply lookup_lt_Some in Hb. lia.
Qed.

Lemma same_shape_wf st st' :
  wf st → same_shape (blocks st) (blocks st') → wf st'.
Proof.
  intros [Hlen Hf] [L H]. split; [lia|]. intros b d' Hb'.
  pose proof (lookup_lt_Some _ _ _ Hb') as Hlt. rewrite L in Hlt.
  destruct (lookup_lt_is_Some_2 _ _ Hlt) as [d Hd].
  destruct (H b d Hd) as (dx & Hx & _ & _ & Hn & Hch & Hp).
  assert (dx = d') as -> by congruence.
  destruct (Hf b d Hd) as (H1 & H2 & H3). unfold block_ok.
  rewrite Hn, Hch, Hp, L. done.
Qed.

Lemma same_shape_insert bs v dv w :
  bs !! v = Some dv → web_bit dv = true →
  same_shape bs (<[v := data_set_webentity w dv]> bs).
Proof.
  intros Hv Hweb. pose proof (lookup_lt_Some _ _ _ Hv) as Hlt.
  split; [by rewrite length_insert|]. intros b d Hb.
  destruct (decide (b = v)) as [->|Hne].
  - assert (d = dv) as -> by congruence.
    eexists. rewrite list_lookup_insert_eq by done. split; [done|].
    simpl. by rewrite flag_idem.
  - exists d. by rewrite list_lookup_insert_ne by done.
Qed.

(** One turn of the loop of [__add_prefixes], and the same turn on a later
    state of the store, which then changes at most a webentity id. *)
Lemma set_prefix_spec w prefix st :
  wf st →
  ∃ st',
    (∀ rest, set_prefixes w (prefix :: rest) st = set_prefixes w rest st')
    ∧ steps st st'
    ∧ (∀ st1 w', ext (blocks st') (blocks st1) → wf st1 →
         ∃ st1',
           (∀ rest, set_prefixes w' (prefix :: rest) st1
                    = set_prefixes w' rest st1')
           ∧ same_shape (blocks st1) (blocks st1')).
Proof.
  intros Hw.
  assert (∀ v dv st',
    blocks st' !! v = Some dv → web_bit dv = true →
    (∀ st1, ext (blocks st') (blocks st1) → wf st1 →
       ∃ dv1 history2,
         blocks st1 !! v = Some dv1
         ∧ add_lru prefix st1 = Ok (handle v dv1, history2, st1)) →
    ∀ st1 w', ext (blocks st') (blocks st1) → wf st1 →
      ∃ st1',
        (∀ rest, set_prefixes w' (prefix :: rest) st1
                 = set_prefixes w' rest st1')
        ∧ same_shape (blocks st1) (blocks st1')) as Hlater.
  { intros v dv st' Hv Hweb Hl st1 w' He Hw1.
    destruct (Hl st1 He Hw1) as (dv1 & h2 & Hv1 & Hadd).
    destruct (ext_old _ _ He _ _ Hv) as (dx & Hx & _ & _ & _ & _ & _ & Hwb & _).
    assert (dx = dv1) as -> by congruence.
    exists {| blocks := <[v := data_set_webentity w' dv1]> (blocks st1);
              journal := journal st1 ++ [(v, data_set_webentity w' dv1)] |}.
    split.
    - intros rest. cbn [set_prefixes]. rewrite Hadd. done.
    - simpl. apply same_shape_insert; [done|by apply Hwb]. }
  destruct (decide (prefix = EmptyString
                    ∧ length (blocks st) ≤ LRU_TRIE_NODE_HEADER_BLOCKS))
    as [[-> Hmiss]|Hcase].
  - assert (length (blocks st) = LRU_TRIE_NODE_HEADER_BLOCKS) as Hl.
    { destruct Hw. change LRU_TRIE_NODE_HEADER_BLOCKS with 1 in *. lia. }
    set (d := data_set_webentity w (default_data 0%Z)).
    set (st' := {| blocks := blocks st ++ [d];
                   journal := journal st ++ [(length (blocks st), d)] |}).
    assert (step st st') as Hstep by (by apply (step_root st d)).
    assert (blocks st' !! LRU_TRIE_NODE_HEADER_BLOCKS = Some d) as Hd.
    { simpl. rewrite <- Hl, lookup_app_r by lia. by rewrite Nat.sub_diag. }
    exists st'. split.
    { intros rest. cbn [set_prefixes]. rewrite add_lru_empty. cbn [bind].
      unfold root. rewrite node_of_block_missing by lia. done. }
    split; [by apply rtc_once|].
    apply (Hlater LRU_TRIE_NODE_HEADER_BLOCKS d st' Hd); [done|].
    intros st1 He Hw1.
    destruct (ext_old _ _ He _ _ Hd) as (d1 & Hd1 & _).
    exists d1, new_history. split; [done|].
    rewrite add_lru_empty. unfold root. by rewrite (node_of_block_handle _ _ _ Hd1).
  - destruct (add_lru_later prefix st Hw) as
      (v & dv & history & sa & Hadd & Hsteps & Hv & Hv0 & Hl).
    { destruct (decide (prefix = EmptyString)) as [E|E]; [right|by left].
      destruct (decide (length (blocks st) ≤ LRU_TRIE_NODE_HEADER_BLOCKS));
        [by destruct Hcase|lia]. }
    pose proof (steps_wf _ _ Hw Hsteps) as Hwa.
    set (d := data_set_webentity w dv).
    set (st' := {| blocks := <[v := d]> (blocks sa);
                   journal := journal sa ++ [(v, d)] |}).
    destruct (web_bit_flag w dv) as (Hb1 & Hb2 & Hb3).
    assert (step sa st') as Hstep by (by apply (step_flags sa v dv d)).
    assert (blocks st' !! v = Some d) as Hd.
    { simpl. apply list_lookup_insert_eq. by eapply lookup_lt_Some. }
    exists st'. split.
    { intros rest. cbn [set_prefixes]. rewrite Hadd. done. }
    split; [by eapply rtc_r|].
    apply (Hlater v d st' Hd Hb1).
    intros st1 He Hw1.
    destruct (Hl st1 (ext_trans _ _ _ (step_ext _ _ Hwa Hstep) He) Hw1)
      as (dv1 & h2 & i' & Hv1 & _ & Hadd1).
    by exists dv1, h2.
Qed.

Lemma set_prefixes_spec w prefixes :
  ∀ st, wf st →
    ∃ st',
      set_prefixes w prefixes st = Ok st'
      ∧ steps st st'
      ∧ (∀ st1 w', ext (blocks st') (blocks st1) → wf st1 →
           ∃ st1', set_prefixes w' prefixes st1 = Ok st1'
                   ∧ same_shape (blocks st1) (blocks st1')).
Proof.
  induction prefixes as [|prefix prefixes IH]; intros st Hw.
  - exists st. split; [done|]. split; [apply rtc_refl|].
    intros st1 w' _ _. exists st1. split; [done|apply same_shape_refl].
  - destruct (set_prefix_spec w prefix st Hw) as (sa & Heq & Hsteps & Hl).
    pose proof (steps_wf _ _ Hw Hsteps) as Hwa.
    destruct (IH sa Hwa) as (st' & Hrun & Hsteps' & Hl').
    exists st'. split; [by rewrite Heq|]. split; [by eapply rtc_trans|].
    intros st1 w' He Hw1.
    destruct (Hl st1 w' (ext_trans _ _ _ (steps_ext _ _ Hwa Hsteps') He) Hw1)
      as (st1a & Heq1 & Hsh1).
    pose proof (same_shape_wf _ _ Hw1 Hsh1) as Hw1a.
    destruct (Hl' st1a w' (ext_trans _ _ _ He (same_shape_ext _ _ Hsh1)) Hw1a)
      as (st1' & Hrun1 & Hsh1').
    exists st1'. split; [by rewrite Heq1|]. by eapply same_shape_trans.
Qed.

(** ** The longest candidate (C1) *)


(** ** A page added twice *)


(** The prefixes [__add_page] sets when it does not return early, for the
    candidate selected. *)
Definition prefixes_to_set (t : Traph) (lru candidate : string)
  : option (list string) :=
  if nonempty candidate then Some (expand_prefix lru_variations candidate)
  else expand_prefix lru_variations
         <$> apply_webentity_default_creation_rule _ t lru.

Lemma Traph_add_page_again (t t1 : Traph) lru v dv1 h1 h2 c i' :
  webentity_creation_rules _ t1 = webentity_creation_rules _ t →
  default_webentity_creation_rule _ t1 = default_webentity_creation_rule _ t →
  add_page lru (lru_trie_storage _ t1)
    = Ok (handle v dv1, h2, lru_trie_storage _ t1) →
  hist_le i' h1 h2 →
  longest_candidate LinkStorage t (rules_to_apply h1) lru EmptyString = Ok c →
  (nonempty c = true
   ∧ (Z.of_nat (String.length c) <= webentity_position h1 + 1)%Z)
  ∨ (∃ P, prefixes_to_set t lru c = Some P
          ∧ ∀ w', ∃ s1',
              set_prefixes w' P (lru_trie_storage _ t1) = Ok s1'
              ∧ same_shape (blocks (lru_trie_storage _ t1)) (blocks s1')) →
  ∃ n2 r2 t2,
    Traph_add_page lru_variations LinkStorage lru t1 = Ok (n2, r2, t2)
    ∧ same_shape (blocks (lru_trie_storage _ t1)) (blocks (lru_trie_storage _ t2))
    ∧ links_store_storage _ t2 = links_store_storage _ t1
    ∧ nb_created_pages r2 = 0.
Proof.
  intros Hrules Hdefault Hadd (Hr & Hp1 & Hp2) Hlong Hcase.
  unfold Traph_add_page. cbn [lru_trie_storage entered].
  rewrite Hadd. cbn [bind].
  rewrite (longest_candidate_rules _ t) by done.
  unfold rules_to_apply in *. rewrite Hr, Hlong. cbn [bind].
  destruct (nonempty c
            && (Z.of_nat (String.length c) <=? webentity_position h2 + 1)%Z)
    eqn:Hcond.
  - eexists _, _, _. split; [done|]. split; [apply same_shape_refl|]. done.
  - destruct Hcase as [[Hne Hle]|(P & HP & Hset)].
    { rewrite Hne in Hcond. simpl in Hcond. apply Z.leb_gt in Hcond. lia. }
    unfold prefixes_to_set in HP.
    destruct (nonempty c) eqn:Hne.
    + inversion HP; subst P. unfold add_prefixes. simpl.
      destruct (Hset (S (last_webentity_id _ t1))) as (s1' & -> & Hsh).
      simpl. eexists _, _, _. split; [done|]. split; [done|]. done.
    + unfold apply_webentity_default_creation_rule in *.
      cbn [with_storage entered default_webentity_creation_rule].
      rewrite Hdefault.
      destruct (default_webentity_creation_rule _ t lru) as [d|]; [|done].
      inversion HP; subst P. unfold add_prefixes. simpl.
      destruct (Hset (S (last_webentity_id _ t1))) as (s1' & -> & Hsh).
      simpl. eexists _, _, _. split; [done|]. split; [done|]. done.
Qed.

Lemma Traph_add_page_twice (t : Traph) lru n1 r1 t1 :
  wf (lru_trie_storage _ t) →
  Traph_add_page lru_variations LinkStorage lru t = Ok (n1, r1, t1) →
  ∃ n2 r2 t2,
    Traph_add_page lru_variations LinkStorage lru t1 = Ok (n2, r2, t2)
    ∧ same_shape (blocks (lru_trie_storage _ t1)) (blocks (lru_trie_storage _ t2))
    ∧ links_store_storage _ t2 = links_store_storage _ t1
    ∧ nb_created_pages r2 = 0.
Proof.
  intros Hw H1. unfold Traph_add_page in H1.
  cbn [lru_trie_storage entered] in H1.
  destruct (add_page_spec lru _ Hw)
    as (v & dv & h1 & sa & Hadd & Hsteps & Hv & Hv0 & Hpg & LA).
  pose proof (steps_wf _ _ Hw Hsteps) as Hwa.
  rewrite Hadd in H1. cbn [bind] in H1.
  rewrite (longest_candidate_rules _ t) in H1 by done.
  destruct (longest_candidate LinkStorage t (rules_to_apply h1) lru EmptyString)
    as [c|e] eqn:Hlong; [|done].
  cbn [bind] in H1.
  assert (∀ P t1,
    add_prefixes LinkStorage P (with_storage _ sa (entered _ lru t)) = Ok t1 →
    ∃ s1, lru_trie_storage _ (snd t1) = s1
      ∧ webentity_creation_rules _ (snd t1) = webentity_creation_rules _ t
      ∧ default_webentity_creation_rule _ (snd t1)
        = default_webentity_creation_rule _ t
      ∧ steps sa s1
      ∧ ∀ w', ∃ s1', set_prefixes w' P s1 = Ok s1'
                     ∧ same_shape (blocks s1) (blocks s1')) as Hcreate.
  { intros P tx Hx. unfold add_prefixes in Hx. simpl in Hx.
    destruct (set_prefixes_spec (S (last_webentity_id _ t)) P sa Hwa)
      as (s1 & Hrun & Hst & LP).
    rewrite Hrun in Hx. cbn [bind] in Hx. inversion Hx; subst tx.
    exists s1. split; [done|]. split; [done|]. split; [done|]. split; [done|].
    intros w'. apply LP; [apply ext_refl|by eapply steps_wf]. }
  assert (∀ t1 : Traph,
    webentity_creation_rules _ t1 = webentity_creation_rules _ t →
    default_webentity_creation_rule _ t1 = default_webentity_creation_rule _ t →
    steps sa (lru_trie_storage _ t1) →
    (nonempty c = true
     ∧ (Z.of_nat (String.length c) <= webentity_position h1 + 1)%Z)
    ∨ (∃ P, prefixes_to_set t lru c = Some P
            ∧ ∀ w', ∃ s1',
                set_prefixes w' P (lru_trie_storage _ t1) = Ok s1'
                ∧ same_shape (blocks (lru_trie_storage _ t1)) (blocks s1')) →
    ∃ n2 r2 t2,
      Traph_add_page lru_variations LinkStorage lru t1 = Ok (n2, r2, t2)
      ∧ same_shape (blocks (lru_trie_storage _ t1))
                   (blocks (lru_trie_storage _ t2))
      ∧ links_store_storage _ t2 = links_store_storage _ t1
      ∧ nb_created_pages r2 = 0) as Hagain.
  { intros tx Hrx Hdx Hsx Hcx.
    destruct (LA (lru_trie_storage _ tx) (steps_ext _ _ Hwa Hsx)
                (steps_wf _ _ Hwa Hsx)) as (dv1 & h2 & i' & Hv1 & Hle & Hadd2).
    by apply (Traph_add_page_again t tx lru v dv1 h1 h2 c i'). }
  destruct (nonempty c
            && (Z.of_nat (String.length c) <=? webentity_position h1 + 1)%Z)
    eqn:Hcond.
  - inversion H1; subst. apply Hagain; [done|done|apply rtc_refl|].
    left. apply andb_true_iff in Hcond as [Hne Hle].
    split; [done|by apply Z.leb_le].
  - destruct (nonempty c) eqn:Hne.
    + destruct (add_prefixes LinkStorage _ _) as [[w tx]|e] eqn:Hx; [|done].
      cbn [bind] in H1. inversion H1; subst.
      destruct (Hcreate _ _ Hx) as (s1 & Hs1 & Hr1 & Hd1 & Hst & Hset).
      simpl in Hs1, Hr1, Hd1. subst s1.
      apply Hagain; [done|done|done|].
      right. eexists. split; [|done]. unfold prefixes_to_set. by rewrite Hne.
    + unfold apply_webentity_default_creation_rule in H1.
      cbn [with_storage entered default_webentity_creation_rule] in H1.
      destruct (default_webentity_creation_rule _ t lru) as [d|] eqn:Hdef; [|done].
      destruct (add_prefixes LinkStorage _ _) as [[w tx]|e] eqn:Hx; [|done].
      cbn [bind] in H1. inversion H1; subst.
      destruct (Hcreate _ _ Hx) as (s1 & Hs1 & Hr1 & Hd1 & Hst & Hset).
      simpl in Hs1, Hr1, Hd1. subst s1.
      apply Hagain; [done|done|done|].
      right. eexists. split; [|done].
      unfold prefixes_to_set, apply_webentity_default_creation_rule.
      by rewrite Hne, Hdef.
Qed.

(** C2. On a well-formed trie, when [add_page] of an LRU returns, a second
    [add_page] of the same LRU returns too and leaves the structure as the
    first left it: the trie store has the same number of blocks and every
    node the same character, flags and pointers, the link store is
    untouched, and the report of the second call records no page created. *)
Theorem add_page_twice (t : Traph) (lru : string)
    (report1 : TraphWriteReport) (t1 : Traph) :
  wf (lru_trie_storage _ t) →
  Traph_add_page_report lru_variations LinkStorage lru t = Ok (report1, t1) →
  ∃ report2 t2,
    Traph_add_page_report lru_variations LinkStorage lru t1 = Ok (report2, t2)
    ∧ length (blocks (lru_trie_storage _ t2))
      = length (blocks (lru_trie_storage _ t1))
    ∧ (∀ b, n_flags <$> blocks (lru_trie_storage _ t2) !! b
            = n_flags <$> blocks (lru_trie_storage _ t1) !! b)
    ∧ same_shape (blocks (lru_trie_storage _ t1)) (blocks (lru_trie_storage _ t2))
    ∧ links_store_storage _ t2 = links_store_storage _ t1
    ∧ nb_created_pages report2 = 0.
Proof.
  intros Hw H1. unfold Traph_add_page_report in *.
  destruct (Traph_add_page lru_variations LinkStorage lru t) as [[[n1 r1] tx]|e] eqn:Hcall; [|done].
  cbn [bind] in H1. inversion H1; subst.
  destruct (Traph_add_page_twice t lru n1 report1 t1 Hw Hcall)
    as (n2 & r2 & t2 & Hcall2 & Hsh & Hlinks & Hpages).
  exists r2, t2. rewrite Hcall2. cbn [bind].
  split; [done|]. split; [apply Hsh|]. split; [|done].
  intros b. destruct Hsh as [Hlen Hsh].
  destruct (blocks (lru_trie_storage _ t1) !! b) as [d|] eqn:Hb.
  - destruct (Hsh b d Hb) as (d' & -> & _ & Hfl & _). simpl. by rewrite Hfl.
  - rewrite lookup_ge_None_2; [done|].
    apply lookup_ge_None in Hb. lia.
Qed.

(** ** The pages of a batch of links *)


Lemma Traph_add_page_calls (t : Traph) lru n r t' :
  Traph_add_page lru_variations LinkStorage lru t = Ok (n, r, t') →
  add_page_calls _ t' = lru :: add_page_calls _ t.
Proof.
  unfold Traph_add_page. cbn [lru_trie_storage entered].
  destruct (add_page lru (lru_trie_storage _ t)) as [[[node history] st]|e];
    [|done].
  cbn [bind].
  destruct (longest_candidate LinkStorage _ _ _ _) as [c|e]; [|done]. cbn [bind].
  assert (∀ P r0,
    bind (add_prefixes LinkStorage P (with_storage _ st (entered _ lru t)))
      (fun '(webentity_id, t0) => Ok (node, r0 webentity_id, t0))
      = Ok (n, r, t') →
    add_page_calls _ t' = lru :: add_page_calls _ t) as Hcreate.
  { intros P r0. unfold add_prefixes. simpl.
    destruct (set_prefixes _ _ _) as [s1|e]; [|done]. simpl.
    intros [= _ _ <-]. done. }
  destruct (nonempty c && _).
  - intros [= _ _ <-]. done.
  - destruct (nonempty c).
    + apply (Hcreate _ (fun w => report_created w _ new_report)).
    + destruct (apply_webentity_default_creation_rule _ _ _); [|done].
      apply (Hcreate _ (fun w => report_created w _ new_report)).
Qed.

(** The LRUs [__add_page] was entered with since [t0] are those of the
    pages cache, each once. *)
Definition calls_inv (t0 t : Traph) (pages : gmap string LRUTrieNode) : Prop :=
  ∃ new, add_page_calls _ t = new ++ add_page_calls _ t0
         ∧ NoDup new
         ∧ ∀ x, x ∈ new ↔ is_Some (pages !! x).

Lemma add_links_page_inv (t0 t : Traph) report pages page t' report' pages' :
  calls_inv t0 t pages →
  add_links_page lru_variations LinkStorage page (t, report, pages) = Ok (t', report', pages') →
  calls_inv t0 t' pages'
  ∧ ∀ x, is_Some (pages' !! x) ↔ x = page ∨ is_Some (pages !! x).
Proof.
  intros (new & Hcalls & Hnd & Hin). unfold add_links_page.
  destruct (pages !! page) as [node|] eqn:Hpage.
  - intros [= <- <- <-]. split; [by exists new|].
    intros x. split; [by right|]. intros [->|?]; [by rewrite Hpage|done].
  - destruct (Traph_add_page lru_variations LinkStorage page t) as [[[node page_report] tx]|e] eqn:Hcall;
      [|done].
    cbn [bind]. intros [= <- <- <-].
    assert (∀ x, is_Some (<[page := node]> pages !! x)
                 ↔ x = page ∨ is_Some (pages !! x)) as Hpages.
    { intros x. rewrite lookup_insert. case_decide as Hx.
      - subst. split; [by left|by eauto].
      - split; [by right|]. intros [?|?]; [by subst|done]. }
    split; [|done].
    exists (page :: new). split.
    + rewrite (Traph_add_page_calls _ _ _ _ _ Hcall), Hcalls. done.
    + split.
      * apply NoDup_cons. split; [|done].
        rewrite Hin, Hpage. by intros [? ?].
      * intros x. rewrite Hpages, elem_of_cons, Hin. done.
Qed.

Lemma add_links_pages_inv (t0 : Traph) links :
  ∀ t report pages outlinks inlinks t' report' pages' outlinks' inlinks',
    calls_inv t0 t pages →
    add_links_pages lru_variations LinkStorage links (t, report, pages, outlinks, inlinks)
      = Ok (t', report', pages', outlinks', inlinks') →
    calls_inv t0 t' pages'
    ∧ ∀ x, is_Some (pages' !! x)
           ↔ is_Some (pages !! x) ∨ x ∈ links.*1 ∨ x ∈ links.*2.
Proof.
  induction links as [|[source_page target_page] links IH];
    intros t report pages outlinks inlinks t' report' pages' outlinks' inlinks'
           Hinv Hrun.
  - simpl in Hrun. inversion Hrun; subst. split; [done|].
    intros x. split; [by left|]. intros [?|[?%elem_of_nil|?%elem_of_nil]]; done.
  - cbn [add_links_pages] in Hrun.
    destruct (add_links_page lru_variations LinkStorage source_page (t, report, pages))
      as [[[t1 r1] p1]|e] eqn:H1; [|done].
    cbn [bind] in Hrun.
    destruct (add_links_page lru_variations LinkStorage target_page (t1, r1, p1))
      as [[[t2 r2] p2]|e] eqn:H2; [|done].
    cbn [bind] in Hrun.
    destruct (add_links_page_inv _ _ _ _ _ _ _ _ Hinv H1) as [Hinv1 Hp1].
    destruct (add_links_page_inv _ _ _ _ _ _ _ _ Hinv1 H2) as [Hinv2 Hp2].
    destruct (IH _ _ _ _ _ _ _ _ _ _ Hinv2 Hrun) as [Hinv' Hp'].
    split; [done|]. intros x.
    rewrite Hp', Hp2, Hp1, !fmap_cons, !elem_of_cons. simpl. tauto.
Qed.

(** C9. Within one [add_links lru_variations LinkStorage add_outlinks add_inlinks] call, [__add_page] is entered once for each
    distinct LRU of the batch, source or target, and for nothing else,
    however many pairs mention the LRU. *)
Theorem one_add_page_per_lru (links : list (string * string)) (t : Traph)
    (report : TraphWriteReport) (t' : Traph) :
  add_links lru_variations LinkStorage add_outlinks add_inlinks links t = Ok (report, t') →
  ∃ entered_with,
    add_page_calls _ t' = entered_with ++ add_page_calls _ t
    ∧ NoDup entered_with
    ∧ ∀ lru, lru ∈ entered_with ↔ lru ∈ links.*1 ∨ lru ∈ links.*2.
Proof.
  unfold add_links.
  destruct (add_links_pages lru_variations LinkStorage links (t, new_report, ∅, ∅, ∅))
    as [[[[[t1 r1] pages] outlinks] inlinks]|e] eqn:Hpages; [|done].
  cbn [bind].
  destruct (flush_links _ add_outlinks _ _ _) as [s1|e]; [|done]. cbn [bind].
  destruct (flush_links _ add_inlinks _ _ _) as [s2|e]; [|done]. cbn [bind].
  intros [= <- <-].
  assert (calls_inv t t ∅) as Hinv0.
  { exists []. split; [done|]. split; [apply NoDup_nil_2|].
    intros x. rewrite lookup_empty. split; [by intros ?%elem_of_nil|].
    by intros [? ?]. }
  destruct (add_links_pages_inv t links _ _ _ _ _ _ _ _ _ _ Hinv0 Hpages)
    as [(new & Hcalls & Hnd & Hin) Hp].
  exists new. split; [done|]. split; [done|].
  intros x. rewrite Hin, Hp, lookup_empty. split.
  - intros [[? ?]|?]; done.
  - intros ?. by right.
Qed.

End CoordinatorProperties.

(** ** A small Traph to run the coordinator on *)

(** Stand-ins for the inputs of the core: a prefix is its only variation,
    and the link store keeps nothing. *)
Definition demo_variations (prefix : string) : list string := [prefix].

Definition demo_link_op (node : LRUTrieNode) (peers : list (option nat))
    (s : Storage * unit) : result (Storage * unit) := Ok s.

(** A fresh memory-backed Traph whose default rule matches the whole LRU. *)
Definition demo_traph : Traph unit :=
  {| lru_trie_storage := empty_trie;
     links_store_storage := tt;
     last_webentity_id := 0;
     default_webentity_creation_rule := fun lru => Some lru;
     webentity_creation_rules := ∅;
     add_page_calls := [] |}.

(** A Traph whose trie holds the node of ["a"], flagged as a webentity
    prefix and as a creation rule, with a rule at ["a"] that matches
    ["a"]. *)
Definition demo_rule_traph : Traph unit :=
  {| lru_trie_storage :=
       {| blocks := [default_data 0%Z;
                     {| n_char := 97%Z; n_flags := 6%Z; n_next := 0;
                        n_child := 0; n_parent := 0; n_webentity := 1 |}];
          journal := [] |};
     links_store_storage := tt;
     last_webentity_id := 1;
     default_webentity_creation_rule := fun lru => Some lru;
     webentity_creation_rules := {[ "a"%string := fun _ : string => Some "a"%string ]};
     add_page_calls := [] |}.

Definition demo_rule_walk : LRUTrieNode * LRUTrieWalkHistory * Storage :=
  Eval vm_compute in
    match add_page "ab" (lru_trie_storage _ demo_rule_traph) with
    | Ok r => r
    | Raise _ => (missing_node, new_history, MemoryStorage)
    end.




(** The same trie, with a rule at ["a"] whose pattern matches the whole
    LRU: on ["ab"] the candidate is longer than [webentity_position + 1]
    and the webentity 2 is created on it. *)
Definition demo_long_match_traph : Traph unit :=
  {| lru_trie_storage := lru_trie_storage _ demo_rule_traph;
     links_store_storage := tt;
     last_webentity_id := 1;
     default_webentity_creation_rule := fun _ => None;
     webentity_creation_rules := {[ "a"%string := fun lru : string => Some lru ]};
     add_page_calls := [] |}.

Example longer_candidate_creates_a_webentity :
  longest_candidate unit demo_long_match_traph
    (rules_to_apply (snd (fst demo_rule_walk))) "ab" EmptyString
  = Ok "ab"%string
  ∧ webentity_position (snd (fst demo_rule_walk)) = 0%Z
  ∧ ∃ t',
      Traph_add_page demo_variations unit "ab" demo_long_match_traph
      = Ok (fst (fst demo_rule_walk),
            report_created 2 ["ab"%string] new_report, t')
      ∧ last_webentity_id _ t' = 2.
Proof.
  split; [reflexivity|]. split; [reflexivity|].
  eexists. split; [vm_compute; reflexivity|reflexivity].
Qed.

Definition demo_first_add_page : TraphWriteReport * Traph unit :=
  Eval vm_compute in
    match Traph_add_page_report demo_variations unit "ab" demo_traph with
    | Ok r => r
    | Raise _ => (new_report, demo_traph)
    end.

Lemma add_page_twice_witness :
  wf (lru_trie_storage _ demo_traph)
  ∧ Traph_add_page_report demo_variations unit "ab" demo_traph
    = Ok (fst demo_first_add_page, snd demo_first_add_page)
  ∧ ∃ report2 t2,
      Traph_add_page_report demo_variations unit "ab" (snd demo_first_add_page)
        = Ok (report2, t2)
      ∧ length (blocks (lru_trie_storage _ t2))
        = length (blocks (lru_trie_storage _ (snd demo_first_add_page)))
      ∧ (∀ b, n_flags <$> blocks (lru_trie_storage _ t2) !! b
              = n_flags <$> blocks (lru_trie_storage _ (snd demo_first_add_page)) !! b)
      ∧ same_shape (blocks (lru_trie_storage _ (snd demo_first_add_page)))
                   (blocks (lru_trie_storage _ t2))
      ∧ links_store_storage _ t2 = links_store_storage _ (snd demo_first_add_page)
      ∧ nb_created_pages report2 = 0.
Proof.
  assert (wf (lru_trie_storage _ demo_traph)) as Hw
    by (apply wfb_sound; reflexivity).
  assert (Traph_add_page_report demo_variations unit "ab" demo_traph
          = Ok (fst demo_first_add_page, snd demo_first_add_page)) as H1
    by (vm_compute; reflexivity).
  split; [exact Hw|]. split; [exact H1|].
  exact (add_page_twice demo_variations unit demo_traph "ab" _ _ Hw H1).
Defined.

Definition demo_links : list (string * string) :=
  [("a", "b"); ("a", "b"); ("a", "c")]%string.

Definition demo_add_links : TraphWriteReport * Traph unit :=
  Eval vm_compute in
    match add_links demo_variations unit demo_link_op demo_link_op
            demo_links demo_traph with
    | Ok r => r
    | Raise _ => (new_report, demo_traph)
    end.

Lemma one_add_page_per_lru_witness :
  add_links demo_variations unit demo_link_op demo_link_op demo_links demo_traph
    = Ok (fst demo_add_links, snd demo_add_links)
  ∧ ∃ entered_with,
      add_page_calls _ (snd demo_add_links)
        = entered_with ++ add_page_calls _ demo_traph
      ∧ NoDup entered_with
      ∧ ∀ lru, lru ∈ entered_with
               ↔ lru ∈ demo_links.*1 ∨ lru ∈ demo_links.*2.
Proof.
  assert (add_links demo_variations unit demo_link_op demo_link_op
            demo_links demo_traph
          = Ok (fst demo_add_links, snd demo_add_links)) as H
    by (vm_compute; reflexivity).
  split; [exact H|].
  exact (one_add_page_per_lru demo_variations unit demo_link_op demo_link_op
           demo_links demo_traph _ _ H).
Defined.

Example demo_add_links_calls :
  add_page_calls _ (snd demo_add_links) = ["c"; "b"; "a"]%string.
Proof. reflexivity. Qed.

(** * The claims the code does not meet *)

(** ** The bounded traversal (C8) *)

(** [dfs_iter] as the source declares it: from the root, every node in
    pre-order with its LRU. *)
Definition demo_trie : Storage :=
  Eval vm_compute in
    match add_lrus ["ab"; "ac"; "b"]%string empty_trie with
    | Ok st => st
    | Raise _ => empty_trie
    end.

Example dfs_iter_preorder :
  bind (dfs_iter demo_trie)
       (fun pairs => Ok (map (fun p => (block (fst p), snd p)) pairs))
  = Ok [(Some 1, "a"); (Some 2, "ab"); (Some 3, "ac"); (Some 4, "b")]%string.
Proof. reflexivity. Qed.

Section BoundedTraversal.

Variable lru_variations : string -> list string.
Variable LinkStorage : Type.

(** With [write_in_trie] true, [add_webentity_creation_rule] inserts the
    prefix, flags its node, and then calls [dfs_iter] with a node and a
    prefix: two arguments more than the method takes. *)
Lemma add_webentity_creation_rule_raises (rule_prefix : string)
    (pattern : Pattern) (t : Traph LinkStorage) :
  wf (lru_trie_storage _ t) →
  add_webentity_creation_rule lru_variations LinkStorage
    rule_prefix pattern true t = Raise TypeError.
Proof.
  intros Hw. unfold add_webentity_creation_rule.
  cbn [lru_trie_storage with_rules].
  destruct (add_lru_steps rule_prefix _ Hw) as (n & h & st' & -> & _).
  cbn [bind]. by destruct (write st' (flag_as_webentity_creation_rule n)).
Qed.

End BoundedTraversal.

(** C8, at the failing input. Installing a creation rule with
    [write_in_trie] true on a fresh Traph raises [TypeError]: the traversal
    from the node of the rule prefix is not supported by [dfs_iter]. *)
Theorem bounded_dfs_is_a_type_error :
  add_webentity_creation_rule demo_variations unit
    "s:http|h:com|" (fun lru => Some "s:http|h:com|"%string) true demo_traph
  = Raise TypeError.
Proof.
  apply add_webentity_creation_rule_raises. apply wfb_sound. reflexivity.
Qed.

(** ** The fields of the node record (C7) *)

(** C7, on the format of the source. The record packed in a block has the
    five fields of the format ['2B3Q'], in 32 bytes: character, flags,
    next, child and parent. There is no position past the parent, so no
    outlinks head, inlinks head or webentity id is among the values packed:
    two nodes that differ only by the webentity id set on them pack to the
    same values. *)
Theorem node_record_has_five_fields :
  length LRU_TRIE_NODE_FORMAT = 5
  ∧ LRU_TRIE_NODE_BLOCK_SIZE = 32
  ∧ (∀ d, length (data_list d) = length LRU_TRIE_NODE_FORMAT)
  ∧ (∀ d, data_list d !! LRU_TRIE_NODE_CHAR = Some (n_char d)
          ∧ data_list d !! LRU_TRIE_NODE_FLAGS = Some (n_flags d)
          ∧ data_list d !! LRU_TRIE_NODE_NEXT_BLOCK = Some (Z.of_nat (n_next d))
          ∧ data_list d !! LRU_TRIE_NODE_CHILD_BLOCK = Some (Z.of_nat (n_child d))
          ∧ data_list d !! LRU_TRIE_NODE_PARENT_BLOCK = Some (Z.of_nat (n_parent d)))
  ∧ (∀ d position, LRU_TRIE_NODE_PARENT_BLOCK < position →
                   data_list d !! position = None)
  ∧ (∀ d w1 w2,
       data_list (data_set_webentity w1 d) = data_list (data_set_webentity w2 d)).
Proof.
  split; [done|]. split; [done|]. split; [done|].
  split; [intros d; repeat split; done|]. split.
  - intros d position Hp. apply lookup_ge_None_2. simpl.
    unfold LRU_TRIE_NODE_PARENT_BLOCK in Hp. lia.
  - intros d w1 w2. done.
Qed.

(** ** Opening a Traph on a folder (C6) *)

Module Open.

(** The path given as [folder], as [__init__] finds it: nothing there, a
    file that is not a directory, or a directory, with the sizes of
    [lru_trie.dat] and [link_store.dat] when they are regular files in
    it. *)
Inductive path : Type :=
| Missing
| NotADirectory
| Directory (lru_trie_dat link_store_dat : option nat).

(** Modelled from the spec: [file_storage.py] and [memory_storage.py] are
    not among the sources. A storage is built from a block size and, for a
    file, the file that was opened, here by its size. *)
Inductive storage : Type :=
| FileStorage (block_size file_size : nat)
| MemoryStorage (block_size : nat).

(** [os.makedirs(folder)], with the handler of [__init__]: an existing
    directory is accepted. *)
Definition makedirs (p : path) : result path :=
  match p with
  | Missing => Ok (Directory None None)
  | NotADirectory => Raise OSError
  | Directory _ _ => Ok p
  end.

Definition isfile (f : option nat) : bool :=
  match f with
  | Some _ => true
  | None => false
  end.

Section Init.

(** [LINK_STORE_NODE_BLOCK_SIZE], of [link_store_node.py], which is not
    among the sources. *)
Variable LINK_STORE_NODE_BLOCK_SIZE : nat.

(** Lines 36 to 91 of [__init__]: the path after them, and the two
    storages or the exception raised. [folder] is [None] when no folder is
    given. *)
Definition init_storages (overwrite : bool) (folder : option path)
  : option path * result (storage * storage) :=
  match folder with
  | None =>
      (None, Ok (MemoryStorage LRU_TRIE_NODE_BLOCK_SIZE,
                 MemoryStorage LINK_STORE_NODE_BLOCK_SIZE))
  | Some p =>
      match makedirs p with
      | Raise e => (Some p, Raise e)
      | Ok Missing | Ok NotADirectory => (Some p, Raise OSError)
      | Ok (Directory lru_trie_dat link_store_dat) =>
          let lru_trie_file_exists := isfile lru_trie_dat in
          let link_store_file_exists := isfile link_store_dat in
          if lru_trie_file_exists && negb link_store_file_exists then
            (Some (Directory lru_trie_dat link_store_dat), Raise TraphException)
          else if negb lru_trie_file_exists && link_store_file_exists then
            (Some (Directory lru_trie_dat link_store_dat), Raise TraphException)
          else
            let create :=
              overwrite
              || (negb lru_trie_file_exists && negb link_store_file_exists) in
            if create then
              (Some (Directory (Some 0) (Some 0)),
               Ok (FileStorage LRU_TRIE_NODE_BLOCK_SIZE 0,
                   FileStorage LINK_STORE_NODE_BLOCK_SIZE 0))
            else
              (Some (Directory lru_trie_dat link_store_dat),
               Ok (FileStorage LRU_TRIE_NODE_BLOCK_SIZE
                     (default 0 lru_trie_dat),
                   FileStorage LINK_STORE_NODE_BLOCK_SIZE
                     (default 0 link_store_dat)))
      end
  end.

(** When exactly one of the two files exists, [__init__] raises before
    anything is written: the folder is as it was. *)
Lemma mixed_existence_raises overwrite lru_trie_dat link_store_dat :
  isfile lru_trie_dat ≠ isfile link_store_dat →
  init_storages overwrite (Some (Directory lru_trie_dat link_store_dat))
  = (Some (Directory lru_trie_dat link_store_dat), Raise TraphException).
Proof.
  intros H. unfold init_storages. simpl.
  by destruct lru_trie_dat, link_store_dat.
Qed.

(** When both files exist and [overwrite] is false, [__init__] opens them
    whatever their sizes. *)
Lemma existing_files_are_opened trie_size link_size :
  init_storages false (Some (Directory (Some trie_size) (Some link_size)))
  = (Some (Directory (Some trie_size) (Some link_size)),
     Ok (FileStorage LRU_TRIE_NODE_BLOCK_SIZE trie_size,
         FileStorage LINK_STORE_NODE_BLOCK_SIZE link_size)).
Proof. done. Qed.

End Init.

(** C6, at the failing input. A folder holds both files, [lru_trie.dat]
    with 33 bytes, one more than a block: [__init__] raises nothing and
    builds the trie storage on the file. *)
Theorem open_ignores_file_size :
  Nat.modulo 33 LRU_TRIE_NODE_BLOCK_SIZE ≠ 0
  ∧ init_storages 24 false (Some (Directory (Some 33) (Some 24)))
    = (Some (Directory (Some 33) (Some 24)),
       Ok (FileStorage LRU_TRIE_NODE_BLOCK_SIZE 33, FileStorage 24 24)).
Proof. split; [by vm_compute|done]. Qed.

End Open.

(** ** Looking up on a trie with no root (C3) *)

(** C3. On a trie that holds only its header, the sibling list of the root
    is empty and [nodes_iter] and [dfs_iter] yield no node; yet [lru_node]
    of the LRU made of the character 0 returns a node, not nothing: the
    handle of the root, which no block was read into and which holds the
    default record, whose character is 0. *)
Example lru_node_finds_an_unstored_root :
  length (blocks empty_trie) = LRU_TRIE_NODE_HEADER_BLOCKS
  ∧ siblings (blocks empty_trie) 0 = []
  ∧ nodes_iter empty_trie = Ok []
  ∧ dfs_iter empty_trie = Ok []
  ∧ ord "000" = 0%Z
  ∧ lru_node (String "000" EmptyString) empty_trie = Ok (Some missing_node)
  ∧ node_exists missing_node = false
  ∧ block missing_node = None
  ∧ char missing_node = 0%Z.
Proof. repeat split; reflexivity. Qed.

(** * Further properties of the trie *)

(** ** Opening a trie on a store *)

(** X1. [LRUTrie(storage)] writes the header block of an empty store and
    nothing else: on a store that has blocks it leaves the store as it is,
    so that it can be built again on the store it has prepared. *)
Theorem LRUTrie_writes_missing_header (st : Storage) :
  (blocks st = [] →
   LRUTrie st = {| blocks := [default_data 0%Z];
                   journal := journal st ++ [(0, default_data 0%Z)] |})
  ∧ (blocks st ≠ [] → LRUTrie st = st)
  ∧ LRUTrie (LRUTrie st) = LRUTrie st
  ∧ 1 ≤ length (blocks (LRUTrie st)).
Proof.
  unfold LRUTrie, ensure_headers, ensure_headers_from, LRU_TRIE_NODE_HEADER_BLOCKS,
    node_of_block, read, storage_read.
  destruct st as [[|d bs] j]; simpl.
  - split; [done|]. split; [done|]. split; [done|lia].
  - split; [done|]. split; [done|]. split; [done|lia].
Qed.

(** ** Iteration over the stored nodes *)

Lemma nodes_loop_read st :
  ∀ fuel b node0,
    length (blocks st) - b < fuel →
    nodes_loop fuel st (read st node0 b)
    = Ok (imap (λ i d, handle (b + i) d) (drop b (blocks st))).
Proof.
  induction fuel as [|fuel IH]; intros b node0 Hfuel; [lia|].
  destruct (blocks st !! b) as [d|] eqn:Hb.
  - rewrite (read_handle _ _ _ _ Hb). cbn [nodes_loop handle node_exists block].
    pose proof (lookup_lt_Some _ _ _ Hb) as Hlt.
    rewrite (IH (b + 1) (handle b d)) by lia. cbn [bind].
    rewrite (drop_S _ _ _ Hb). cbn [imap]. rewrite Nat.add_0_r.
    replace (b + 1) with (S b) by lia.
    do 2 f_equal. apply imap_ext. intros i x _. simpl. f_equal. lia.
  - unfold read, storage_read. rewrite Hb. cbn [nodes_loop node_exists].
    apply lookup_ge_None in Hb. by rewrite drop_ge by lia.
Qed.

(** X2. [nodes_iter] yields the nodes of the store from the root on, one per
    block and in the order of the blocks, whatever the blocks hold. *)
Theorem nodes_iter_in_block_order (st : Storage) :
  nodes_iter st
  = Ok (imap (λ i d, handle (LRU_TRIE_NODE_HEADER_BLOCKS + i) d)
             (drop LRU_TRIE_NODE_HEADER_BLOCKS (blocks st))).
Proof.
  unfold nodes_iter, root, node_of_block. apply nodes_loop_read.
  unfold scan_fuel. lia.
Qed.

Lemma siblings_loop_chain st :
  fwd (blocks st) →
  ∀ b, b < length (blocks st) →
  ∀ d fuel, blocks st !! b = Some d → length (blocks st) - b ≤ fuel →
    siblings_loop fuel st (handle b d)
    = Ok (node_of_block st <$> tail (chain (blocks st) b)).
Proof.
  intros Hf. apply (chain_ind (blocks st)
    (λ b, ∀ d fuel, blocks st !! b = Some d → length (blocks st) - b ≤ fuel →
          siblings_loop fuel st (handle b d)
          = Ok (node_of_block st <$> tail (chain (blocks st) b))) Hf).
  intros b d Hb IH d' fuel Hb' Hfuel.
  assert (d' = d) as -> by congruence.
  pose proof (lookup_lt_Some _ _ _ Hb) as Hlt.
  destruct fuel as [|fuel]; [lia|].
  rewrite (chain_unfold _ _ _ Hf Hb). cbn [tail siblings_loop].
  unfold has_next, read_next, has_next. cbn [handle data].
  destruct (n_next d =? 0) eqn:Hz; cbn [negb]; [done|].
  apply Nat.eqb_neq in Hz.
  destruct (Hf b d Hb) as [[?|Hnx] _]; [done|].
  destruct (lookup_lt_is_Some_2 (blocks st) (n_next d) (proj2 Hnx)) as [dn Hdn].
  rewrite (read_handle _ _ _ _ Hdn). cbn [bind].
  rewrite (IH Hz dn fuel Hdn) by lia. cbn [bind].
  rewrite (chain_unfold _ _ _ Hf Hdn). cbn [tail fmap list_fmap].
  by rewrite (node_of_block_handle _ _ _ Hdn).
Qed.

(** X3. On a well-formed store, [node_siblings_iter] of a stored node yields
    the nodes that follow it on its sibling list, in the order of the
    list, and not the node itself. *)
Theorem node_siblings_iter_is_rest_of_list (st : Storage) (b : nat) (d : NodeData) :
  wf st → blocks st !! b = Some d →
  node_siblings_iter st (handle b d)
  = Ok (node_of_block st <$> tail (chain (blocks st) b))
  ∧ b ∉ tail (chain (blocks st) b).
Proof.
  intros [_ Hf] Hb. split.
  - unfold node_siblings_iter, next_node, has_next. cbn [handle data].
    rewrite (chain_unfold _ _ _ Hf Hb). cbn [tail].
    destruct (n_next d =? 0) eqn:Hz; cbn [negb]; [done|].
    apply Nat.eqb_neq in Hz.
    destruct (Hf b d Hb) as [[?|Hnx] _]; [done|].
    destruct (lookup_lt_is_Some_2 (blocks st) (n_next d) (proj2 Hnx)) as [dn Hdn].
    rewrite (node_of_block_handle _ _ _ Hdn). cbn [bind].
    rewrite (siblings_loop_chain st Hf (n_next d) (proj2 Hnx) dn (scan_fuel st) Hdn)
      by (unfold scan_fuel; lia).
    cbn [bind]. rewrite (chain_unfold _ _ _ Hf Hdn). cbn [tail fmap list_fmap].
    by rewrite (node_of_block_handle _ _ _ Hdn).
  - rewrite (chain_unfold _ _ _ Hf Hb). cbn [tail].
    destruct (n_next d =? 0) eqn:Hz; [by intros ?%elem_of_nil|].
    apply Nat.eqb_neq in Hz.
    destruct (Hf b d Hb) as [[?|Hnx] _]; [done|].
    intros Hin. apply (chain_mem _ _ _ Hf) in Hin. lia.
Qed.

(** ** Paths on later states of the store *)

Lemma pwalk_lookup bs lru :
  ∀ rest i b h v dv hv,
    pwalk bs lru rest i b h = Some (v, dv, hv) → bs !! v = Some dv.
Proof.
  induction rest as [|c rest IH]; intros i b h v dv hv Hp; [done|].
  rewrite pwalk_cons in Hp.
  destruct (find_sibling bs (ord c) (chain bs b)) as [x|]; [|done].
  destruct (bs !! x) as [dx|] eqn:Hx; [|done].
  unfold pwalk_below in Hp. destruct rest as [|c' rest'].
  - by simplify_eq.
  - destruct (n_child dx =? 0); [done|]. by apply IH in Hp.
Qed.

(** The node a path leads to does not depend on the history the walk
    carries, and a later state of the store has the same path. *)
Lemma pwalk_ext bs bs1 lru lru1 :
  ext bs bs1 → fwd bs → fwd bs1 →
  ∀ rest i i1 b h h1 v dv hv,
    pwalk bs lru rest i b h = Some (v, dv, hv) →
    ∃ dv1 hv1, pwalk bs1 lru1 rest i1 b h1 = Some (v, dv1, hv1).
Proof.
  intros He Hf Hf1.
  induction rest as [|c rest IH]; intros i i1 b h h1 v dv hv Hp; [done|].
  rewrite pwalk_cons in Hp. rewrite pwalk_cons.
  destruct (find_sibling bs (ord c) (chain bs b)) as [x|] eqn:Hfind; [|done].
  rewrite (find_sibling_ext _ _ _ _ _ He Hf Hf1 Hfind).
  destruct (bs !! x) as [dx|] eqn:Hx; [|done].
  destruct (ext_old _ _ He _ _ Hx) as (dx1 & Hx1 & _ & _ & _ & Hch & _).
  rewrite Hx1. unfold pwalk_below in *. destruct rest as [|c' rest'].
  - simplify_eq. by eexists _, _.
  - destruct (n_child dx =? 0) eqn:Hz; [done|].
    apply Nat.eqb_neq in Hz. rewrite (Hch Hz).
    apply Nat.eqb_neq in Hz. rewrite Hz. by eapply IH.
Qed.

(** A path goes through the nodes of its prefixes. *)
Lemma pwalk_prefix bs lru lru1 :
  fwd bs →
  ∀ q rest i i1 b h h1 r,
    q ≠ EmptyString →
    pwalk bs lru (String.append q rest) i b h = Some r →
    ∃ r1, pwalk bs lru1 q i1 b h1 = Some r1.
Proof.
  intros Hf.
  induction q as [|c q IH]; intros rest i i1 b h h1 r Hne Hp; [done|].
  change (String.append (String c q) rest)
    with (String c (String.append q rest)) in Hp.
  rewrite pwalk_cons in Hp. rewrite pwalk_cons.
  destruct (find_sibling bs (ord c) (chain bs b)) as [x|]; [|done].
  destruct (bs !! x) as [dx|]; [|done].
  unfold pwalk_below in *. destruct q as [|c' q'].
  - by eexists.
  - change (String.append (String c' q') rest)
      with (String c' (String.append q' rest)) in Hp.
    destruct (n_child dx =? 0); [done|].
    change (String c' (String.append q' rest))
      with (String.append (String c' q') rest) in Hp.
    by eapply IH.
Qed.

(** ** Lookups *)

Lemma lru_node_pwalk lru st :
  wf st → LRU_TRIE_NODE_HEADER_BLOCKS < length (blocks st) →
  lru ≠ EmptyString →
  lru_node lru st
  = Ok (found_handle (pwalk (blocks st) lru lru 0 LRU_TRIE_NODE_HEADER_BLOCKS
                            new_history)).
Proof.
  intros Hw Hroot Hne. unfold lru_node, root.
  by apply lru_node_from_spec.
Qed.

(** Without a root, [lru_node] has only the handle of the missing root to
    return: a node that is on no block. *)
Lemma lru_node_rootless lru st n :
  length (blocks st) ≤ LRU_TRIE_NODE_HEADER_BLOCKS →
  lru_node lru st = Ok (Some n) → block n = None.
Proof.
  intros Hlen. unfold lru_node, root. rewrite node_of_block_missing by done.
  destruct lru as [|c rest]; cbn [lru_node_from].
  - intros ?. by simplify_eq.
  - unfold scan_fuel. cbn [seek]. unfold char, has_next, has_child.
    cbn [data default_data n_char n_next n_child Nat.eqb negb].
    destruct (0 =? ord c)%Z; cbn [negb bind]; [|done].
    destruct rest; [intros ?; by simplify_eq|].
    cbn [data default_data n_child Nat.eqb negb]. done.
Qed.

(** What [lru_node] finds stays where it is when the store moves on. *)
Lemma lookup_kept st st' lru n b :
  wf st → steps st st' →
  lru_node lru st = Ok (Some n) → block n = Some b →
  ∃ n', lru_node lru st' = Ok (Some n')
        ∧ block n' = Some b ∧ node_exists n' = true
        ∧ char n' = char n ∧ parent n' = parent n
        ∧ (is_page n = true → is_page n' = true).
Proof.
  intros Hw Hsteps Hl Hb.
  pose proof (steps_wf _ _ Hw Hsteps) as Hw'.
  pose proof (steps_ext _ _ Hw Hsteps) as He.
  destruct (decide (length (blocks st) ≤ LRU_TRIE_NODE_HEADER_BLOCKS)) as [Hno|Hroot].
  { rewrite (lru_node_rootless _ _ _ Hno Hl) in Hb. done. }
  assert (LRU_TRIE_NODE_HEADER_BLOCKS < length (blocks st')) as Hroot'
    by (pose proof (ext_len _ _ He); lia).
  assert (∀ v dv, n = handle v dv → blocks st !! v = Some dv →
          ∀ dv1, lru_node lru st' = Ok (Some (handle v dv1)) →
                 blocks st' !! v = Some dv1 →
          ∃ n', lru_node lru st' = Ok (Some n')
                ∧ block n' = Some b ∧ node_exists n' = true
                ∧ char n' = char n ∧ parent n' = parent n
                ∧ (is_page n = true → is_page n' = true)) as Hfin.
  { intros v dv -> Hv dv1 Hl1 Hv1.
    destruct (ext_old _ _ He _ _ Hv) as (dx & Hx & Hc & Hp & _ & _ & _ & _ & Hpg).
    assert (dx = dv1) as -> by congruence.
    exists (handle v dv1). split; [done|]. split; [done|]. split; [done|].
    unfold char, parent, is_page. cbn [handle data].
    split; [done|]. split; [done|]. apply Hpg. }
  destruct (decide (lru = EmptyString)) as [->|Hne].
  - unfold lru_node in *. cbn [lru_node_from] in *. simplify_eq.
    destruct (lookup_lt_is_Some_2 (blocks st) LRU_TRIE_NODE_HEADER_BLOCKS)
      as [d Hd]; [lia|].
    destruct (ext_old _ _ He _ _ Hd) as (d1 & Hd1 & _).
    refine (Hfin _ d _ Hd d1 _ Hd1); unfold root.
    + by rewrite (node_of_block_handle _ _ _ Hd).
    + by rewrite (node_of_block_handle _ _ _ Hd1).
  - rewrite (lru_node_pwalk _ _ Hw) in Hl by (done || lia).
    destruct (pwalk (blocks st) lru lru 0 LRU_TRIE_NODE_HEADER_BLOCKS new_history)
      as [[[v dv] hv]|] eqn:Hp; [|done].
    cbn [found_handle] in Hl. simplify_eq.
    destruct (pwalk_ext _ _ lru lru He (proj2 Hw) (proj2 Hw') _ 0 0 _ _ new_history
                _ _ _ Hp) as (dv1 & hv1 & Hp1).
    refine (Hfin v dv eq_refl (pwalk_lookup _ _ _ _ _ _ _ _ _ Hp) dv1 _
                 (pwalk_lookup _ _ _ _ _ _ _ _ _ Hp1)).
    rewrite (lru_node_pwalk _ _ Hw') by done. by rewrite Hp1.
Qed.

(** [add_lru] returns the node that [lru_node] finds afterwards. *)
Lemma add_lru_then_lookup lru st n history st' :
  wf st → lru ≠ EmptyString →
  add_lru lru st = Ok (n, history, st') →
  lru_node lru st' = Ok (Some n) ∧ ∃ b, block n = Some b ∧ node_exists n = true.
Proof.
  intros Hw Hne Hadd.
  destruct (add_lru_spec lru st Hw Hne)
    as (v & dv & h & s & Hadd' & Hsteps & Hv & Hv0 & Hpath).
  rewrite Hadd in Hadd'. simplify_eq.
  pose proof (steps_wf _ _ Hw Hsteps) as Hw'.
  destruct (Hpath (blocks s) (ext_refl _) (proj2 Hw'))
    as (dv1 & h2 & i' & Hv1 & _ & Hp).
  assert (dv1 = dv) as -> by congruence.
  split; [by apply (lru_node_present lru s v dv h2)|]. by exists v.
Qed.

(** ** Lookups that fail *)

(** The walk of an LRU fails from the sibling list headed by the block
    [h]: no member of the list carries the character; or the member that
    carries it has no child while characters are left; or the walk fails
    from the list of its children. *)
Inductive off_trie (bs : list NodeData) : nat → string → Prop :=
| off_trie_char h c rest :
    Forall (λ a, char_at bs a ≠ ord c) (chain bs h) →
    off_trie bs h (String c rest)
| off_trie_child h c c' rest v dv :
    find_sibling bs (ord c) (chain bs h) = Some v →
    bs !! v = Some dv → n_child dv = 0 →
    off_trie bs h (String c (String c' rest))
| off_trie_below h c c' rest v dv :
    find_sibling bs (ord c) (chain bs h) = Some v →
    bs !! v = Some dv → n_child dv ≠ 0 →
    off_trie bs (n_child dv) (String c' rest) →
    off_trie bs h (String c (String c' rest)).

Lemma find_sibling_Forall bs c l :
  find_sibling bs c l = None ↔ Forall (λ a, char_at bs a ≠ c) l.
Proof.
  induction l as [|a l IH]; [by split|]. rewrite find_sibling_cons.
  destruct (char_at bs a =? c)%Z eqn:E.
  - apply Z.eqb_eq in E. split; [done|]. by intros [? _]%Forall_cons.
  - apply Z.eqb_neq in E. rewrite IH. split.
    + intros Hl. by apply Forall_cons.
    + by intros [_ ?]%Forall_cons.
Qed.

Lemma off_trie_pwalk bs lru0 h rest :
  off_trie bs h rest → ∀ i history, pwalk bs lru0 rest i h history = None.
Proof.
  induction 1 as [h c rest Hall|h c c' rest v dv Hfind Hv Hz
                 |h c c' rest v dv Hfind Hv Hz _ IH]; intros i history;
    rewrite pwalk_cons.
  - by rewrite (proj2 (find_sibling_Forall _ _ _) Hall).
  - rewrite Hfind, Hv. cbn [pwalk_below]. by rewrite Hz.
  - rewrite Hfind, Hv. cbn [pwalk_below].
    rewrite (proj2 (Nat.eqb_neq _ _) Hz). apply IH.
Qed.

Lemma pwalk_off_trie bs lru0 :
  fwd bs →
  ∀ rest i h history,
    rest ≠ EmptyString → pwalk bs lru0 rest i h history = None →
    off_trie bs h rest.
Proof.
  intros Hf.
  induction rest as [|c rest IH]; intros i h history Hne Hp; [done|].
  rewrite pwalk_cons in Hp.
  destruct (find_sibling bs (ord c) (chain bs h)) as [v|] eqn:Hfind.
  2: { apply off_trie_char. by apply find_sibling_Forall. }
  pose proof Hfind as [Hin _]%find_sibling_Some.
  destruct (chain_mem _ _ _ Hf Hin) as [_ Hlt].
  destruct (lookup_lt_is_Some_2 _ _ Hlt) as [dv Hv]. rewrite Hv in Hp.
  destruct rest as [|c' rest']; [done|].
  cbn [pwalk_below] in Hp.
  destruct (n_child dv =? 0) eqn:Hz.
  - apply Nat.eqb_eq in Hz. by eapply off_trie_child.
  - apply Nat.eqb_neq in Hz. eapply off_trie_below; [done|done|done|].
    by eapply IH.
Qed.

(** X25. On a well-formed store, [add_lru] of a non-empty LRU returns a node
    on a block, and [lru_node] of the same LRU then returns the node of
    that block. When the root is stored, [lru_node] returns nothing for a
    non-empty LRU exactly when its walk fails on the sibling lists: at some
    index no member of the sibling list carries the character, or the
    member that carries it has no child while characters are left. *)
Theorem lookup_round_trip_and_misses (st : Storage) :
  wf st →
  (∀ lru, lru ≠ EmptyString →
     ∃ n history st' b,
       add_lru lru st = Ok (n, history, st')
       ∧ block n = Some b
       ∧ ∃ n', lru_node lru st' = Ok (Some n') ∧ block n' = Some b)
  ∧ (LRU_TRIE_NODE_HEADER_BLOCKS < length (blocks st) →
     ∀ lru, lru ≠ EmptyString →
       (lru_node lru st = Ok None
        ↔ off_trie (blocks st) LRU_TRIE_NODE_HEADER_BLOCKS lru)).
Proof.
  intros Hw. split.
  - intros lru Hne.
    destruct (add_lru_spec lru st Hw Hne)
      as (v & dv & history & st' & Hadd & _).
    destruct (add_lru_then_lookup _ _ _ _ _ Hw Hne Hadd) as (Hl & b & Hb & _).
    exists (handle v dv), history, st', b. split; [done|]. split; [done|].
    by exists (handle v dv).
  - intros Hroot lru Hne. rewrite (lru_node_pwalk _ _ Hw Hroot Hne). split.
    + intros Hl.
      apply (pwalk_off_trie _ lru (proj2 Hw) _ 0 _ new_history Hne).
      by destruct (pwalk (blocks st) lru lru 0 _ new_history) as [[[? ?] ?]|].
    + intros Hoff. by rewrite (off_trie_pwalk _ lru _ _ Hoff).
Qed.

(** A node that [lru_node] finds on a block is the node stored there. *)
Lemma lru_node_stored lru st n b :
  wf st → lru_node lru st = Ok (Some n) → block n = Some b →
  ∃ d, n = handle b d ∧ blocks st !! b = Some d.
Proof.
  intros Hw Hl Hb.
  destruct (decide (length (blocks st) ≤ LRU_TRIE_NODE_HEADER_BLOCKS)) as [Hno|Hroot].
  { rewrite (lru_node_rootless _ _ _ Hno Hl) in Hb. done. }
  destruct (decide (lru = EmptyString)) as [->|Hne].
  - unfold lru_node in Hl. cbn [lru_node_from] in Hl. simplify_eq.
    destruct (lookup_lt_is_Some_2 (blocks st) LRU_TRIE_NODE_HEADER_BLOCKS)
      as [d Hd]; [lia|].
    unfold root in *. rewrite (node_of_block_handle _ _ _ Hd) in *.
    cbn [handle block] in Hb. simplify_eq. by exists d.
  - rewrite (lru_node_pwalk _ _ Hw) in Hl by (done || lia).
    destruct (pwalk (blocks st) lru lru 0 LRU_TRIE_NODE_HEADER_BLOCKS new_history)
      as [[[v dv] hv]|] eqn:Hp; [|done].
    cbn [found_handle] in Hl. simplify_eq. cbn [handle block] in Hb. simplify_eq.
    exists dv. split; [done|]. by eapply pwalk_lookup.
Qed.

(** ** Insertion *)

(** X4. On a well-formed store [add_lru] returns, and a second [add_lru] of
    the same LRU returns the same node and leaves the store, its journal
    included, as the first left it: it writes nothing. *)
Theorem add_lru_twice_writes_nothing (lru : string) (st : Storage) :
  wf st →
  ∃ n history st',
    add_lru lru st = Ok (n, history, st')
    ∧ ∃ history', add_lru lru st' = Ok (n, history', st').
Proof.
  intros Hw. destruct (decide (lru = EmptyString)) as [->|Hne].
  - exists (root st), new_history, st. split; [apply add_lru_empty|].
    exists new_history. apply add_lru_empty.
  - destruct (add_lru_later lru st Hw (or_introl Hne))
      as (v & dv & history & st' & Hadd & Hsteps & Hv & _ & Hlater).
    exists (handle v dv), history, st'. split; [done|].
    destruct (Hlater st' (ext_refl _) (steps_wf _ _ Hw Hsteps))
      as (dv1 & h2 & _ & Hv1 & _ & Hadd2).
    assert (dv1 = dv) as -> by congruence. by exists h2.
Qed.

(** X5. What [lru_node] finds on a block before an insertion, it finds on the
    same block after it, with the same character and parent, and still a
    page if it was one: [add_lru] and [add_page] of any LRU move and
    remove nothing. *)
Theorem insertion_keeps_what_is_stored
    (st : Storage) (lru other : string) (n : LRUTrieNode) (b : nat) :
  wf st → lru_node lru st = Ok (Some n) → block n = Some b →
  (∃ m history st',
     add_lru other st = Ok (m, history, st')
     ∧ ∃ n', lru_node lru st' = Ok (Some n')
             ∧ block n' = Some b ∧ node_exists n' = true
             ∧ char n' = char n ∧ parent n' = parent n
             ∧ (is_page n = true → is_page n' = true))
  ∧ (∃ m history st',
       add_page other st = Ok (m, history, st')
       ∧ ∃ n', lru_node lru st' = Ok (Some n')
               ∧ block n' = Some b ∧ node_exists n' = true
               ∧ char n' = char n ∧ parent n' = parent n
               ∧ (is_page n = true → is_page n' = true)).
Proof.
  intros Hw Hl Hb. split.
  - destruct (add_lru_steps other st Hw) as (m & h & st' & Hadd & Hsteps).
    exists m, h, st'. split; [done|]. by apply (lookup_kept st).
  - destruct (add_page_spec other st Hw)
      as (v & dv & h & st' & Hadd & Hsteps & _).
    exists (handle v dv), h, st'. split; [done|]. by apply (lookup_kept st).
Qed.

(** X6. After [add_lru] of an LRU, [lru_node] finds a stored node for every
    non-empty prefix of it: the nodes on the way are all there. *)
Theorem prefixes_of_an_lru_are_stored (st : Storage) (q rest : string) :
  wf st → q ≠ EmptyString →
  ∃ n history st',
    add_lru (String.append q rest) st = Ok (n, history, st')
    ∧ ∃ m b, lru_node q st' = Ok (Some m)
             ∧ block m = Some b ∧ node_exists m = true.
Proof.
  intros Hw Hq.
  assert (String.append q rest ≠ EmptyString) as Hne by (by destruct q).
  destruct (add_lru_spec _ st Hw Hne)
    as (v & dv & history & st' & Hadd & Hsteps & Hv & Hv0 & Hpath).
  pose proof (steps_wf _ _ Hw Hsteps) as Hw'.
  destruct (Hpath (blocks st') (ext_refl _) (proj2 Hw'))
    as (dv1 & h2 & i' & Hv1 & _ & Hp).
  destruct (pwalk_prefix _ _ q (proj2 Hw') q rest 0 0 _ _ new_history _ Hq Hp)
    as [[[x dx] hx] Hpx].
  exists (handle v dv), history, st'. split; [done|].
  exists (handle x dx), x. split; [|done].
  by apply (lru_node_present q st' x dx hx).
Qed.

(** The walk of [add_lru] never sets [page_was_created]. *)
Lemma descend_page_was_created lru :
  ∀ rest i node history st n h r st',
    descend lru rest i node history st = Ok (n, h, r, st') →
    page_was_created h = page_was_created history.
Proof.
  induction rest as [|c rest IH]; intros i node history st n h r st' Hd.
  - cbn [descend] in Hd. by simplify_eq.
  - cbn [descend] in Hd.
    destruct (ensure_char_from_siblings st node (ord c)) as [[n1 st1]|e];
      cbn [bind] in Hd; [|done].
    set (h1 := if has_webentity n1
               then update_webentity (webentity n1) (substring 0 i lru) i history
               else history) in Hd.
    set (h2 := if has_webentity_creation_rule n1
               then update_webentity_creation_rule
                      (webentity_creation_rule lru i n1) i h1
               else h1) in Hd.
    assert (page_was_created h2 = page_was_created history) as Hh.
    { unfold h2, h1.
      destruct (has_webentity_creation_rule n1), (has_webentity n1); done. }
    destruct rest as [|c' rest'].
    + by simplify_eq.
    + destruct (has_child n1); [|by simplify_eq].
      destruct (read_child st1 n1) as [n2|e]; cbn [bind] in Hd; [|done].
      apply IH in Hd. congruence.
Qed.

Lemma add_lru_page_was_created lru st n h st' :
  add_lru lru st = Ok (n, h, st') → page_was_created h = false.
Proof.
  unfold add_lru. intros Hadd.
  destruct (descend lru lru 0 (root st) new_history st)
    as [[[[n1 h1] r1] st1]|e] eqn:Hd; cbn [bind] in Hadd; [|done].
  destruct (extend r1 n1 st1) as [[n2 st2]|e]; cbn [bind] in Hadd; [|done].
  simplify_eq. by apply descend_page_was_created in Hd.
Qed.

(** X7. [add_page] returns a node flagged as a page; [page_was_created] tells
    whether the node that [add_lru] returned for it was not one yet. A
    second [add_page] of the same LRU returns the same node, reports no
    creation and writes nothing, and [lru_node] finds the page. *)
Theorem add_page_flags_once (lru : string) (st : Storage) :
  wf st →
  ∃ n history st',
    add_page lru st = Ok (n, history, st')
    ∧ is_page n = true
    ∧ (∃ m h0 st0, add_lru lru st = Ok (m, h0, st0)
                   ∧ page_was_created history = negb (is_page m))
    ∧ (∃ history', add_page lru st' = Ok (n, history', st')
                   ∧ page_was_created history' = false)
    ∧ (lru ≠ EmptyString → lru_node lru st' = Ok (Some n)).
Proof.
  intros Hw.
  destruct (decide (lru = EmptyString
                    ∧ length (blocks st) ≤ LRU_TRIE_NODE_HEADER_BLOCKS))
    as [[-> Hmiss]|Hcase].
  - assert (length (blocks st) = LRU_TRIE_NODE_HEADER_BLOCKS) as Hl.
    { destruct Hw. change LRU_TRIE_NODE_HEADER_BLOCKS with 1 in *. lia. }
    unfold add_page. rewrite add_lru_empty. cbn [bind].
    unfold root. rewrite node_of_block_missing by lia.
    set (d := set_flags (flag 0 LRU_TRIE_NODE_FLAG_PAGE) (default_data 0%Z)).
    set (st' := {| blocks := blocks st ++ [d];
                   journal := journal st ++ [(length (blocks st), d)] |}).
    assert (blocks st' !! LRU_TRIE_NODE_HEADER_BLOCKS = Some d) as Hd.
    { simpl. rewrite <- Hl, lookup_app_r by lia. by rewrite Nat.sub_diag. }
    exists (handle LRU_TRIE_NODE_HEADER_BLOCKS d),
      (set_page_was_created true new_history), st'.
    split; [by rewrite <- Hl|]. split; [done|].
    split; [by eexists _, _, _|]. split; [|done].
    exists new_history. split; [|done].
    rewrite add_lru_empty. cbn [bind]. unfold root.
    by rewrite (node_of_block_handle _ _ _ Hd).
  - destruct (add_lru_later lru st Hw) as
      (v & dv & history & sa & Hadd & Hsteps & Hv & Hv0 & Hl).
    { destruct (decide (lru = EmptyString)) as [E|E]; [right|by left].
      destruct (decide (length (blocks st) ≤ LRU_TRIE_NODE_HEADER_BLOCKS));
        [by destruct Hcase|lia]. }
    pose proof (steps_wf _ _ Hw Hsteps) as Hwa.
    pose proof (add_lru_page_was_created _ _ _ _ _ Hadd) as Hfresh.
    assert (∀ d st',
      wf st' → ext (blocks sa) (blocks st') → blocks st' !! v = Some d →
      page_bit d = true →
      (∃ history', add_page lru st' = Ok (handle v d, history', st')
                   ∧ page_was_created history' = false)
      ∧ (lru ≠ EmptyString → lru_node lru st' = Ok (Some (handle v d))))
      as Hagain.
    { intros d st' Hw' He Hd Hpg.
      destruct (Hl st' He Hw') as (dv1 & h2 & _ & Hv1 & _ & Hadd2).
      assert (dv1 = d) as -> by congruence. split.
      - exists h2. split; [|by eapply add_lru_page_was_created].
        unfold add_page. rewrite Hadd2. cbn [bind].
        unfold is_page. cbn [data handle]. fold (page_bit d). by rewrite Hpg.
      - intros Hne. by destruct (add_lru_then_lookup _ _ _ _ _ Hw' Hne Hadd2). }
    unfold add_page at 1. rewrite Hadd. cbn [bind].
    unfold is_page at 1. cbn [data handle]. fold (page_bit dv).
    destruct (page_bit dv) eqn:Hpg; cbn [negb].
    + exists (handle v dv), history, sa. split; [done|]. split; [done|].
      split.
      { exists (handle v dv), history, sa. split; [done|].
        unfold is_page. cbn [data handle]. fold (page_bit dv).
        by rewrite Hpg, Hfresh. }
      by apply Hagain; [|apply ext_refl| |].
    + unfold flag_as_page, with_data. cbn [data handle block node_exists].
      set (d := set_flags (flag (n_flags dv) LRU_TRIE_NODE_FLAG_PAGE) dv).
      change {| block := Some v; node_exists := true; data := d |} with (handle v d).
      rewrite write_handle.
      set (st' := {| blocks := <[v := d]> (blocks sa);
                     journal := journal sa ++ [(v, d)] |}).
      destruct (page_bit_flag dv) as (Hp1 & Hp2 & Hp3).
      assert (step sa st') as Hstep.
      { apply (step_flags sa v dv d); try done; by rewrite Hpg. }
      assert (blocks st' !! v = Some d) as Hd.
      { simpl. apply list_lookup_insert_eq. by eapply lookup_lt_Some. }
      exists (handle v d), (set_page_was_created true history), st'.
      split; [done|]. split; [done|]. split.
      { exists (handle v dv), history, sa. split; [done|].
        unfold is_page. cbn [data handle]. fold (page_bit dv).
        by rewrite Hpg. }
      apply Hagain; [by eapply step_wf|by apply step_ext|done|done].
Qed.

(** ** The blocks an insertion allocates *)

Lemma read_block st node b : block node ≠ None → block (read st node b) ≠ None.
Proof. unfold read. by destruct (storage_read st b). Qed.

Lemma follow_siblings_block st c :
  ∀ fuel node found node',
    follow_siblings fuel st node c = Ok (found, node') →
    block node ≠ None → block node' ≠ None.
Proof.
  induction fuel as [|fuel IH]; intros node found node' Hf Hb; [done|].
  cbn [follow_siblings] in Hf.
  destruct (char node =? c)%Z; [by simplify_eq|].
  unfold read_next in Hf. destruct (has_next node); [|by simplify_eq].
  cbn [bind] in Hf. apply IH in Hf; [done|]. by apply read_block.
Qed.

Lemma write_length st node node' st' :
  write st node = (node', st') →
  block node' ≠ None
  ∧ (block node ≠ None → length (blocks st') = length (blocks st))
  ∧ (block node = None → length (blocks st') = S (length (blocks st))).
Proof.
  unfold write, storage_write. destruct (block node) as [b|]; intros ?; simplify_eq.
  - cbn [block blocks]. rewrite length_insert. done.
  - cbn [block blocks]. rewrite length_app. cbn [length].
    split; [done|]. split; [done|]. intros _. lia.
Qed.

Lemma ensure_char_length st node c node' st' :
  (node_exists node = true → block node ≠ None) →
  ensure_char_from_siblings st node c = Ok (node', st') →
  block node' ≠ None
  ∧ length (blocks st) ≤ length (blocks st') ≤ S (length (blocks st)).
Proof.
  intros Hi. unfold ensure_char_from_siblings.
  destruct (node_exists node) eqn:He; cbn [negb].
  - destruct (follow_siblings (scan_fuel st) st node c) as [[found n1]|e] eqn:Hf;
      cbn [bind]; [|done].
    pose proof (follow_siblings_block _ _ _ _ _ _ Hf (Hi eq_refl)) as Hb1.
    destruct found; [intros ?; simplify_eq; split; [done|lia]|].
    destruct (write st (set_parent (parent n1) (node_of_char c)))
      as [sibling st1] eqn:Hw1.
    destruct (write_length _ _ _ _ Hw1) as (Hsb & _ & Hl1).
    specialize (Hl1 eq_refl).
    unfold block_value. destruct (block sibling) as [sb|] eqn:Hs; [|done].
    cbn [bind].
    destruct (write st1 (set_next sb n1)) as [n2 st2] eqn:Hw2.
    destruct (write_length _ _ _ _ Hw2) as (_ & Hl2 & _).
    specialize (Hl2 Hb1).
    intros ?; simplify_eq. split; [by rewrite Hs|]. lia.
  - destruct (write st (set_char c node)) as [n1 st1] eqn:Hw1.
    destruct (write_length _ _ _ _ Hw1) as (Hb1 & Hsame & Hnew).
    intros ?; simplify_eq. split; [done|].
    destruct (block (set_char c node)) eqn:Hbn.
    + rewrite Hsame by done. lia.
    + rewrite Hnew by done. lia.
Qed.

Lemma descend_length lru :
  ∀ rest i node history st n h r st',
    (node_exists node = true → block node ≠ None) →
    descend lru rest i node history st = Ok (n, h, r, st') →
    length (blocks st) ≤ length (blocks st')
    ∧ length (blocks st') + String.length r
      ≤ length (blocks st) + String.length rest
    ∧ (rest ≠ EmptyString → block n ≠ None).
Proof.
  induction rest as [|c rest IH]; intros i node history st n h r st' Hi Hd.
  - cbn [descend] in Hd. simplify_eq. split; [lia|]. split; [lia|done].
  - cbn [descend] in Hd.
    destruct (ensure_char_from_siblings st node (ord c)) as [[n1 st1]|e] eqn:He;
      cbn [bind] in Hd; [|done].
    destruct (ensure_char_length _ _ _ _ _ Hi He) as (Hb1 & Hl1).
    destruct rest as [|c' rest'].
    + simplify_eq. cbn [String.length]. split; [lia|]. split; [lia|done].
    + destruct (has_child n1).
      * unfold read_child in Hd. destruct (has_child n1); [|done].
        cbn [bind] in Hd. apply IH in Hd as (Hl2 & Hl3 & Hb2).
        -- cbn [String.length] in *. split; [lia|]. split; [lia|].
           intros _. by apply Hb2.
        -- intros _. by apply read_block.
      * simplify_eq. cbn [String.length]. split; [lia|]. split; [lia|done].
Qed.

Lemma extend_length :
  ∀ rest node st n st',
    extend rest node st = Ok (n, st') →
    length (blocks st') = length (blocks st) + String.length rest.
Proof.
  induction rest as [|c rest IH]; intros node st n st' He.
  - cbn [extend] in He. simplify_eq. cbn [String.length]. lia.
  - cbn [extend] in He. unfold block_value in He.
    destruct (block node) as [b|] eqn:Hb; [|done]. cbn [bind] in He.
    destruct (write st (set_parent b (node_of_char (ord c)))) as [child st1] eqn:Hw1.
    destruct (write_length _ _ _ _ Hw1) as (Hcb & _ & Hl1).
    specialize (Hl1 eq_refl).
    destruct (block child) as [cb|] eqn:Hc; [|done]. cbn [bind] in He.
    destruct (write st1 (set_child cb node)) as [n2 st2] eqn:Hw2.
    destruct (write_length _ _ _ _ Hw2) as (_ & Hl2 & _).
    rewrite <- Hl2 in Hl1 by (cbn; by rewrite Hb).
    apply IH in He. cbn [String.length]. lia.
Qed.

Lemma root_block st : node_exists (root st) = true → block (root st) ≠ None.
Proof.
  unfold root, node_of_block, read. by destruct (storage_read st _).
Qed.

Lemma add_lru_length lru st n h st' :
  add_lru lru st = Ok (n, h, st') →
  length (blocks st) ≤ length (blocks st')
  ∧ length (blocks st') ≤ length (blocks st) + String.length lru.
Proof.
  unfold add_lru. intros Hadd.
  destruct (descend lru lru 0 (root st) new_history st)
    as [[[[n1 h1] r1] st1]|e] eqn:Hd; cbn [bind] in Hadd; [|done].
  destruct (extend r1 n1 st1) as [[n2 st2]|e] eqn:He; cbn [bind] in Hadd; [|done].
  simplify_eq.
  apply descend_length in Hd as (Hl1 & Hl2 & _); [|apply root_block].
  apply extend_length in He. lia.
Qed.

(** X8. On a well-formed store [add_lru] returns with at most one block
    appended per character of the LRU and none removed; on a trie that is
    only its header it appends exactly one per character. *)
Theorem add_lru_allocates_at_most_its_length (lru : string) (st : Storage) :
  wf st →
  ∃ n history st',
    add_lru lru st = Ok (n, history, st')
    ∧ length (blocks st) ≤ length (blocks st')
    ∧ length (blocks st') ≤ length (blocks st) + String.length lru
    ∧ (length (blocks st) = LRU_TRIE_NODE_HEADER_BLOCKS →
       length (blocks st') = LRU_TRIE_NODE_HEADER_BLOCKS + String.length lru).
Proof.
  intros Hw.
  destruct (add_lru_steps lru st Hw) as (n & h & st' & Hadd & _).
  exists n, h, st'. split; [done|].
  destruct (add_lru_length _ _ _ _ _ Hadd) as [Hl1 Hl2].
  split; [done|]. split; [done|].
  intros Hlen. revert Hadd. unfold add_lru, root.
  rewrite node_of_block_missing by lia.
  destruct lru as [|c rest]; [cbn [descend bind extend]; intros ?; simplify_eq;
                              cbn [String.length]; lia|].
  cbn [descend]. unfold ensure_char_from_siblings. cbn [node_exists negb bind].
  unfold set_char, with_data. cbn [block node_exists data].
  rewrite write_missing.
  unfold has_webentity, has_webentity_creation_rule, has_child.
  cbn [handle data data_set_char default_data n_flags n_child Nat.eqb negb].
  change (test 0 LRU_TRIE_NODE_FLAG_WEBENTITY) with false.
  change (test 0 LRU_TRIE_NODE_FLAG_WEBENTITY_CREATION_RULE) with false.
  cbn iota.
  assert (∀ node st0,
    bind (extend rest node st0)
      (λ '(node0, st1), Ok (node0, new_history, st1)) = Ok (n, h, st') →
    length (blocks st') = length (blocks st0) + String.length rest) as Hext.
  { intros node st0 Hb.
    destruct (extend rest node st0) as [[n2 st2]|e] eqn:He; cbn [bind] in Hb; [|done].
    simplify_eq. by apply extend_length in He. }
  destruct rest as [|c' rest']; cbn [bind].
  - intros Hb. apply Hext in Hb. cbn [blocks] in Hb.
    rewrite length_app in Hb. cbn [length String.length] in *. lia.
  - intros Hb. apply Hext in Hb. cbn [blocks] in Hb.
    rewrite length_app in Hb. cbn [length String.length] in *. lia.
Qed.

(** ** Depth-first iteration *)

(** The header block is never linked to a sibling: the writes of the trie
    set the pointers of blocks past it only. *)
Definition header_clean (bs : list NodeData) : Prop :=
  ∃ d0, bs !! 0 = Some d0 ∧ n_next d0 = 0.

Lemma step_header st st' :
  wf st → header_clean (blocks st) → step st st' → header_clean (blocks st').
Proof.
  intros [Hlen Hf] (d0 & H0 & Hn) Hs. destruct Hs as
    [st d Hl _ _ _ _|st p t dt c Hlast Ht Hfind|st v dv c Hv0 Hv Hz
    |st b d d' Hb Hc Hnx Hch Hp _ _ _]; cbn [blocks].
  - exists d0. split; [|done]. rewrite lookup_app_l by lia. done.
  - exists d0. split; [|done].
    rewrite (new_sibling_lookup _ _ _ _ _ Ht).
    apply last_elem_of, (siblings_mem _ _ _ Hf) in Hlast.
    rewrite decide_False by lia. rewrite decide_False by lia. done.
  - exists d0. split; [|done].
    rewrite (new_child_lookup _ _ _ _ _ Hv).
    rewrite decide_False by lia. rewrite decide_False by lia. done.
  - destruct (decide (b = 0)) as [->|Hne].
    + exists d'. assert (d = d0) as -> by congruence.
      split; [|congruence]. apply list_lookup_insert_eq. lia.
    + exists d0. split; [|done]. by rewrite list_lookup_insert_ne.
Qed.

Lemma steps_header st st' :
  wf st → header_clean (blocks st) → steps st st' → header_clean (blocks st').
Proof.
  intros Hw Hh Hs. induction Hs as [|st1 st2 st3 H12 _ IH]; [done|].
  apply IH; [by eapply step_wf|by eapply step_header].
Qed.

Lemma empty_trie_header : header_clean (blocks empty_trie).
Proof. by exists (default_data 0%Z). Qed.

(** The order of [dfs_iter]: the blocks of the sibling list from [b] on,
    each followed by the blocks below it, with the LRU that [dfs_iter]
    yields for each; [lru] is the LRU of the parent of the list. *)
Fixpoint preorder_aux (fuel : nat) (bs : list NodeData) (b : nat) (lru : string)
  : list (nat * string) :=
  match fuel with
  | 0 => []
  | S fuel' =>
      match bs !! b with
      | None => []
      | Some d =>
          let here := String.append lru (String (chr (n_char d)) EmptyString) in
          (b, here)
          :: (if n_child d =? 0 then [] else preorder_aux fuel' bs (n_child d) here)
          ++ (if n_next d =? 0 then [] else preorder_aux fuel' bs (n_next d) lru)
      end
  end.

Definition preorder (bs : list NodeData) (b : nat) (lru : string)
  : list (nat * string) :=
  preorder_aux (length bs - b) bs b lru.

Lemma preorder_aux_fuel bs :
  fwd bs →
  ∀ f1 f2 b lru, length bs - b ≤ f1 → length bs - b ≤ f2 →
                 preorder_aux f1 bs b lru = preorder_aux f2 bs b lru.
Proof.
  intros Hf. induction f1 as [|f1 IH]; intros f2 b lru H1 H2.
  - assert (bs !! b = None) as Hn by (apply lookup_ge_None; lia).
    destruct f2; simpl; [done|]. by rewrite Hn.
  - destruct f2 as [|f2].
    + assert (bs !! b = None) as Hn by (apply lookup_ge_None; lia).
      simpl. by rewrite Hn.
    + simpl. destruct (bs !! b) as [d|] eqn:Hb; [|done].
      destruct (Hf b d Hb) as ([Hn|Hn] & [Hc|Hc] & _); f_equal.
      * by rewrite Hn, Hc.
      * rewrite Hn. cbn [Nat.eqb]. rewrite !app_nil_r.
        destruct (n_child d =? 0); [done|]. apply IH; lia.
      * rewrite Hc. cbn [Nat.eqb app].
        destruct (n_next d =? 0); [done|]. apply IH; lia.
      * f_equal.
        -- destruct (n_child d =? 0); [done|]. apply IH; lia.
        -- destruct (n_next d =? 0); [done|]. apply IH; lia.
Qed.

Lemma preorder_unfold bs b d lru :
  fwd bs → bs !! b = Some d →
  preorder bs b lru
  = (b, String.append lru (String (chr (n_char d)) EmptyString))
    :: (if n_child d =? 0 then []
        else preorder bs (n_child d)
               (String.append lru (String (chr (n_char d)) EmptyString)))
    ++ (if n_next d =? 0 then [] else preorder bs (n_next d) lru).
Proof.
  intros Hf Hb. unfold preorder.
  pose proof (lookup_lt_Some _ _ _ Hb) as Hlt.
  destruct (length bs - b) as [|k] eqn:Hk; [lia|].
  cbn [preorder_aux]. rewrite Hb. cbn zeta.
  destruct (Hf b d Hb) as (Hn & Hc & _). f_equal. f_equal.
  - destruct (n_child d =? 0) eqn:Hz; [done|]. apply Nat.eqb_neq in Hz.
    apply preorder_aux_fuel; [done|lia|lia].
  - destruct (n_next d =? 0) eqn:Hz; [done|]. apply Nat.eqb_neq in Hz.
    apply preorder_aux_fuel; [done|lia|lia].
Qed.

Lemma preorder_outside bs b lru : length bs ≤ b → preorder bs b lru = [].
Proof.
  intros H. unfold preorder. replace (length bs - b) with 0 by lia. done.
Qed.

(** Induction along both pointers of a well-formed store. *)
Lemma fwd_ind bs (P : nat → Prop) :
  fwd bs →
  (∀ b d, bs !! b = Some d →
          (n_child d ≠ 0 → P (n_child d)) →
          (n_next d ≠ 0 → P (n_next d)) → P b) →
  ∀ b, b < length bs → P b.
Proof.
  intros Hf Hstep.
  assert (∀ n b, length bs - b ≤ n → b < length bs → P b) as H.
  { induction n as [|n IH]; intros b Hn Hb; [lia|].
    destruct (lookup_lt_is_Some_2 bs b Hb) as [d Hd].
    destruct (Hf b d Hd) as (Hnx & Hch & _).
    apply (Hstep b d Hd); intros Hz.
    - destruct Hch; [done|]. apply IH; lia.
    - destruct Hnx; [done|]. apply IH; lia. }
  intros b Hb. by apply (H (length bs - b)).
Qed.

Lemma preorder_range bs :
  fwd bs →
  ∀ b, b < length bs →
  ∀ lru y s, (y, s) ∈ preorder bs b lru → b ≤ y < length bs.
Proof.
  intros Hf. apply (fwd_ind bs
    (λ b, ∀ lru y s, (y, s) ∈ preorder bs b lru → b ≤ y < length bs) Hf).
  intros b d Hb IHc IHn lru y s.
  rewrite (preorder_unfold _ _ _ _ Hf Hb).
  pose proof (lookup_lt_Some _ _ _ Hb) as Hlt.
  destruct (Hf b d Hb) as (Hnx & Hch & _).
  rewrite elem_of_cons, elem_of_app. intros [Heq|[Hin|Hin]].
  - simplify_eq. lia.
  - destruct (n_child d =? 0) eqn:Hz; [by apply elem_of_nil in Hin|].
    apply Nat.eqb_neq in Hz. destruct Hch; [done|].
    apply (IHc Hz) in Hin. lia.
  - destruct (n_next d =? 0) eqn:Hz; [by apply elem_of_nil in Hin|].
    apply Nat.eqb_neq in Hz. destruct Hnx; [done|].
    apply (IHn Hz) in Hin. lia.
Qed.

Lemma chain_next_mem bs :
  fwd bs →
  ∀ h, h < length bs →
  ∀ a d, a ∈ chain bs h → bs !! a = Some d → n_next d ≠ 0 →
         n_next d ∈ chain bs h.
Proof.
  intros Hf. apply (chain_ind bs
    (λ h, ∀ a d, a ∈ chain bs h → bs !! a = Some d → n_next d ≠ 0 →
                 n_next d ∈ chain bs h) Hf).
  intros h dh Hh IH a d Ha Hd Hz.
  rewrite (chain_unfold _ _ _ Hf Hh) in Ha |- *.
  apply elem_of_cons in Ha as [->|Ha].
  - assert (dh = d) as -> by congruence.
    apply Nat.eqb_neq in Hz as Hz'. rewrite Hz'. apply list_elem_of_further.
    destruct (Hf _ _ Hd) as [[?|Hnx] _]; [done|].
    destruct (lookup_lt_is_Some_2 bs (n_next d) (proj2 Hnx)) as [dn Hdn].
    rewrite (chain_unfold _ _ _ Hf Hdn). apply list_elem_of_here.
  - destruct (n_next dh =? 0) eqn:Hz'; [by apply elem_of_nil in Ha|].
    apply Nat.eqb_neq in Hz'. apply list_elem_of_further. by eapply IH.
Qed.

Lemma siblings_next bs p b d :
  fwd bs → b ∈ siblings bs p → bs !! b = Some d → n_next d ≠ 0 →
  n_next d ∈ siblings bs p.
Proof.
  intros Hf. unfold siblings.
  destruct (head_of bs p =? 0); [by intros ?%elem_of_nil|].
  intros Hb Hd Hz.
  destruct (decide (head_of bs p < length bs)) as [Hlt|Hge].
  - by apply (chain_next_mem bs Hf _ Hlt b d).
  - rewrite chain_outside in Hb by lia. by apply elem_of_nil in Hb.
Qed.

Lemma siblings_child bs b d :
  fwd bs → 0 < b → bs !! b = Some d → n_child d ≠ 0 →
  n_child d ∈ siblings bs b.
Proof.
  intros Hf Hb0 Hd Hz. unfold siblings.
  rewrite (head_of_child _ _ _ Hb0 Hd).
  apply Nat.eqb_neq in Hz as Hz'. rewrite Hz'.
  destruct (Hf _ _ Hd) as (_ & [?|Hc] & _); [done|].
  destruct (lookup_lt_is_Some_2 bs (n_child d) (proj2 Hc)) as [dc Hdc].
  rewrite (chain_unfold _ _ _ Hf Hdc). apply list_elem_of_here.
Qed.

Lemma siblings_root bs d :
  fwd bs → bs !! LRU_TRIE_NODE_HEADER_BLOCKS = Some d →
  LRU_TRIE_NODE_HEADER_BLOCKS ∈ siblings bs 0.
Proof.
  intros Hf Hd. unfold siblings. rewrite head_of_root.
  change (LRU_TRIE_NODE_HEADER_BLOCKS =? 0) with false. cbn iota.
  rewrite (chain_unfold _ _ _ Hf Hd). apply list_elem_of_here.
Qed.

Lemma siblings_parent_lt bs p b : fwd bs → b ∈ siblings bs p → p < b.
Proof.
  intros Hf Hbp. pose proof (siblings_mem _ _ _ Hf Hbp) as Hb0.
  destruct (decide (p = 0)) as [->|Hp0]; [lia|].
  revert Hbp. unfold siblings.
  destruct (head_of bs p =? 0) eqn:Hz; [by intros ?%elem_of_nil|].
  intros Hin. apply (chain_mem _ _ _ Hf) in Hin.
  enough (p < head_of bs p) by lia.
  unfold head_of in *. apply Nat.eqb_neq in Hp0 as Hp0'. rewrite Hp0' in *.
  destruct (bs !! p) as [dp|] eqn:Hdp; [|done].
  apply Nat.eqb_neq in Hz.
  destruct (Hf p dp Hdp) as (_ & [?|?] & _); [done|lia].
Qed.

(** [top bs p y t]: [t] is the child of [p] above [y], or [y] itself. *)
Inductive top (bs : list NodeData) (p : nat) : nat → nat → Prop :=
| top_here y d : bs !! y = Some d → n_parent d = p → top bs p y y
| top_up y d t :
    bs !! y = Some d → n_parent d ≠ p → top bs p (n_parent d) t → top bs p y t.

Lemma top_functional bs p y t1 t2 : top bs p y t1 → top bs p y t2 → t1 = t2.
Proof.
  intros H1. revert t2. induction H1 as [y d Hy Hp|y d t Hy Hp H1 IH];
    intros t2 H2.
  - inversion H2 as [y' d' Hy' Hp'|y' d' t' Hy' Hp' H']; subst; [done|].
    congruence.
  - inversion H2 as [y' d' Hy' Hp'|y' d' t' Hy' Hp' H']; subst.
    + congruence.
    + apply IH. congruence.
Qed.

Lemma preorder_top_below bs p t :
  tree bs →
  ∀ b, b < length bs →
  ∀ x lru y s, b ∈ siblings bs x → p < x → top bs p x t →
               (y, s) ∈ preorder bs b lru → top bs p y t.
Proof.
  intros Ht. pose proof (tree_fwd _ Ht) as Hf.
  apply (fwd_ind bs
    (λ b, ∀ x lru y s, b ∈ siblings bs x → p < x → top bs p x t →
                       (y, s) ∈ preorder bs b lru → top bs p y t) Hf).
  intros b d Hb IHc IHn x lru y s Hbx Hpx Htop.
  rewrite (preorder_unfold _ _ _ _ Hf Hb).
  destruct (tree_parent _ Ht _ _ Hbx) as (d' & Hb' & Hpar).
  assert (d' = d) as -> by congruence.
  pose proof (siblings_mem _ _ _ Hf Hbx) as Hb0.
  pose proof (siblings_parent_lt _ _ _ Hf Hbx) as Hxb.
  assert (top bs p b t) as Htb.
  { apply (top_up _ _ b d); [done|lia|by rewrite Hpar]. }
  rewrite elem_of_cons, elem_of_app. intros [Heq|[Hin|Hin]].
  - by simplify_eq.
  - destruct (n_child d =? 0) eqn:Hz; [by apply elem_of_nil in Hin|].
    apply Nat.eqb_neq in Hz.
    eapply (IHc Hz b); [apply (siblings_child _ _ d); [done|lia|done|done]|lia|done|exact Hin].
  - destruct (n_next d =? 0) eqn:Hz; [by apply elem_of_nil in Hin|].
    apply Nat.eqb_neq in Hz.
    eapply (IHn Hz x); [by eapply siblings_next|done|done|exact Hin].
Qed.

Lemma preorder_top bs :
  tree bs →
  ∀ b, b < length bs →
  ∀ p lru y s, b ∈ siblings bs p → (y, s) ∈ preorder bs b lru →
               ∃ t, top bs p y t ∧ b ≤ t.
Proof.
  intros Ht. pose proof (tree_fwd _ Ht) as Hf.
  apply (fwd_ind bs
    (λ b, ∀ p lru y s, b ∈ siblings bs p → (y, s) ∈ preorder bs b lru →
                       ∃ t, top bs p y t ∧ b ≤ t) Hf).
  intros b d Hb IHc IHn p lru y s Hbp.
  rewrite (preorder_unfold _ _ _ _ Hf Hb).
  destruct (tree_parent _ Ht _ _ Hbp) as (d' & Hb' & Hpar).
  assert (d' = d) as -> by congruence.
  pose proof (siblings_mem _ _ _ Hf Hbp) as Hb0.
  destruct (Hf b d Hb) as (Hnx & Hch & _).
  pose proof (siblings_parent_lt _ _ _ Hf Hbp) as Hpb.
  rewrite elem_of_cons, elem_of_app. intros [Heq|[Hin|Hin]].
  - simplify_eq. exists b. split; [by apply (top_here _ _ b d)|done].
  - destruct (n_child d =? 0) eqn:Hz; [by apply elem_of_nil in Hin|].
    apply Nat.eqb_neq in Hz. destruct Hch as [?|Hch]; [done|].
    exists b. split; [|done].
    eapply (preorder_top_below bs p b Ht (n_child d) (proj2 Hch) b);
      [apply (siblings_child _ _ d); [done|lia|done|done]|done|by apply (top_here _ _ b d)|exact Hin].
  - destruct (n_next d =? 0) eqn:Hz; [by apply elem_of_nil in Hin|].
    apply Nat.eqb_neq in Hz. destruct Hnx as [?|Hnx]; [done|].
    edestruct (IHn Hz p) as (t & Htop & Hle);
      [by eapply siblings_next|exact Hin|].
    exists t. split; [done|lia].
Qed.

(** No block comes twice in the order of [dfs_iter]. *)
Lemma preorder_NoDup bs :
  tree bs →
  ∀ b, b < length bs →
  ∀ p lru, b ∈ siblings bs p → NoDup (preorder bs b lru).*1.
Proof.
  intros Ht. pose proof (tree_fwd _ Ht) as Hf.
  apply (fwd_ind bs
    (λ b, ∀ p lru, b ∈ siblings bs p → NoDup (preorder bs b lru).*1) Hf).
  intros b d Hb IHc IHn p lru Hbp.
  rewrite (preorder_unfold _ _ _ _ Hf Hb).
  pose proof (siblings_mem _ _ _ Hf Hbp) as Hb0.
  destruct (Hf b d Hb) as (Hnx & Hch & _).
  set (here := String.append lru (String (chr (n_char d)) EmptyString)).
  cbn [fmap list_fmap fst]. rewrite fmap_app.
  apply NoDup_cons. split.
  - rewrite elem_of_app. intros [Hin|Hin].
    + destruct (n_child d =? 0) eqn:Hz; [by apply elem_of_nil in Hin|].
      apply Nat.eqb_neq in Hz. destruct Hch as [?|Hch]; [done|].
      apply list_elem_of_fmap in Hin as ([y s] & -> & Hin).
      apply (preorder_range _ Hf _ (proj2 Hch)) in Hin. simpl in *. lia.
    + destruct (n_next d =? 0) eqn:Hz; [by apply elem_of_nil in Hin|].
      apply Nat.eqb_neq in Hz. destruct Hnx as [?|Hnx]; [done|].
      apply list_elem_of_fmap in Hin as ([y s] & -> & Hin).
      apply (preorder_range _ Hf _ (proj2 Hnx)) in Hin. simpl in *. lia.
  - apply NoDup_app. split; [|split].
    + destruct (n_child d =? 0) eqn:Hz; [apply NoDup_nil_2|].
      apply Nat.eqb_neq in Hz.
      apply (IHc Hz b), (siblings_child _ _ d); [done|lia|done|done].
    + intros y Hin1 Hin2.
      destruct (n_child d =? 0) eqn:Hzc; [by apply elem_of_nil in Hin1|].
      destruct (n_next d =? 0) eqn:Hzn; [by apply elem_of_nil in Hin2|].
      apply Nat.eqb_neq in Hzc, Hzn.
      destruct Hch as [?|Hch]; [done|]. destruct Hnx as [?|Hnx]; [done|].
      apply list_elem_of_fmap in Hin1 as ([y1 s1] & -> & Hin1).
      apply list_elem_of_fmap in Hin2 as ([y2 s2] & Heq & Hin2).
      simpl in Heq. subst y2. simpl in *.
      destruct (tree_parent _ Ht _ _ Hbp) as (d' & Hb' & Hpar).
      assert (d' = d) as -> by congruence.
      pose proof (siblings_parent_lt _ _ _ Hf Hbp) as Hpb.
      assert (top bs p y1 b) as H1.
      { apply (preorder_top_below bs p b Ht (n_child d) (proj2 Hch) b here y1 s1);
          [apply (siblings_child _ _ d); [done|lia|done|done]|done|by apply (top_here _ _ b d)|done]. }
      destruct (preorder_top bs Ht (n_next d) (proj2 Hnx) p lru y1 s2)
        as (t & H2 & Hle); [by eapply siblings_next|done|].
      pose proof (top_functional _ _ _ _ _ H1 H2). lia.
    + destruct (n_next d =? 0) eqn:Hz; [apply NoDup_nil_2|].
      apply Nat.eqb_neq in Hz. by apply (IHn Hz p), (siblings_next _ _ b d).
Qed.

(** The pair [dfs_iter] yields at a block. *)
Definition visit (st : Storage) (e : nat * string) : LRUTrieNode * string :=
  (node_of_block st e.1, e.2).

Lemma remove_last_append s c :
  remove_last (String.append s (String c EmptyString)) = s.
Proof.
  induction s as [|a s IH]; [done|].
  change (String.append (String a s) (String c EmptyString))
    with (String a (String.append s (String c EmptyString))).
  cbn [remove_last]. rewrite IH. by destruct s.
Qed.

Section DepthFirst.

Variable st : Storage.
Hypothesis Htree : tree (blocks st).

(** From block [b], descending: [dfs_loop] yields the order of [b] and
    then goes on from the parent of [b], going up. *)
Definition runs_down (b : nat) : Prop :=
  ∀ d p dp lru,
    blocks st !! b = Some d → b ∈ siblings (blocks st) p →
    blocks st !! p = Some dp →
    ∃ n, n ≤ 2 * length (preorder (blocks st) b lru)
         ∧ ∀ fuel later,
             dfs_loop fuel st (handle p dp) false (remove_last lru) = Ok later →
             dfs_loop (n + fuel) st (handle b d) true lru
             = Ok ((visit st <$> preorder (blocks st) b lru) ++ later).

(** One turn of the loop at [b] when it does not go to the child. *)
Lemma dfs_loop_tail b d p dp lru descending :
  blocks st !! b = Some d → b ∈ siblings (blocks st) p →
  blocks st !! p = Some dp →
  descending && has_child (handle b d) = false →
  (n_next d ≠ 0 → runs_down (n_next d)) →
  ∃ n, n ≤ 1 + 2 * length (if n_next d =? 0 then []
                           else preorder (blocks st) (n_next d) lru)
       ∧ ∀ fuel later,
           dfs_loop fuel st (handle p dp) false (remove_last lru) = Ok later →
           dfs_loop (n + fuel) st (handle b d) descending lru
           = Ok ((if descending
                  then [(handle b d, String.append lru (char_as_str (handle b d)))]
                  else [])
                 ++ (visit st <$> (if n_next d =? 0 then []
                                   else preorder (blocks st) (n_next d) lru))
                 ++ later).
Proof.
  intros Hb Hbp Hp Hdc IHn.
  pose proof (tree_fwd _ Htree) as Hf.
  pose proof (siblings_mem _ _ _ Hf Hbp) as Hb0.
  destruct (tree_parent _ Htree _ _ Hbp) as (d' & Hb' & Hpar).
  assert (d' = d) as -> by congruence.
  destruct (n_next d =? 0) eqn:Hz.
  - exists 1. split; [cbn [length]; lia|]. intros fuel later Hlater.
    cbn [Nat.add dfs_loop]. rewrite Hdc.
    unfold has_next. cbn [handle data]. rewrite Hz. cbn [negb].
    assert (is_root (handle b d) = false) as ->
      by (unfold is_root; cbn [handle block]; destruct b; [lia|done]).
    cbn [negb]. unfold read_parent, parent. cbn [handle data].
    rewrite Hpar. change (read st _ p) with (read st (handle b d) p).
    rewrite (read_handle _ _ _ _ Hp), Hlater. cbn [bind fmap list_fmap app].
    done.
  - apply Nat.eqb_neq in Hz as Hz'.
    destruct (Hf b d Hb) as ([?|Hnx] & _); [done|].
    destruct (lookup_lt_is_Some_2 _ _ (proj2 Hnx)) as [dn Hdn].
    destruct (IHn Hz' dn p dp lru Hdn (siblings_next _ _ _ _ Hf Hbp Hb Hz') Hp)
      as (n & Hn & Hrun).
    exists (S n). split; [lia|]. intros fuel later Hlater.
    cbn [Nat.add dfs_loop]. rewrite Hdc.
    unfold has_next, read_next, has_next. cbn [handle data]. rewrite Hz.
    cbn [negb bind]. change (read st _ (n_next d)) with (read st (handle b d) (n_next d)).
    rewrite (read_handle _ _ _ _ Hdn), (Hrun fuel later Hlater). cbn [bind].
    done.
Qed.

Lemma dfs_loop_down : ∀ b, b < length (blocks st) → runs_down b.
Proof.
  pose proof (tree_fwd _ Htree) as Hf.
  apply (fwd_ind (blocks st) runs_down Hf).
  intros b d Hb IHc IHn d' p dp lru Hb' Hbp Hp.
  assert (d' = d) as -> by congruence.
  pose proof (siblings_mem _ _ _ Hf Hbp) as Hb0.
  rewrite (preorder_unfold _ _ _ _ Hf Hb).
  set (here := String.append lru (String (chr (n_char d)) EmptyString)).
  destruct (n_child d =? 0) eqn:Hz.
  - destruct (dfs_loop_tail b d p dp lru true Hb Hbp Hp) as (n & Hn & Hrun);
      [by unfold has_child; cbn [handle data]; rewrite Hz|done|].
    exists n. split; [cbn [length app]; lia|].
    intros fuel later Hlater. rewrite (Hrun fuel later Hlater).
    cbn [fmap list_fmap app].
    change (visit st (b, here)) with (node_of_block st b, here).
    by rewrite (node_of_block_handle _ _ _ Hb).
  - apply Nat.eqb_neq in Hz as Hz'.
    destruct (Hf b d Hb) as (_ & [?|Hch] & _); [done|].
    destruct (lookup_lt_is_Some_2 _ _ (proj2 Hch)) as [dc Hdc].
    destruct (dfs_loop_tail b d p dp lru false Hb Hbp Hp eq_refl IHn)
      as (n2 & Hn2 & Hrun2).
    destruct (IHc Hz' dc b d here Hdc) as (n1 & Hn1 & Hrun1);
      [apply (siblings_child _ _ d); [done|lia|done|done]|done|].
    exists (S (n1 + n2)). split.
    { cbn [length]. rewrite length_app. lia. }
    intros fuel later Hlater.
    replace (S (n1 + n2) + fuel) with (S (n1 + (n2 + fuel))) by lia.
    cbn [dfs_loop]. unfold has_child, read_child, has_child. cbn [handle data].
    rewrite Hz. cbn [negb andb bind].
    change (read st _ (n_child d)) with (read st (handle b d) (n_child d)).
    rewrite (read_handle _ _ _ _ Hdc).
    change (String.append lru (char_as_str (handle b d))) with here.
    rewrite (Hrun1 (n2 + fuel) _
               ltac:(unfold here; rewrite remove_last_append;
                     exact (Hrun2 fuel later Hlater))).
    cbn [bind app fmap list_fmap]. rewrite fmap_app, <- !app_assoc.
    change (visit st (b, here)) with (node_of_block st b, here).
    by rewrite (node_of_block_handle _ _ _ Hb).
Qed.

End DepthFirst.

(** On a trie, [dfs_iter] returns within the turns it is given, and what
    it yields is the order above from the root. *)
Lemma dfs_iter_preorder_spec st :
  tree (blocks st) → header_clean (blocks st) →
  dfs_iter st
  = Ok (visit st <$> preorder (blocks st) LRU_TRIE_NODE_HEADER_BLOCKS EmptyString).
Proof.
  intros Ht (d0 & H0 & Hn0). pose proof (tree_fwd _ Ht) as Hf.
  unfold dfs_iter, root.
  destruct (blocks st !! LRU_TRIE_NODE_HEADER_BLOCKS) as [d|] eqn:Hd.
  - rewrite (node_of_block_handle _ _ _ Hd). cbn [handle node_exists negb].
    pose proof (lookup_lt_Some _ _ _ Hd) as Hlt.
    destruct (dfs_loop_down st Ht _ Hlt d 0 d0 EmptyString Hd
                (siblings_root _ _ Hf Hd) H0) as (n & Hn & Hrun).
    assert (length (preorder (blocks st) LRU_TRIE_NODE_HEADER_BLOCKS EmptyString)
            ≤ length (blocks st) - 1) as Hcount.
    { rewrite <- (length_fmap fst).
      trans (length (seq 1 (length (blocks st) - 1))); [|by rewrite length_seq].
      apply submseteq_length, NoDup_submseteq.
      - apply (preorder_NoDup _ Ht _ Hlt 0). by apply (siblings_root _ d).
      - intros y ([y' s] & -> & Hin)%list_elem_of_fmap.
        apply (preorder_range _ Hf _ Hlt) in Hin. cbn [fst].
        apply elem_of_seq. change LRU_TRIE_NODE_HEADER_BLOCKS with 1 in Hin. lia. }
    replace (2 * length (blocks st) + 2)
      with (n + S (2 * length (blocks st) + 1 - n)) by lia.
    rewrite (Hrun _ []); [by rewrite app_nil_r|].
    cbn [dfs_loop andb remove_last]. unfold has_next, is_root.
    cbn [handle data block]. rewrite Hn0. done.
  - rewrite node_of_block_missing by (by apply lookup_ge_None).
    cbn [node_exists negb].
    rewrite preorder_outside by (by apply lookup_ge_None). done.
Qed.

Lemma chr_ord c : chr (ord c) = c.
Proof. unfold chr, ord. rewrite N2Z.id. apply ascii_N_embedding. Qed.

Lemma append_char_assoc s c rest :
  String.append (String.append s (String c EmptyString)) rest
  = String.append s (String c rest).
Proof.
  induction s as [|a s IH]; [done|].
  change (String.append (String a s) (String c EmptyString))
    with (String a (String.append s (String c EmptyString))).
  change (String.append (String a (String.append s (String c EmptyString))) rest)
    with (String a (String.append (String.append s (String c EmptyString)) rest)).
  by rewrite IH.
Qed.

Lemma preorder_chain bs :
  fwd bs →
  ∀ h, h < length bs →
  ∀ x lru e, x ∈ chain bs h → e ∈ preorder bs x lru → e ∈ preorder bs h lru.
Proof.
  intros Hf. apply (chain_ind bs
    (λ h, ∀ x lru e, x ∈ chain bs h → e ∈ preorder bs x lru →
                     e ∈ preorder bs h lru) Hf).
  intros h dh Hh IH x lru e Hx He.
  rewrite (chain_unfold _ _ _ Hf Hh) in Hx.
  apply elem_of_cons in Hx as [->|Hx]; [done|].
  destruct (n_next dh =? 0) eqn:Hz; [by apply elem_of_nil in Hx|].
  rewrite (preorder_unfold _ _ _ _ Hf Hh), Hz.
  apply list_elem_of_further, elem_of_app. right.
  apply Nat.eqb_neq in Hz. by apply (IH Hz x).
Qed.

(** The node a path leads to is in the order of [dfs_iter], with the LRU
    of the path. *)
Lemma pwalk_preorder bs lru0 :
  fwd bs →
  ∀ rest i b h v dv hv lru,
    pwalk bs lru0 rest i b h = Some (v, dv, hv) →
    (v, String.append lru rest) ∈ preorder bs b lru.
Proof.
  intros Hf.
  induction rest as [|c rest IH]; intros i b h v dv hv lru Hp; [done|].
  rewrite pwalk_cons in Hp.
  destruct (find_sibling bs (ord c) (chain bs b)) as [x|] eqn:Hfind; [|done].
  pose proof (find_sibling_head _ _ _ _ Hfind) as Hlt.
  apply find_sibling_Some in Hfind as [Hx Hc].
  destruct (bs !! x) as [dx|] eqn:Hdx; [|done].
  rewrite (char_at_lookup _ _ _ Hdx) in Hc.
  apply (preorder_chain bs Hf b Hlt x lru _ Hx).
  rewrite (preorder_unfold _ _ _ _ Hf Hdx), Hc, chr_ord.
  unfold pwalk_below in Hp. destruct rest as [|c' rest'].
  - simplify_eq. apply list_elem_of_here.
  - destruct (n_child dx =? 0) eqn:Hz; [done|].
    apply list_elem_of_further, elem_of_app. left.
    rewrite <- append_char_assoc. by eapply IH.
Qed.

(** ** Tries built by insertions *)

(** An insertion: [add_lru] or [add_page] of an LRU. *)
Inductive insertion : Type :=
| Lru (lru : string)
| Page (lru : string).

Definition lru_of (op : insertion) : string :=
  match op with
  | Lru lru => lru
  | Page lru => lru
  end.

Definition insert (op : insertion) (st : Storage) : result Storage :=
  match op with
  | Lru lru => try (_, _, st) <- add_lru lru st in Ok st
  | Page lru => try (_, _, st) <- add_page lru st in Ok st
  end.

Fixpoint insert_all (ops : list insertion) (st : Storage) : result Storage :=
  match ops with
  | [] => Ok st
  | op :: ops' =>
      try st <- insert op st in
      insert_all ops' st
  end.

Lemma insert_path op st :
  wf st →
  ∃ st',
    insert op st = Ok st' ∧ steps st st'
    ∧ (lru_of op ≠ EmptyString →
       ∀ bs1, ext (blocks st') bs1 → fwd bs1 →
         ∃ v dv hv,
           pwalk bs1 (lru_of op) (lru_of op) 0 LRU_TRIE_NODE_HEADER_BLOCKS
                 new_history = Some (v, dv, hv)
           ∧ (op = Page (lru_of op) → page_bit dv = true)).
Proof.
  intros Hw. destruct op as [lru|lru]; cbn [insert lru_of].
  - destruct (decide (lru = EmptyString)) as [->|Hne].
    + exists st. rewrite add_lru_empty. cbn [bind].
      split; [done|]. split; [apply rtc_refl|done].
    + destruct (add_lru_spec lru st Hw Hne)
        as (v & dv & history & st' & Hadd & Hsteps & Hv & Hv0 & Hpath).
      exists st'. rewrite Hadd. cbn [bind]. split; [done|]. split; [done|].
      intros _ bs1 He Hf1.
      destruct (Hpath bs1 He Hf1) as (dv1 & h2 & _ & _ & _ & Hp).
      exists v, dv1, h2. split; [done|]. intros ?. done.
  - destruct (decide (lru = EmptyString)) as [->|Hne].
    { destruct (add_page_spec EmptyString st Hw)
        as (v & dv & history & st' & Hadd & Hsteps & _).
      exists st'. rewrite Hadd. cbn [bind]. split; [done|]. split; done. }
    destruct (add_lru_spec lru st Hw Hne)
      as (v & dv & history & sa & Hadd & Hsteps & Hv & Hv0 & Hpath).
    pose proof (steps_wf _ _ Hw Hsteps) as Hwa.
    unfold add_page. rewrite Hadd. cbn [bind].
    unfold is_page. cbn [data handle]. fold (page_bit dv).
    destruct (page_bit dv) eqn:Hpg; cbn [negb bind].
    + exists sa. split; [done|]. split; [done|].
      intros _ bs1 He Hf1.
      destruct (Hpath bs1 He Hf1) as (dv1 & h3 & _ & Hv1 & _ & Hp).
      exists v, dv1, h3. split; [done|]. intros _.
      destruct (ext_old _ _ He _ _ Hv) as (dx & Hx & _ & _ & _ & _ & _ & _ & Hpgx).
      assert (dx = dv1) as -> by congruence. by apply Hpgx.
    + unfold flag_as_page, with_data. cbn [data handle block node_exists].
      set (d := set_flags (flag (n_flags dv) LRU_TRIE_NODE_FLAG_PAGE) dv).
      change {| block := Some v; node_exists := true; data := d |} with (handle v d).
      rewrite write_handle. cbn [bind].
      set (st' := {| blocks := <[v := d]> (blocks sa);
                     journal := journal sa ++ [(v, d)] |}).
      destruct (page_bit_flag dv) as (Hp1 & Hp2 & Hp3).
      assert (step sa st') as Hstep.
      { apply (step_flags sa v dv d); try done; by rewrite Hpg. }
      assert (blocks st' !! v = Some d) as Hd.
      { simpl. apply list_lookup_insert_eq. by eapply lookup_lt_Some. }
      exists st'. split; [done|]. split; [by eapply rtc_r|].
      intros _ bs1 He Hf1.
      destruct (Hpath bs1 (ext_trans _ _ _ (step_ext _ _ Hwa Hstep) He) Hf1)
        as (dv1 & h3 & _ & Hv1 & _ & Hp).
      exists v, dv1, h3. split; [done|]. intros _.
      destruct (ext_old _ _ He _ _ Hd) as (dx & Hx & _ & _ & _ & _ & _ & _ & Hpgx).
      assert (dx = dv1) as -> by congruence. by apply Hpgx.
Qed.

Lemma insert_all_spec ops :
  ∀ st, tree (blocks st) → header_clean (blocks st) →
    ∃ st',
      insert_all ops st = Ok st'
      ∧ steps st st' ∧ tree (blocks st') ∧ header_clean (blocks st')
      ∧ ∀ op, op ∈ ops → lru_of op ≠ EmptyString →
          ∃ v dv hv,
            pwalk (blocks st') (lru_of op) (lru_of op) 0
                  LRU_TRIE_NODE_HEADER_BLOCKS new_history = Some (v, dv, hv)
            ∧ (op = Page (lru_of op) → page_bit dv = true).
Proof.
  induction ops as [|op ops IH]; intros st Ht Hh.
  - exists st. split; [done|]. split; [apply rtc_refl|]. split; [done|].
    split; [done|]. by intros op ?%elem_of_nil.
  - pose proof (tree_wf _ Ht) as Hw.
    destruct (insert_path op st Hw) as (st1 & Hins & Hsteps1 & Hpath).
    destruct (IH st1 (steps_tree _ _ Ht Hsteps1) (steps_header _ _ Hw Hh Hsteps1))
      as (st' & Hrun & Hsteps & Ht' & Hh' & Hall).
    exists st'. cbn [insert_all]. rewrite Hins. cbn [bind].
    split; [done|]. split; [by eapply rtc_trans|].
    split; [done|]. split; [done|].
    intros op' [->|Hin]%elem_of_cons Hne; [|by apply Hall].
    apply (Hpath Hne).
    + apply steps_ext; [by eapply steps_wf|done].
    + apply Ht'.
Qed.

Lemma visit_block st y s :
  y < length (blocks st) →
  ∃ d, blocks st !! y = Some d ∧ visit st (y, s) = (handle y d, s).
Proof.
  intros Hlt. destruct (lookup_lt_is_Some_2 _ _ Hlt) as [d Hd].
  exists d. split; [done|]. unfold visit. cbn [fst snd].
  by rewrite (node_of_block_handle _ _ _ Hd).
Qed.

(** X9. On a trie built by insertions from the empty trie, [dfs_iter]
    returns; every pair it yields is a stored node, no block is yielded
    twice, and every non-empty LRU that was inserted is yielded, with the
    node [lru_node] finds for it. *)
Theorem dfs_iter_yields_every_inserted_lru (ops : list insertion) :
  ∃ st pairs,
    insert_all ops empty_trie = Ok st
    ∧ dfs_iter st = Ok pairs
    ∧ NoDup ((λ p, block p.1) <$> pairs)
    ∧ (∀ n s, (n, s) ∈ pairs →
         ∃ b d, blocks st !! b = Some d ∧ n = handle b d
                ∧ LRU_TRIE_NODE_HEADER_BLOCKS ≤ b)
    ∧ (∀ op, op ∈ ops → lru_of op ≠ EmptyString →
         ∃ n, lru_node (lru_of op) st = Ok (Some n)
              ∧ (n, lru_of op) ∈ pairs).
Proof.
  destruct (insert_all_spec ops empty_trie empty_trie_tree empty_trie_header)
    as (st & Hrun & _ & Ht & Hh & Hall).
  pose proof (tree_wf _ Ht) as Hw. pose proof (tree_fwd _ Ht) as Hf.
  exists st, (visit st <$> preorder (blocks st) LRU_TRIE_NODE_HEADER_BLOCKS EmptyString).
  split; [done|]. split; [by apply dfs_iter_preorder_spec|].
  assert (∀ y s,
    (y, s) ∈ preorder (blocks st) LRU_TRIE_NODE_HEADER_BLOCKS EmptyString →
    LRU_TRIE_NODE_HEADER_BLOCKS ≤ y < length (blocks st)) as Hrange.
  { intros y s Hin.
    destruct (decide (LRU_TRIE_NODE_HEADER_BLOCKS < length (blocks st))) as [Hlt|Hge].
    - by apply (preorder_range _ Hf _ Hlt) in Hin.
    - rewrite preorder_outside in Hin by lia. by apply elem_of_nil in Hin. }
  split; [|split].
  - rewrite <- list_fmap_compose.
    assert ((λ p, block p.1) ∘ visit st
            <$> preorder (blocks st) LRU_TRIE_NODE_HEADER_BLOCKS EmptyString
            = Some <$> (preorder (blocks st) LRU_TRIE_NODE_HEADER_BLOCKS EmptyString).*1)
      as ->.
    { rewrite <- list_fmap_compose. apply list_fmap_ext.
      intros i [y s] Hi. apply list_elem_of_lookup_2 in Hi.
      destruct (visit_block st y s (proj2 (Hrange _ _ Hi))) as (d & _ & Hv).
      cbn [compose]. by rewrite Hv. }
    apply (NoDup_fmap_2 _).
    destruct (decide (LRU_TRIE_NODE_HEADER_BLOCKS < length (blocks st))) as [Hlt|Hge].
    + destruct (lookup_lt_is_Some_2 _ _ Hlt) as [d Hd].
      apply (preorder_NoDup _ Ht _ Hlt 0). by apply (siblings_root _ d).
    + rewrite preorder_outside by lia. apply NoDup_nil_2.
  - intros n s ([y s'] & Heq & Hin)%list_elem_of_fmap.
    pose proof (Hrange _ _ Hin) as Hy.
    destruct (visit_block st y s' (proj2 Hy)) as (d & Hd & Hv).
    rewrite Hv in Heq. simplify_eq. exists y, d. split; [done|]. split; [done|lia].
  - intros op Hin Hne.
    destruct (Hall op Hin Hne) as (v & dv & hv & Hp & _).
    exists (handle v dv). split; [by apply (lru_node_present _ st v dv hv)|].
    apply (pwalk_preorder _ _ Hf _ _ _ _ _ _ _ EmptyString) in Hp as Hin'.
    apply pwalk_lookup in Hp.
    apply list_elem_of_fmap. exists (v, lru_of op). split; [|done].
    unfold visit. cbn [fst snd]. by rewrite (node_of_block_handle _ _ _ Hp).
Qed.

(** X10. On a trie built by insertions from the empty trie, [pages_iter]
    returns; it yields only nodes flagged as pages, and every non-empty LRU
    that was added as a page is yielded, with the node [lru_node] finds for
    it. *)
Theorem pages_iter_yields_every_added_page (ops : list insertion) :
  ∃ st pages,
    insert_all ops empty_trie = Ok st
    ∧ pages_iter st = Ok pages
    ∧ (∀ n s, (n, s) ∈ pages → is_page n = true)
    ∧ (∀ lru, Page lru ∈ ops → lru ≠ EmptyString →
         ∃ n, lru_node lru st = Ok (Some n)
              ∧ is_page n = true ∧ (n, lru) ∈ pages).
Proof.
  destruct (insert_all_spec ops empty_trie empty_trie_tree empty_trie_header)
    as (st & Hrun & _ & Ht & Hh & Hall).
  pose proof (tree_wf _ Ht) as Hw. pose proof (tree_fwd _ Ht) as Hf.
  exists st. unfold pages_iter. rewrite (dfs_iter_preorder_spec _ Ht Hh).
  cbn [bind]. eexists. split; [done|]. split; [done|]. split.
  - intros n s Hin. by apply list_elem_of_filter in Hin as [Hp _].
  - intros lru Hin Hne.
    destruct (Hall (Page lru) Hin Hne) as (v & dv & hv & Hp & Hpg).
    cbn [lru_of] in *. specialize (Hpg eq_refl).
    exists (handle v dv). split; [by apply (lru_node_present _ st v dv hv)|].
    split; [done|].
    apply (pwalk_preorder _ _ Hf _ _ _ _ _ _ _ EmptyString) in Hp as Hin'.
    apply pwalk_lookup in Hp.
    apply list_elem_of_filter. split; [done|].
    apply list_elem_of_fmap. exists (v, lru). split; [|done].
    unfold visit. cbn [fst snd]. by rewrite (node_of_block_handle _ _ _ Hp).
Qed.

(** ** Parents *)

Lemma pwalk_snoc bs lru0 :
  ∀ q i b h c v dv hv,
    q ≠ EmptyString →
    pwalk bs lru0 (String.append q (String c EmptyString)) i b h
      = Some (v, dv, hv) →
    ∃ m dm hm i',
      pwalk bs lru0 q i b h = Some (m, dm, hm)
      ∧ n_child dm ≠ 0
      ∧ find_sibling bs (ord c) (chain bs (n_child dm)) = Some v
      ∧ pwalk bs lru0 (String c EmptyString) i' (n_child dm) hm
        = Some (v, dv, hv).
Proof.
  induction q as [|a q IH]; intros i b h c v dv hv Hne Hp; [done|].
  change (String.append (String a q) (String c EmptyString))
    with (String a (String.append q (String c EmptyString))) in Hp.
  rewrite pwalk_cons in Hp. rewrite pwalk_cons.
  destruct (find_sibling bs (ord a) (chain bs b)) as [x|]; [|done].
  destruct (bs !! x) as [dx|]; [|done].
  unfold pwalk_below in Hp.
  destruct q as [|a' q'].
  - change (String.append EmptyString (String c EmptyString))
      with (String c EmptyString) in Hp. cbn iota in Hp.
    destruct (n_child dx =? 0) eqn:Hz; [done|]. apply Nat.eqb_neq in Hz.
    exists x, dx, (observe lru0 i dx h), (S i).
    split; [done|]. split; [done|]. split; [|done].
    rewrite pwalk_cons in Hp.
    by destruct (find_sibling bs (ord c) (chain bs (n_child dx))) as [y|];
      [destruct (bs !! y); [cbn in Hp; simplify_eq|]|].
  - change (String.append (String a' q') (String c EmptyString))
      with (String a' (String.append q' (String c EmptyString))) in Hp.
    destruct (n_child dx =? 0) eqn:Hz; [done|].
    change (String a' (String.append q' (String c EmptyString)))
      with (String.append (String a' q') (String c EmptyString)) in Hp.
    apply IH in Hp as (m & dm & hm & i' & Hq & Hc & Hf & Hl); [|done].
    exists m, dm, hm, i'. unfold pwalk_below. by rewrite Hz.
Qed.

(** X11. On a trie built by insertions from the empty trie, the node found for
    an LRU followed by one more character records as its parent the block
    of the node found for the LRU, and [parent_node] is that node; the
    nodes found for the LRUs of one character record the null block. *)
Theorem found_node_records_its_parent (ops : list insertion) :
  ∃ st,
    insert_all ops empty_trie = Ok st
    ∧ ∀ q c n b,
        lru_node (String.append q (String c EmptyString)) st = Ok (Some n) →
        block n = Some b →
        (q = EmptyString → parent n = 0)
        ∧ (q ≠ EmptyString →
           ∃ m, lru_node q st = Ok (Some m)
                ∧ block m = Some (parent n) ∧ parent_node st n = m).
Proof.
  destruct (insert_all_spec ops empty_trie empty_trie_tree empty_trie_header)
    as (st & Hrun & _ & Ht & _ & _).
  pose proof (tree_wf _ Ht) as Hw. pose proof (tree_fwd _ Ht) as Hf.
  exists st. split; [done|]. intros q c n b Hl Hb.
  destruct (decide (length (blocks st) ≤ LRU_TRIE_NODE_HEADER_BLOCKS)) as [Hno|Hroot].
  { rewrite (lru_node_rootless _ _ _ Hno Hl) in Hb. done. }
  assert (String.append q (String c EmptyString) ≠ EmptyString) as Hne
    by (by destruct q).
  rewrite (lru_node_pwalk _ _ Hw) in Hl by (done || lia).
  destruct (pwalk (blocks st) _ _ 0 LRU_TRIE_NODE_HEADER_BLOCKS new_history)
    as [[[v dv] hv]|] eqn:Hp; [|done].
  cbn [found_handle] in Hl. simplify_eq. cbn [handle block] in Hb. simplify_eq.
  unfold parent_node, parent. cbn [handle data].
  split.
  - intros ->.
    change (String.append EmptyString (String c EmptyString))
      with (String c EmptyString) in Hp.
    rewrite pwalk_cons in Hp.
    destruct (find_sibling (blocks st) (ord c)
                (chain (blocks st) LRU_TRIE_NODE_HEADER_BLOCKS)) as [x|] eqn:Hfind;
      [|done].
    destruct (blocks st !! x) as [dx|] eqn:Hx; [|done].
    cbn [pwalk_below] in Hp. simplify_eq.
    apply find_sibling_Some in Hfind as [Hin _].
    destruct (tree_parent _ Ht 0 b) as (d' & Hd' & Hpar).
    { unfold siblings. by rewrite head_of_root. }
    congruence.
  - intros Hq.
    pose proof (pwalk_lookup _ _ _ _ _ _ _ _ _ Hp) as Hb.
    apply pwalk_snoc in Hp as (m & dm & hm & i' & Hpq & Hc & Hfind & _); [|done].
    pose proof (pwalk_lookup _ _ _ _ _ _ _ _ _ Hpq) as Hm.
    destruct (pwalk_ext _ _ _ q (ext_refl _) Hf Hf _ _ 0 _ _ new_history _ _ _ Hpq)
      as (dm1 & hm1 & Hpq1).
    pose proof (pwalk_lookup _ _ _ _ _ _ _ _ _ Hpq1) as Hm1.
    assert (dm1 = dm) as -> by congruence.
    destruct (add_lru_present q st m dm hm1 Hw Hpq1) as (_ & _ & Hm0).
    apply find_sibling_Some in Hfind as [Hin _].
    destruct (tree_parent _ Ht m b) as (d' & Hd' & Hpar).
    { unfold siblings. rewrite (head_of_child _ _ _ Hm0 Hm).
      apply Nat.eqb_neq in Hc. by rewrite Hc. }
    assert (d' = dv) as -> by congruence. rewrite Hpar.
    exists (handle m dm). split; [by apply (lru_node_present q st m dm hm1)|].
    split; [done|]. by apply node_of_block_handle.
Qed.


(** * Further properties of the node record *)

(** ** Flags *)

Lemma test_unflag f p q :
  (0 <= p)%Z → (0 <= q)%Z →
  test (unflag f p) q = negb (p =? q)%Z && test f q.
Proof.
  intros Hp Hq. rewrite !test_testbit by done. unfold unflag.
  rewrite Z.land_spec, Z.lnot_spec, Z.shiftl_spec by done.
  rewrite andb_comm. f_equal.
  destruct (Z.eqb_spec p q) as [->|Hne].
  - by rewrite Z.sub_diag.
  - replace (Z.testbit 1 (q - p)) with false; [done|].
    destruct (Z.lt_ge_cases q p).
    + by rewrite Z.testbit_neg_r by lia.
    + symmetry. change 1%Z with (2 ^ 0)%Z. apply Z.pow2_bits_false. lia.
Qed.

Lemma small_testbit r n i :
  (0 <= r < 2 ^ n)%Z → (n <= i)%Z → Z.testbit r i = false.
Proof.
  intros [H0 Hr] Hi.
  destruct (Z.eq_dec r 0%Z) as [->|Hne]; [apply Z.bits_0|].
  apply Z.bits_above_log2; [done|].
  enough (Z.log2 r < n)%Z by lia. apply Z.log2_lt_pow2; lia.
Qed.

Lemma testbit_small r n :
  (0 <= n)%Z → (0 <= r)%Z →
  (∀ i, (n <= i)%Z → Z.testbit r i = false) → (r < 2 ^ n)%Z.
Proof.
  intros Hn H0 Hbits.
  assert (r = r mod 2 ^ n)%Z as ->.
  { apply Z.bits_inj'. intros i Hi.
    destruct (Z.lt_ge_cases i n).
    - by rewrite Z.mod_pow2_bits_low.
    - rewrite Z.mod_pow2_bits_high by lia. by apply Hbits. }
  apply Z.mod_pos_bound. by apply Z.pow_pos_nonneg.
Qed.

(** X12. [flag] sets one bit of the register and [unflag] clears it; [test]
    reads the others as they were; and a register that fits in a byte, as
    the format of the node wants it, still does after either. So a node is
    a page after [flag_as_page] and none after [unflag_as_page]. *)
Theorem flags_are_independent (register pos other : Z) :
  (0 <= pos)%Z → (0 <= other)%Z →
  test (flag register pos) other = (pos =? other)%Z || test register other
  ∧ test (unflag register pos) other
    = negb (pos =? other)%Z && test register other
  ∧ ((0 <= register < 256)%Z → (pos < 8)%Z →
     (0 <= flag register pos < 256)%Z ∧ (0 <= unflag register pos < 256)%Z)
  ∧ (∀ node,
       is_page (flag_as_page node) = true
       ∧ is_page (unflag_as_page node) = false
       ∧ is_page (unflag_as_page (flag_as_page node)) = false).
Proof.
  intros Hp Hq. split; [by apply test_flag|]. split; [by apply test_unflag|].
  split.
  2: { intros node. unfold is_page, flag_as_page, unflag_as_page, with_data.
       cbn [data set_flags n_flags].
       rewrite !test_unflag, !test_flag by done. done. }
  intros Hr Hp8. unfold flag, unflag.
  assert (0 <= Z.shiftl 1 pos)%Z as Hs by (by apply Z.shiftl_nonneg).
  split; split.
  - apply Z.lor_nonneg. lia.
  - change 256%Z with (2 ^ 8)%Z. apply testbit_small; [lia|apply Z.lor_nonneg; lia|].
    intros i Hi. rewrite Z.lor_spec, Z.shiftl_spec by lia.
    rewrite (small_testbit register 8 i) by (done || lia).
    change 1%Z with (2 ^ 0)%Z. rewrite Z.pow2_bits_false by lia. done.
  - apply Z.land_nonneg. lia.
  - change 256%Z with (2 ^ 8)%Z. apply testbit_small; [lia|apply Z.land_nonneg; lia|].
    intros i Hi. rewrite Z.land_spec.
    by rewrite (small_testbit register 8 i) by (done || lia).
Qed.

(** ** Packing *)

Lemma ord_chr z : (0 <= z < 256)%Z → ord (chr z) = z.
Proof.
  intros Hz. unfold ord, chr. rewrite N_ascii_embedding by lia. lia.
Qed.

Lemma ord_range c : (0 <= ord c < 256)%Z.
Proof. unfold ord. pose proof (N_ascii_bounded c). lia. Qed.

Lemma length_append s1 s2 :
  String.length (String.append s1 s2) = String.length s1 + String.length s2.
Proof.
  induction s1 as [|c s1 IH]; [done|].
  change (String.append (String c s1) s2) with (String c (String.append s1 s2)).
  cbn [String.length]. by rewrite IH.
Qed.

Module PackFacts.

Lemma pow_pos n : (0 < 256 ^ Z.of_nat n)%Z.
Proof. apply Z.pow_pos_nonneg; lia. Qed.

Lemma le_length size : ∀ v, String.length (Pack.le_bytes size v) = size.
Proof. induction size as [|size IH]; intros v; [done|]. simpl. by rewrite IH. Qed.

Lemma be_length size v : String.length (Pack.be_bytes size v) = size.
Proof. induction size as [|size IH]; [done|]. simpl. by rewrite IH. Qed.

Lemma pad_length n : String.length (Pack.pad n) = n.
Proof. induction n as [|n IH]; [done|]. simpl. by rewrite IH. Qed.

Lemma skip_pad n rest : Pack.skip n (String.append (Pack.pad n) rest) = Some rest.
Proof. induction n as [|n IH]; [done|]. simpl. apply IH. Qed.

Lemma le_value_bytes size :
  ∀ v rest,
    (0 <= v < 256 ^ Z.of_nat size)%Z →
    Pack.le_value size (String.append (Pack.le_bytes size v) rest) = Some (v, rest).
Proof.
  induction size as [|size IH]; intros v rest Hv.
  - simpl in *. f_equal. f_equal. lia.
  - rewrite Nat2Z.inj_succ, Z.pow_succ_r in Hv by lia.
    cbn [Pack.le_bytes].
    change (String.append (String ?c ?s) rest)
      with (String c (String.append s rest)).
    cbn [Pack.le_value]. rewrite IH.
    + rewrite ord_chr by (apply Z.mod_pos_bound; lia).
      f_equal. f_equal. pose proof (Z.div_mod v 256). lia.
    + split; [apply Z.div_pos; lia|].
      apply Z.div_lt_upper_bound; lia.
Qed.

Lemma be_value_bytes size :
  ∀ v rest acc,
    Pack.be_value size (String.append (Pack.be_bytes size v) rest) acc
    = Some ((acc * 256 ^ Z.of_nat size + v mod 256 ^ Z.of_nat size)%Z, rest).
Proof.
  induction size as [|size IH]; intros v rest acc.
  - simpl. rewrite Z.mod_1_r. f_equal. f_equal. lia.
  - cbn [Pack.be_bytes].
    change (String.append (String ?c ?s) rest)
      with (String c (String.append s rest)).
    cbn [Pack.be_value]. rewrite IH.
    rewrite ord_chr by (apply Z.mod_pos_bound; lia).
    rewrite Nat2Z.inj_succ, Z.pow_succ_r by lia.
    pose proof (pow_pos size).
    rewrite (Z.mul_comm 256 (256 ^ Z.of_nat size)).
    rewrite (Z.rem_mul_r v (256 ^ Z.of_nat size) 256) by lia.
    f_equal. f_equal. lia.
Qed.

Lemma int_value_bytes order size v rest :
  Pack.fits size v = true →
  Pack.int_value order size (String.append (Pack.int_bytes order size v) rest)
  = Some (v, rest).
Proof.
  unfold Pack.fits. intros [H0 Hv]%andb_true_iff.
  apply Z.leb_le in H0. apply Z.ltb_lt in Hv.
  destruct order; cbn [Pack.int_value Pack.int_bytes].
  - by apply le_value_bytes.
  - rewrite be_value_bytes. rewrite Z.mod_small by done. done.
Qed.

Lemma int_bytes_length order size v :
  String.length (Pack.int_bytes order size v) = size.
Proof. destruct order; [apply le_length|apply be_length]. Qed.

Lemma align_le offset size : 0 < size → offset ≤ Pack.align offset size.
Proof.
  intros Hs. unfold Pack.align.
  pose proof (Nat.div_mod (offset + size - 1) size ltac:(lia)) as Hdm.
  pose proof (Nat.mod_upper_bound (offset + size - 1) size ltac:(lia)).
  lia.
Qed.

Definition end_offset (offset : nat) (sizes : list nat) : nat :=
  fold_left (fun offset size => Pack.align offset size + size) sizes offset.

Lemma append_assoc s1 s2 s3 :
  String.append (String.append s1 s2) s3 = String.append s1 (String.append s2 s3).
Proof.
  induction s1 as [|c s1 IH]; [done|].
  change (String.append (String c s1) s2) with (String c (String.append s1 s2)).
  change (String.append (String c ?s) ?t) with (String c (String.append s t)).
  by rewrite IH.
Qed.

(** What [pack] returns, [unpack] reads back, and it has the size of the
    format from the offset. *)
Lemma pack_unpack order :
  ∀ sizes offset values s,
    Forall (λ size, 0 < size) sizes →
    Pack.pack order offset sizes values = Ok s →
    Pack.unpack order offset sizes s = Ok values
    ∧ offset + String.length s = end_offset offset sizes.
Proof.
  induction sizes as [|size sizes IH]; intros offset values s Hpos Hp.
  - destruct values; [|done]. cbn in Hp. simplify_eq. split; [done|].
    cbn. lia.
  - destruct values as [|v values]; [done|]. cbn [Pack.pack] in Hp.
    destruct (Pack.fits size v) eqn:Hfit; [|done].
    destruct (Pack.pack order (Pack.align offset size + size) sizes values)
      as [rest|e] eqn:Hrest; cbn [bind] in Hp; [|done].
    simplify_eq. apply Forall_cons in Hpos as [Hs Hpos].
    destruct (IH _ _ _ Hpos Hrest) as [Hun Hlen].
    cbn [Pack.unpack]. rewrite skip_pad, int_value_bytes by done.
    rewrite Hun. cbn [bind]. split; [done|].
    rewrite !length_append, pad_length, int_bytes_length.
    pose proof (align_le offset size Hs). cbn [end_offset fold_left].
    unfold end_offset in Hlen. lia.
Qed.

(** [pack] raises exactly when a value does not fit its field, or the
    values are not as many as the fields. *)
Lemma pack_fits order :
  ∀ sizes offset values,
    (∃ s, Pack.pack order offset sizes values = Ok s)
    ↔ Forall2 (λ size v, Pack.fits size v = true) sizes values.
Proof.
  induction sizes as [|size sizes IH]; intros offset values.
  - destruct values; cbn; split.
    + intros _. apply Forall2_nil_2.
    + intros _. by eexists.
    + by intros [s ?].
    + intros H. inversion H.
  - destruct values as [|v values]; cbn [Pack.pack]; split.
    + by intros [s ?].
    + intros H. inversion H.
    + intros [s Hs]. destruct (Pack.fits size v) eqn:Hfit; [|done].
      destruct (Pack.pack order (Pack.align offset size + size) sizes values)
        as [rest|e] eqn:Hrest; cbn [bind] in Hs; [|done].
      apply Forall2_cons. split; [done|]. apply (IH (Pack.align offset size + size)).
      by eexists.
    + intros [Hfit Hrest]%Forall2_cons. rewrite Hfit.
      apply (IH (Pack.align offset size + size)) in Hrest as [rest ->].
      cbn [bind]. by eexists.
Qed.

Lemma pack_raises order sizes offset values e :
  Pack.pack order offset sizes values = Raise e → e = StructError.
Proof.
  revert offset values. induction sizes as [|size sizes IH]; intros offset values.
  - destruct values; cbn; [done|]. by intros [= <-].
  - destruct values as [|v values]; cbn [Pack.pack]; [by intros [= <-]|].
    destruct (Pack.fits size v); [|by intros [= <-]].
    destruct (Pack.pack order (Pack.align offset size + size) sizes values)
      as [rest|e'] eqn:Hrest; cbn [bind]; [done|].
    intros [= <-]. by eapply IH.
Qed.

End PackFacts.

(** The size of the format is the number of bytes [pack] returns, pad
    bytes included. *)
Lemma block_size_is_packed_size :
  LRU_TRIE_NODE_BLOCK_SIZE
  = PackFacts.end_offset 0 (Struct.size <$> LRU_TRIE_NODE_FORMAT).
Proof. reflexivity. Qed.

(** The fields of a node as the format takes them: a byte each for the
    character and the flags, 64 bits for each pointer. *)
Definition packable (d : NodeData) : Prop :=
  (0 <= n_char d < 256)%Z ∧ (0 <= n_flags d < 256)%Z
  ∧ (Z.of_nat (n_next d) < 2 ^ 64)%Z ∧ (Z.of_nat (n_child d) < 2 ^ 64)%Z
  ∧ (Z.of_nat (n_parent d) < 2 ^ 64)%Z.

(** X13. In either byte order, [pack] returns a block of
    [LRU_TRIE_NODE_BLOCK_SIZE] bytes, 32, from which [unpack] reads the
    five fields back, when every field fits its slot; it raises
    [struct.error] when one does not. *)
Theorem pack_then_unpack (order : byteorder) (node : LRUTrieNode) :
  (packable (data node) →
   ∃ s, pack order node = Ok s
        ∧ String.length s = LRU_TRIE_NODE_BLOCK_SIZE
        ∧ LRU_TRIE_NODE_BLOCK_SIZE = 32
        ∧ unpack order s = Ok (data_list (data node)))
  ∧ (¬ packable (data node) → pack order node = Raise StructError).
Proof.
  assert (Forall (λ size, 0 < size) (Struct.size <$> LRU_TRIE_NODE_FORMAT)) as Hpos.
  { cbn. repeat apply Forall_cons_2; (lia || apply Forall_nil_2). }
  assert (Forall2 (λ size v, Pack.fits size v = true)
            (Struct.size <$> LRU_TRIE_NODE_FORMAT) (data_list (data node))
          ↔ packable (data node)) as Hfits.
  { unfold packable, data_list, Pack.fits. cbn [fmap list_fmap LRU_TRIE_NODE_FORMAT Struct.size].
    rewrite !Forall2_cons, !andb_true_iff, !Z.leb_le, !Z.ltb_lt.
    change (256 ^ Z.of_nat 1)%Z with 256%Z.
    change (256 ^ Z.of_nat 8)%Z with (2 ^ 64)%Z.
    split.
    - intros (H1 & H2 & H3 & H4 & H5 & _). lia.
    - intros (H1 & H2 & H3 & H4 & H5).
      repeat (split; [lia|]). apply Forall2_nil_2. }
  split.
  - intros Hp. apply Hfits in Hp.
    apply (PackFacts.pack_fits order _ 0) in Hp as [s Hs].
    exists s. split; [done|].
    destruct (PackFacts.pack_unpack order _ 0 _ s Hpos Hs) as [Hun Hlen].
    split; [by rewrite block_size_is_packed_size, <- Hlen|]. split; done.
  - intros Hn. unfold pack.
    destruct (Pack.pack order 0 (Struct.size <$> LRU_TRIE_NODE_FORMAT)
                (data_list (data node))) as [s|e] eqn:Hs.
    + destruct Hn. apply Hfits, (PackFacts.pack_fits order _ 0). by exists s.
    + by rewrite (PackFacts.pack_raises _ _ _ _ _ Hs).
Qed.

(** * The root and the empty LRU *)

Lemma lru_node_rootless_returns lru st :
  length (blocks st) ≤ LRU_TRIE_NODE_HEADER_BLOCKS →
  ∃ found, lru_node lru st = Ok found.
Proof.
  intros Hlen. unfold lru_node, root. rewrite node_of_block_missing by done.
  destruct lru as [|c rest]; cbn [lru_node_from]; [by eexists|].
  unfold scan_fuel. cbn [seek]. unfold char, has_next, has_child.
  cbn [data default_data n_char n_next n_child Nat.eqb negb].
  destruct (0 =? ord c)%Z; cbn [negb bind]; [|by eexists].
  destruct rest; [by eexists|].
  cbn [data default_data n_child Nat.eqb negb]. by eexists.
Qed.

(** X14. On a well-formed store [lru_node] returns for every LRU: its loops
    end and it raises no exception. A node it returns on a block is the
    node stored on that block; it returns a node on no block only when the
    trie has no root yet. *)
Theorem lru_node_always_returns (lru : string) (st : Storage) :
  wf st →
  ∃ found,
    lru_node lru st = Ok found
    ∧ (∀ n b, found = Some n → block n = Some b →
         ∃ d, n = handle b d ∧ blocks st !! b = Some d)
    ∧ (∀ n, found = Some n → block n = None →
         length (blocks st) = LRU_TRIE_NODE_HEADER_BLOCKS).
Proof.
  intros Hw.
  assert (∃ found, lru_node lru st = Ok found) as [found Hfound].
  { destruct (decide (length (blocks st) ≤ LRU_TRIE_NODE_HEADER_BLOCKS))
      as [Hno|Hroot]; [by apply lru_node_rootless_returns|].
    destruct (decide (lru = EmptyString)) as [->|Hne]; [by eexists|].
    rewrite (lru_node_pwalk _ _ Hw) by (done || lia). by eexists. }
  exists found. split; [done|]. split.
  - intros n b -> Hb. by apply (lru_node_stored lru st).
  - intros n -> Hb.
    destruct (decide (length (blocks st) ≤ LRU_TRIE_NODE_HEADER_BLOCKS))
      as [Hno|Hroot].
    { destruct Hw. change LRU_TRIE_NODE_HEADER_BLOCKS with 1 in *. lia. }
    destruct (decide (lru = EmptyString)) as [->|Hne].
    + unfold lru_node in Hfound. cbn [lru_node_from] in Hfound. simplify_eq.
      destruct (lookup_lt_is_Some_2 (blocks st) LRU_TRIE_NODE_HEADER_BLOCKS)
        as [d Hd]; [lia|].
      unfold root in Hb. by rewrite (node_of_block_handle _ _ _ Hd) in Hb.
    + rewrite (lru_node_pwalk _ _ Hw) in Hfound by (done || lia).
      destruct (pwalk (blocks st) lru lru 0 LRU_TRIE_NODE_HEADER_BLOCKS new_history)
        as [[[v dv] hv]|]; [|done].
      cbn [found_handle] in Hfound. by simplify_eq.
Qed.

Lemma lru_node_root_char st d :
  wf st → blocks st !! LRU_TRIE_NODE_HEADER_BLOCKS = Some d →
  (0 <= n_char d < 256)%Z →
  lru_node (String (chr (n_char d)) EmptyString) st
  = Ok (Some (handle LRU_TRIE_NODE_HEADER_BLOCKS d)).
Proof.
  intros Hw Hd Hc. pose proof (lookup_lt_Some _ _ _ Hd) as Hlt.
  rewrite (lru_node_pwalk _ _ Hw) by done.
  rewrite pwalk_cons, (chain_unfold _ _ _ (proj2 Hw) Hd), find_sibling_cons.
  rewrite (char_at_lookup _ _ _ Hd), ord_chr, Z.eqb_refl by done.
  by rewrite Hd.
Qed.

(** X15. The root is not a node of its own: it is the first node of the top
    sibling list and carries a character. When the root is stored,
    [lru_node] of the empty LRU and of the LRU made of that character
    return the same node, and [add_page] of the empty LRU flags it, so
    that the one-character LRU is then found as a page. *)
Theorem empty_lru_is_the_node_of_the_root_character (st : Storage) (d : NodeData) :
  wf st → blocks st !! LRU_TRIE_NODE_HEADER_BLOCKS = Some d →
  (0 <= n_char d < 256)%Z →
  lru_node EmptyString st = Ok (Some (handle LRU_TRIE_NODE_HEADER_BLOCKS d))
  ∧ lru_node (String (chr (n_char d)) EmptyString) st
    = Ok (Some (handle LRU_TRIE_NODE_HEADER_BLOCKS d))
  ∧ ∃ n history st',
      add_page EmptyString st = Ok (n, history, st')
      ∧ block n = Some LRU_TRIE_NODE_HEADER_BLOCKS ∧ is_page n = true
      ∧ lru_node (String (chr (n_char d)) EmptyString) st' = Ok (Some n).
Proof.
  intros Hw Hd Hc. split; [|split; [by apply lru_node_root_char|]].
  { unfold lru_node. cbn [lru_node_from]. unfold root.
    by rewrite (node_of_block_handle _ _ _ Hd). }
  unfold add_page. rewrite add_lru_empty. cbn [bind]. unfold root.
  rewrite (node_of_block_handle _ _ _ Hd).
  unfold is_page at 1. cbn [data handle]. fold (page_bit d).
  destruct (page_bit d) eqn:Hpg; cbn [negb].
  - exists (handle LRU_TRIE_NODE_HEADER_BLOCKS d), new_history, st.
    split; [done|]. split; [done|]. split; [done|]. by apply lru_node_root_char.
  - unfold flag_as_page, with_data. cbn [data handle block node_exists].
    set (d' := set_flags (flag (n_flags d) LRU_TRIE_NODE_FLAG_PAGE) d).
    change {| block := Some LRU_TRIE_NODE_HEADER_BLOCKS; node_exists := true;
              data := d' |} with (handle LRU_TRIE_NODE_HEADER_BLOCKS d').
    rewrite write_handle.
    set (st' := {| blocks := <[LRU_TRIE_NODE_HEADER_BLOCKS := d']> (blocks st);
                   journal := journal st ++ [(LRU_TRIE_NODE_HEADER_BLOCKS, d')] |}).
    destruct (page_bit_flag d) as (Hp1 & Hp2 & Hp3).
    assert (step st st') as Hstep.
    { apply (step_flags st _ d d'); try done; by rewrite Hpg. }
    assert (blocks st' !! LRU_TRIE_NODE_HEADER_BLOCKS = Some d') as Hd'.
    { simpl. apply list_lookup_insert_eq. by eapply lookup_lt_Some. }
    exists (handle LRU_TRIE_NODE_HEADER_BLOCKS d'),
      (set_page_was_created true new_history), st'.
    split; [done|]. split; [done|]. split; [done|].
    by apply (lru_node_root_char st' d' (step_wf _ _ Hw Hstep) Hd').
Qed.

(** * What a trie built by insertions holds *)

(** The node at block [b] is the one the LRU leads to. *)
Definition reaches (bs : list NodeData) (lru : string) (b : nat) : Prop :=
  ∃ d h,
    pwalk bs lru lru 0 LRU_TRIE_NODE_HEADER_BLOCKS new_history = Some (b, d, h).

(** Every node of the trie is the node of an LRU with the property [P]. *)
Definition covered (P : string → Prop) (bs : list NodeData) : Prop :=
  ∀ b, LRU_TRIE_NODE_HEADER_BLOCKS ≤ b < length bs →
       ∃ lru, P lru ∧ reaches bs lru b.

(** Where a walk is after the characters [q]: above the first sibling list
    when it has read none, at the node of [q] otherwise. *)
Definition at_node (bs : list NodeData) (q : string) (p : nat) : Prop :=
  (q = EmptyString ∧ p = 0) ∨ reaches bs q p.

Lemma pwalk_pos bs lru :
  fwd bs →
  ∀ rest i b h v dv hv,
    0 < b → pwalk bs lru rest i b h = Some (v, dv, hv) → 0 < v.
Proof.
  intros Hf.
  induction rest as [|c rest IH]; intros i b h v dv hv Hb Hp; [done|].
  rewrite pwalk_cons in Hp.
  destruct (find_sibling bs (ord c) (chain bs b)) as [x|] eqn:Hfind; [|done].
  apply find_sibling_Some in Hfind as [Hin _].
  destruct (chain_mem _ _ _ Hf Hin) as [Hbx _].
  destruct (bs !! x) as [dx|] eqn:Hx; [|done].
  unfold pwalk_below in Hp. destruct rest as [|c' rest'].
  - simplify_eq. lia.
  - destruct (n_child dx =? 0) eqn:Hz; [done|]. apply Nat.eqb_neq in Hz.
    apply IH in Hp; [done|lia].
Qed.

Lemma pwalk_app bs lru :
  ∀ q i b h m dm hm rest,
    pwalk bs lru q i b h = Some (m, dm, hm) →
    ∃ i', pwalk bs lru (String.append q rest) i b h
          = pwalk_below bs lru rest i' m dm hm.
Proof.
  induction q as [|c q IH]; intros i b h m dm hm rest Hp; [done|].
  change (String.append (String c q) rest) with (String c (String.append q rest)).
  rewrite pwalk_cons in Hp. rewrite pwalk_cons.
  destruct (find_sibling bs (ord c) (chain bs b)) as [x|]; [|done].
  destruct (bs !! x) as [dx|]; [|done].
  unfold pwalk_below in Hp. destruct q as [|c' q'].
  - simplify_eq. by exists (S i).
  - destruct (n_child dx =? 0) eqn:Hz; [done|].
    change (String.append (String c' q') rest)
      with (String c' (String.append q' rest)).
    unfold pwalk_below at 1. rewrite Hz.
    change (String c' (String.append q' rest))
      with (String.append (String c' q') rest).
    by eapply IH.
Qed.

Lemma reaches_ext bs bs1 lru b :
  ext bs bs1 → fwd bs → fwd bs1 → reaches bs lru b → reaches bs1 lru b.
Proof.
  intros He Hf Hf1 (d & h & Hp).
  destruct (pwalk_ext _ _ lru lru He Hf Hf1 _ _ 0 _ _ new_history _ _ _ Hp)
    as (d1 & h1 & Hp1).
  by exists d1, h1.
Qed.

Lemma at_node_ext bs bs1 q p :
  ext bs bs1 → fwd bs → fwd bs1 → at_node bs q p → at_node bs1 q p.
Proof.
  intros He Hf Hf1 [?|Hr]; [by left|]. right. by eapply reaches_ext.
Qed.

(** One more character: the sibling that carries it, in the list below the
    node the walk is at, is the node of the longer LRU. *)
Lemma reaches_snoc bs q p c v dv :
  fwd bs → at_node bs q p → head_of bs p ≠ 0 →
  find_sibling bs (ord c) (chain bs (head_of bs p)) = Some v →
  bs !! v = Some dv →
  reaches bs (String.append q (String c EmptyString)) v.
Proof.
  intros Hf Hat Hnz Hfind Hv. unfold reaches.
  destruct Hat as [[-> ->]|(dp & hp & Hp)].
  - change (String.append EmptyString (String c EmptyString))
      with (String c EmptyString).
    rewrite pwalk_cons. rewrite head_of_root in Hfind. rewrite Hfind, Hv.
    cbn [pwalk_below]. by eexists _, _.
  - set (lru := String.append q (String c EmptyString)).
    destruct (pwalk_ext _ _ q lru (ext_refl _) Hf Hf _ _ 0 _ _ new_history _ _ _ Hp)
      as (dp1 & hp1 & Hp1).
    pose proof (pwalk_lookup _ _ _ _ _ _ _ _ _ Hp1) as Hdp.
    assert (0 < p) as Hp0.
    { eapply (pwalk_pos _ _ Hf); [|exact Hp1].
      change LRU_TRIE_NODE_HEADER_BLOCKS with 1. lia. }
    destruct (pwalk_app _ _ _ _ _ _ _ _ _ (String c EmptyString) Hp1)
      as [i' Happ].
    fold lru in Happ. rewrite Happ. unfold pwalk_below.
    rewrite (head_of_child _ _ _ Hp0 Hdp) in Hnz, Hfind.
    rewrite (proj2 (Nat.eqb_neq _ _) Hnz).
    rewrite pwalk_cons, Hfind, Hv. cbn [pwalk_below]. by eexists _, _.
Qed.

(** A store one block longer at most: the nodes are covered when the old
    ones were and the new one is. *)
Lemma covered_grow P bs bs1 :
  ext bs bs1 → fwd bs → fwd bs1 → length bs1 ≤ S (length bs) →
  covered P bs →
  (length bs1 = S (length bs) → LRU_TRIE_NODE_HEADER_BLOCKS ≤ length bs →
   ∃ lru, P lru ∧ reaches bs1 lru (length bs)) →
  covered P bs1.
Proof.
  intros He Hf Hf1 Hlen Hcov Hnew b Hb.
  destruct (decide (b < length bs)) as [Hlt|Hge].
  - destruct (Hcov b ltac:(lia)) as (lru & HP & Hr).
    exists lru. split; [done|]. by eapply reaches_ext.
  - assert (b = length bs) as -> by lia. apply Hnew; lia.
Qed.

Lemma node_of_block_block st b :
  node_exists (node_of_block st b) = true → block (node_of_block st b) ≠ None.
Proof. unfold node_of_block, read. by destruct (storage_read st _). Qed.

Section Covered.

Variable P : string → Prop.

(** The first loop of [add_lru] keeps the nodes covered when the prefixes
    it reads have the property, and stops at the node of what it read. *)
Lemma descend_covered lru0 :
  ∀ rest i st p history q n history' rest' st',
    wf st → head_of (blocks st) p ≠ 0 → rest ≠ EmptyString →
    at_node (blocks st) q p →
    (∀ s t, s ≠ EmptyString → rest = String.append s t →
            P (String.append q s)) →
    covered P (blocks st) →
    descend lru0 rest i (node_of_block st (head_of (blocks st) p)) history st
      = Ok (n, history', rest', st') →
    covered P (blocks st')
    ∧ ∃ v dv r,
        n = handle v dv ∧ r ≠ EmptyString
        ∧ rest = String.append r rest'
        ∧ reaches (blocks st') (String.append q r) v.
Proof.
  induction rest as [|c rest IH];
    intros i st p history q n history' rest' st' Hw Hnz Hne Hat Hpre Hcov Hdesc;
    [done|].
  destruct (ensure_char_spec st p (ord c) Hw Hnz)
    as (v & dv & st1 & Hens & Hsteps & Hv & Hv0 & Hhead & Hfind & Hcase).
  pose proof (steps_wf _ _ Hw Hsteps) as Hw1.
  pose proof (steps_ext _ _ Hw Hsteps) as He.
  pose proof (proj2 Hw) as Hf. pose proof (proj2 Hw1) as Hf1.
  rewrite descend_cons, Hens in Hdesc. cbn [bind fst snd data handle] in Hdesc.
  assert (reaches (blocks st1) (String.append q (String c EmptyString)) v) as Hr1.
  { apply (reaches_snoc _ q p c v dv); [done|by eapply at_node_ext| | |done].
    - by rewrite Hhead.
    - by rewrite Hhead. }
  assert (P (String.append q (String c EmptyString))) as HP1
    by (by apply (Hpre (String c EmptyString) rest)).
  assert (covered P (blocks st1)) as Hcov1.
  { destruct (ensure_char_length _ _ _ _ _ (node_of_block_block st _) Hens)
      as (_ & _ & Hlen).
    apply (covered_grow P (blocks st)); try done.
    intros Hgrow _. destruct Hcase as [[-> _]|(_ & -> & _)]; [lia|].
    by exists (String.append q (String c EmptyString)). }
  assert (covered P (blocks st1)
          ∧ ∃ v0 dv0 r,
              handle v dv = handle v0 dv0 ∧ r ≠ EmptyString
              ∧ String c rest = String.append r rest
              ∧ reaches (blocks st1) (String.append q r) v0) as Hstop.
  { split; [done|]. by exists v, dv, (String c EmptyString). }
  destruct rest as [|c2 rest2].
  - by simplify_eq.
  - destruct (has_child (handle v dv)) eqn:Hchild; [|by simplify_eq].
    unfold has_child in Hchild. cbn [data handle] in Hchild.
    apply negb_true_iff, Nat.eqb_neq in Hchild.
    pose proof (head_of_child _ _ _ Hv0 Hv) as Hhd.
    destruct (Hf1 v dv Hv) as (_ & [?|Hclt] & _); [done|].
    destruct (lookup_lt_is_Some_2 (blocks st1) (n_child dv)) as [dch Hdch]; [lia|].
    assert (read_child st1 (handle v dv)
            = Ok (node_of_block st1 (head_of (blocks st1) v))) as Hread.
    { unfold read_child, has_child. cbn [data handle].
      rewrite (proj2 (Nat.eqb_neq _ _) Hchild). cbn [negb].
      rewrite Hhd, (node_of_block_handle _ _ _ Hdch).
      by rewrite (read_handle _ _ _ _ Hdch). }
    rewrite Hread in Hdesc. cbn [bind] in Hdesc.
    apply (IH (S i) st1 v _ (String.append q (String c EmptyString))) in Hdesc
      as (Hcov' & v' & dv' & r & -> & Hr & Hrest & Hreach); try done.
    + split; [done|]. exists v', dv', (String c r).
      split; [done|]. split; [done|]. split.
      * change (String.append (String c r) rest') with (String c (String.append r rest')).
        by rewrite <- Hrest.
      * by rewrite <- append_char_assoc.
    + by rewrite Hhd.
    + by right.
    + intros s t Hs Heq. rewrite append_char_assoc.
      apply (Hpre (String c s) t); [done|].
      change (String.append (String c s) t) with (String c (String.append s t)).
      by rewrite <- Heq.
Qed.

(** The second loop of [add_lru] keeps the nodes covered when the LRUs of
    the children it appends have the property. *)
Lemma extend_covered :
  ∀ rest st v dv q n st',
    wf st → 0 < v → blocks st !! v = Some dv →
    (rest ≠ EmptyString → n_child dv = 0) →
    reaches (blocks st) q v →
    (∀ s t, s ≠ EmptyString → rest = String.append s t →
            P (String.append q s)) →
    covered P (blocks st) →
    extend rest (handle v dv) st = Ok (n, st') →
    covered P (blocks st').
Proof.
  induction rest as [|c rest IH];
    intros st v dv q n st' Hw Hv0 Hv Hch Hreach Hpre Hcov Hext.
  { cbn [extend] in Hext. by simplify_eq. }
  rewrite extend_cons in Hext.
  set (dnew := data_set_parent v (default_data (ord c))) in *.
  set (st1 := {| blocks := new_child (blocks st) v dv (ord c);
                 journal := journal st ++
                   [(length (blocks st), dnew);
                    (v, data_set_child (length (blocks st)) dv)] |}) in *.
  pose proof (lookup_lt_Some _ _ _ Hv) as Hvlt.
  assert (step st st1) as Hstep
    by (apply (step_child st v dv (ord c)); [done|done|by apply Hch]).
  pose proof (step_wf _ _ Hw Hstep) as Hw1.
  pose proof (step_ext _ _ Hw Hstep) as He.
  pose proof (proj2 Hw) as Hf. pose proof (proj2 Hw1) as Hf1.
  assert (blocks st1 !! length (blocks st) = Some dnew) as Hnew.
  { cbn [blocks st1]. rewrite (new_child_lookup _ _ _ _ _ Hv).
    repeat case_decide; [lia|done|done]. }
  assert (blocks st1 !! v = Some (data_set_child (length (blocks st)) dv)) as Hv1.
  { cbn [blocks st1]. rewrite (new_child_lookup _ _ _ _ _ Hv). by rewrite decide_True. }
  assert (head_of (blocks st1) v = length (blocks st)) as Hhd
    by (by rewrite (head_of_child _ _ _ Hv0 Hv1)).
  assert (reaches (blocks st1) (String.append q (String c EmptyString))
            (length (blocks st))) as Hr1.
  { apply (reaches_snoc _ q v c _ dnew); [done| | | |done].
    - right. by eapply reaches_ext.
    - rewrite Hhd. lia.
    - rewrite Hhd, (chain_unfold _ _ _ Hf1 Hnew), find_sibling_cons,
        (char_at_lookup _ _ _ Hnew).
      cbn [dnew data_set_parent default_data n_char]. by rewrite Z.eqb_refl. }
  assert (P (String.append q (String c EmptyString))) as HP1
    by (by apply (Hpre (String c EmptyString) rest)).
  apply (IH st1 (length (blocks st)) dnew
            (String.append q (String c EmptyString))) in Hext; try done.
  - lia.
  - intros s t Hs Heq. rewrite append_char_assoc.
    apply (Hpre (String c s) t); [done|].
    change (String.append (String c s) t) with (String c (String.append s t)).
    by rewrite <- Heq.
  - apply (covered_grow P (blocks st)); try done.
    + cbn [blocks st1]. rewrite new_child_length. lia.
    + intros _ _. by exists (String.append q (String c EmptyString)).
Qed.

Lemma add_lru_covered lru st n history st' :
  wf st → lru ≠ EmptyString →
  (∀ s t, s ≠ EmptyString → lru = String.append s t → P s) →
  covered P (blocks st) →
  add_lru lru st = Ok (n, history, st') →
  covered P (blocks st').
Proof.
  intros Hw Hne Hpre Hcov Hadd.
  destruct (descend_spec lru lru 0 st 0 new_history Hw ltac:(done) Hne)
    as (v & dv & h1 & rest' & st1 & Hdesc & Hsteps & Hv & Hv0 & Hch & _).
  pose proof (steps_wf _ _ Hw Hsteps) as Hw1.
  pose proof Hdesc as Hdesc0.
  apply (descend_covered lru lru 0 st 0 new_history EmptyString) in Hdesc
    as (Hcov1 & v' & dv' & r & Heq & Hr & Hrest & Hreach);
    [|done|done|done|by left|done|done].
  unfold handle in Heq. simplify_eq.
  change (String.append EmptyString r) with r in Hreach.
  unfold add_lru, root in Hadd. rewrite head_of_root in Hdesc0.
  rewrite Hdesc0 in Hadd. cbn [bind] in Hadd.
  destruct (extend rest' (handle v' dv') st1) as [[n2 st2]|e] eqn:Hext;
    cbn [bind] in Hadd; [|done].
  simplify_eq.
  apply (extend_covered rest' st1 v' dv' r) in Hext; try done.
  intros s t Hs Heq. apply (Hpre (String.append r s) t).
  - by destruct r.
  - by rewrite PackFacts.append_assoc, <- Heq.
Qed.

Lemma insert_covered op st st' :
  wf st → lru_of op ≠ EmptyString →
  (∀ s t, s ≠ EmptyString → lru_of op = String.append s t → P s) →
  covered P (blocks st) →
  insert op st = Ok st' →
  covered P (blocks st').
Proof.
  intros Hw Hne Hpre Hcov Hins.
  destruct (add_lru_spec (lru_of op) st Hw Hne)
    as (v & dv & history & sa & Hadd & Hsteps & Hv & Hv0 & _).
  pose proof (steps_wf _ _ Hw Hsteps) as Hwa.
  pose proof (add_lru_covered _ _ _ _ _ Hw Hne Hpre Hcov Hadd) as Hcova.
  destruct op as [lru|lru]; cbn [insert lru_of] in *.
  - rewrite Hadd in Hins. cbn [bind] in Hins. by simplify_eq.
  - unfold add_page in Hins. rewrite Hadd in Hins. cbn [bind] in Hins.
    destruct (negb (is_page (handle v dv))); cbn [bind] in Hins;
      [|by simplify_eq].
    unfold flag_as_page, with_data in Hins.
    cbn [data handle block node_exists] in Hins.
    set (d := set_flags (flag (n_flags dv) LRU_TRIE_NODE_FLAG_PAGE) dv) in *.
    change {| block := Some v; node_exists := true; data := d |}
      with (handle v d) in Hins.
    rewrite write_handle in Hins. cbn [bind] in Hins. simplify_eq.
    cbn [blocks]. intros b Hb. rewrite length_insert in Hb.
    destruct (Hcova b Hb) as (s & HP & Hr). exists s. split; [done|].
    set (st' := {| blocks := <[v := d]> (blocks sa);
                   journal := journal sa ++ [(v, d)] |}).
    destruct (page_bit_flag dv) as (Hp1 & Hp2 & Hp3).
    assert (step sa st') as Hstep.
    { by apply (step_flags sa v dv d). }
    apply (reaches_ext (blocks sa) (blocks st')); [|apply Hwa| |done].
    + by apply step_ext.
    + by apply (step_wf _ _ Hwa Hstep).
Qed.

Lemma insert_all_covered ops :
  ∀ st st',
    wf st →
    Forall (λ op, lru_of op ≠ EmptyString) ops →
    (∀ op s t, op ∈ ops → s ≠ EmptyString →
               lru_of op = String.append s t → P s) →
    covered P (blocks st) →
    insert_all ops st = Ok st' →
    covered P (blocks st').
Proof.
  induction ops as [|op ops IH]; intros st st' Hw Hall Hpre Hcov Hrun.
  { cbn [insert_all] in Hrun. by simplify_eq. }
  apply Forall_cons in Hall as [Hne Hall].
  destruct (insert_path op st Hw) as (st1 & Hins & Hsteps & _).
  cbn [insert_all] in Hrun. rewrite Hins in Hrun. cbn [bind] in Hrun.
  apply (IH st1 st'); [by eapply steps_wf|done| | |done].
  - intros op' s t Hin. apply Hpre. by apply list_elem_of_further.
  - apply (insert_covered op st); try done.
    intros s t. apply Hpre. apply list_elem_of_here.
Qed.

End Covered.

Lemma NoDup_fst_functional {A B} (l : list (A * B)) a x y :
  NoDup l.*1 → (a, x) ∈ l → (a, y) ∈ l → x = y.
Proof.
  induction l as [|[a' z] l IH]; intros Hnd Hx Hy; [by apply elem_of_nil in Hx|].
  cbn [fmap list_fmap fst] in Hnd. apply NoDup_cons in Hnd as [Hnot Hnd].
  apply elem_of_cons in Hx as [Hx|Hx]; apply elem_of_cons in Hy as [Hy|Hy].
  - congruence.
  - simplify_eq. destruct Hnot. by apply (list_elem_of_fmap_2 fst) in Hy.
  - simplify_eq. destruct Hnot. by apply (list_elem_of_fmap_2 fst) in Hx.
  - by apply IH.
Qed.

(** X24. On a trie built from the empty trie by insertions of non-empty
    LRUs, the only non-empty LRUs [lru_node] finds a stored node for are
    the prefixes of the LRUs inserted. *)
Theorem lru_node_finds_only_what_was_inserted (ops : list insertion) :
  Forall (λ op, lru_of op ≠ EmptyString) ops →
  ∃ st,
    insert_all ops empty_trie = Ok st
    ∧ ∀ lru n b,
        lru ≠ EmptyString →
        lru_node lru st = Ok (Some n) → block n = Some b →
        ∃ op rest, op ∈ ops ∧ lru_of op = String.append lru rest.
Proof.
  intros Hall.
  destruct (insert_all_spec ops empty_trie empty_trie_tree empty_trie_header)
    as (st & Hrun & _ & Ht & _ & _).
  pose proof (tree_wf _ Ht) as Hw. pose proof (tree_fwd _ Ht) as Hf.
  exists st. split; [done|]. intros lru n b Hne Hl Hb.
  destruct (decide (length (blocks st) ≤ LRU_TRIE_NODE_HEADER_BLOCKS)) as [Hno|Hroot].
  { rewrite (lru_node_rootless _ _ _ Hno Hl) in Hb. done. }
  rewrite (lru_node_pwalk _ _ Hw) in Hl by (done || lia).
  destruct (pwalk (blocks st) _ _ 0 LRU_TRIE_NODE_HEADER_BLOCKS new_history)
    as [[[v dv] hv]|] eqn:Hp; [|done].
  cbn [found_handle] in Hl. simplify_eq. cbn [handle block] in Hb. simplify_eq.
  set (P := λ s : string, ∃ op rest, op ∈ ops ∧ lru_of op = String.append s rest).
  assert (covered P (blocks st)) as Hcov.
  { apply (insert_all_covered P ops empty_trie st); try done.
    - apply tree_wf, empty_trie_tree.
    - intros op s t Hin _ Heq. by exists op, t.
    - intros x Hx. rewrite empty_trie_blocks in Hx. cbn [length] in Hx.
      change LRU_TRIE_NODE_HEADER_BLOCKS with 1 in Hx. lia. }
  pose proof (pwalk_lookup _ _ _ _ _ _ _ _ _ Hp) as Hv.
  assert (0 < b) as Hb0.
  { eapply (pwalk_pos _ _ Hf); [|exact Hp].
    change LRU_TRIE_NODE_HEADER_BLOCKS with 1. lia. }
  destruct (Hcov b) as (s & HP & ds & hs & Hs).
  { split; [change LRU_TRIE_NODE_HEADER_BLOCKS with 1; lia|].
    by eapply lookup_lt_Some. }
  apply (pwalk_preorder _ _ Hf _ _ _ _ _ _ _ EmptyString) in Hp.
  apply (pwalk_preorder _ _ Hf _ _ _ _ _ _ _ EmptyString) in Hs.
  change (String.append EmptyString ?x) with x in Hp, Hs.
  destruct (lookup_lt_is_Some_2 (blocks st) LRU_TRIE_NODE_HEADER_BLOCKS)
    as [d Hd]; [lia|].
  assert (LRU_TRIE_NODE_HEADER_BLOCKS < length (blocks st)) as Hlt by lia.
  assert (s = lru) as ->; [|done].
  apply (NoDup_fst_functional _ b _ _
           (preorder_NoDup _ Ht _ Hlt 0 EmptyString
              (siblings_root _ d Hf Hd)) Hs Hp).
Qed.

(** * Further properties of the coordinator *)

Section CoordinatorFurther.

Variable lru_variations : string -> list string.
Variable LinkStorage : Type.
Variable add_outlinks add_inlinks :
  LRUTrieNode -> list (option nat) -> Storage * LinkStorage ->
  result (Storage * LinkStorage).

Abbreviation Traph := (Traph LinkStorage).

(** ** Adding a page *)

Lemma add_prefixes_trie (t : Traph) prefixes w t' :
  wf (lru_trie_storage _ t) →
  add_prefixes LinkStorage prefixes t = Ok (w, t') →
  steps (lru_trie_storage _ t) (lru_trie_storage _ t')
  ∧ links_store_storage _ t' = links_store_storage _ t
  ∧ webentity_creation_rules _ t' = webentity_creation_rules _ t
  ∧ w = S (last_webentity_id _ t) ∧ last_webentity_id _ t' = w.
Proof.
  intros Hw. unfold add_prefixes, generated_web_entity_id.
  cbn [lru_trie_storage].
  destruct (set_prefixes_spec (S (last_webentity_id _ t)) prefixes _ Hw)
    as (st' & Hset & Hsteps & _).
  rewrite Hset. cbn [bind]. intros [= <- <-]. done.
Qed.

Lemma Traph_add_page_trie (t : Traph) lru n r t' :
  wf (lru_trie_storage _ t) →
  Traph_add_page lru_variations LinkStorage lru t = Ok (n, r, t') →
  (∃ history st1,
     add_page lru (lru_trie_storage _ t) = Ok (n, history, st1)
     ∧ steps (lru_trie_storage _ t) st1
     ∧ steps st1 (lru_trie_storage _ t'))
  ∧ links_store_storage _ t' = links_store_storage _ t
  ∧ webentity_creation_rules _ t' = webentity_creation_rules _ t
  ∧ ((r = new_report ∧ last_webentity_id _ t' = last_webentity_id _ t)
     ∨ (∃ candidate,
          r = report_created (S (last_webentity_id _ t))
                (expand_prefix lru_variations candidate) new_report
          ∧ last_webentity_id _ t' = S (last_webentity_id _ t))).
Proof.
  intros Hw. unfold Traph_add_page. cbn [lru_trie_storage entered].
  destruct (add_page_spec lru _ Hw)
    as (v & dv & history & st1 & Hadd & Hsteps & _).
  pose proof (steps_wf _ _ Hw Hsteps) as Hw1.
  rewrite Hadd. cbn [bind].
  destruct (longest_candidate _ _ _ _ _) as [c|e]; cbn [bind]; [|done].
  destruct (nonempty c && _) eqn:Hcov.
  { intros [= <- <- <-]. split.
    { exists history, st1. split; [done|]. split; [done|apply rtc_refl]. }
    split; [done|]. split; [done|]. by left. }
  assert (∀ prefixes,
    bind (add_prefixes LinkStorage prefixes
            (with_storage _ st1 (entered _ lru t)))
      (λ '(webentity_id, t0),
         Ok (handle v dv, report_created webentity_id prefixes new_report, t0))
    = Ok (n, r, t') →
    (∃ history st1,
       add_page lru (lru_trie_storage _ t) = Ok (n, history, st1)
       ∧ steps (lru_trie_storage _ t) st1
       ∧ steps st1 (lru_trie_storage _ t'))
    ∧ links_store_storage _ t' = links_store_storage _ t
    ∧ webentity_creation_rules _ t' = webentity_creation_rules _ t
    ∧ r = report_created (S (last_webentity_id _ t)) prefixes new_report
    ∧ last_webentity_id _ t' = S (last_webentity_id _ t)) as Hcreate.
  { intros prefixes Hb.
    destruct (add_prefixes LinkStorage prefixes _) as [[w t2]|e] eqn:Hp;
      cbn [bind] in Hb; [|done].
    simplify_eq.
    apply add_prefixes_trie in Hp as (Hs2 & Hl & Hr & -> & Hlast); [|done].
    cbn [lru_trie_storage with_storage] in Hs2.
    split; [by exists history, st1|]. done. }
  destruct (nonempty c).
  - intros Hb. apply Hcreate in Hb as (Hex & ? & ? & ? & ?).
    rewrite Hadd in Hex.
    split; [done|]. split; [done|]. split; [done|]. right. by exists c.
  - destruct (apply_webentity_default_creation_rule _ _ _) as [c'|]; [|done].
    intros Hb. apply Hcreate in Hb as (Hex & ? & ? & ? & ?).
    rewrite Hadd in Hex.
    split; [done|]. split; [done|]. split; [done|]. right. by exists c'.
Qed.

(** X16. When the [add_page] of the coordinator returns, the trie is still well
    formed, and a trie with distinct sibling characters still is one; what
    [lru_node] found before is found on the same block; the link store and
    the rules are untouched; and the report has no webentity and the id
    counter its value, or the report has one webentity, under the next id,
    which the counter then holds. *)
Theorem coordinator_add_page_keeps_the_trie
    (t : Traph) (lru : string) (report : TraphWriteReport) (t' : Traph) :
  wf (lru_trie_storage _ t) →
  Traph_add_page_report lru_variations LinkStorage lru t = Ok (report, t') →
  wf (lru_trie_storage _ t')
  ∧ (tree (blocks (lru_trie_storage _ t)) → tree (blocks (lru_trie_storage _ t')))
  ∧ (∀ other n b,
       lru_node other (lru_trie_storage _ t) = Ok (Some n) → block n = Some b →
       ∃ n', lru_node other (lru_trie_storage _ t') = Ok (Some n')
             ∧ block n' = Some b ∧ char n' = char n)
  ∧ links_store_storage _ t' = links_store_storage _ t
  ∧ webentity_creation_rules _ t' = webentity_creation_rules _ t
  ∧ ((created_webentities report = ∅
      ∧ last_webentity_id _ t' = last_webentity_id _ t)
     ∨ (∃ prefixes,
          created_webentities report = {[S (last_webentity_id _ t) := prefixes]}
          ∧ last_webentity_id _ t' = S (last_webentity_id _ t))).
Proof.
  intros Hw. unfold Traph_add_page_report.
  destruct (Traph_add_page _ _ lru t) as [[[n r] t1]|e] eqn:Hcall;
    cbn [bind]; [|done].
  intros [= <- <-].
  destruct (Traph_add_page_trie _ _ _ _ _ Hw Hcall)
    as ((h1 & st1 & _ & Hs1 & Hs2) & Hl & Hr & Hrep).
  assert (steps (lru_trie_storage _ t) (lru_trie_storage _ t1)) as Hsteps
    by (by eapply rtc_trans).
  split; [by eapply steps_wf|]. split; [intros Ht; by eapply steps_tree|].
  split.
  { intros other m b Hfind Hb.
    destruct (lookup_kept _ _ _ _ _ Hw Hsteps Hfind Hb)
      as (n' & ? & ? & _ & ? & _).
    by exists n'. }
  split; [done|]. split; [done|].
  destruct Hrep as [[-> ?]|(c & -> & ?)]; [by left|].
  right. exists (expand_prefix lru_variations c). split; [|done].
  cbn [created_webentities report_created new_report].
  by rewrite insert_empty.
Qed.

(** ** Removing a creation rule *)

(** Two stores with the same characters and pointers: they differ by
    flags and webentity ids only. *)
Definition same_links (bs bs' : list NodeData) : Prop :=
  length bs' = length bs
  ∧ ∀ b d, bs !! b = Some d →
      ∃ d', bs' !! b = Some d'
            ∧ n_char d' = n_char d ∧ n_next d' = n_next d
            ∧ n_child d' = n_child d ∧ n_parent d' = n_parent d.

Lemma same_links_fwd bs bs' : same_links bs bs' → fwd bs → fwd bs'.
Proof.
  intros [Hlen Hsame] Hf b d' Hb'.
  pose proof (lookup_lt_Some _ _ _ Hb') as Hlt. rewrite Hlen in Hlt.
  destruct (lookup_lt_is_Some_2 _ _ Hlt) as [d Hb].
  destruct (Hsame _ _ Hb) as (d'' & Hb'' & _ & Hn & Hc & Hp).
  assert (d'' = d') as -> by congruence.
  unfold block_ok. rewrite Hn, Hc, Hp, Hlen. by apply Hf.
Qed.

Lemma same_links_find bs bs' c h :
  same_links bs bs' → fwd bs → fwd bs' →
  find_sibling bs' c (chain bs' h) = find_sibling bs c (chain bs h).
Proof.
  intros [Hlen Hsame] Hf Hf'.
  destruct (decide (h < length bs)) as [Hlt|Hge];
    [|by rewrite !chain_outside by lia].
  rewrite (chain_same_next bs bs' Hf Hf' ltac:(lia)); [| |done].
  2: { intros b d Hb. destruct (Hsame _ _ Hb) as (d' & ? & _ & ? & _).
       by exists d'. }
  assert (∀ l, (∀ v, v ∈ l → v < length bs) →
               find_sibling bs' c l = find_sibling bs c l) as Hfind.
  { induction l as [|v l IH]; intros Hl; [done|]. rewrite !find_sibling_cons.
    destruct (lookup_lt_is_Some_2 bs v) as [d Hd];
      [apply Hl, list_elem_of_here|].
    destruct (Hsame _ _ Hd) as (d' & Hd' & Hc & _).
    rewrite (char_at_lookup _ _ _ Hd), (char_at_lookup _ _ _ Hd'), Hc.
    destruct (n_char d =? c)%Z; [done|].
    apply IH. intros x Hx. by apply Hl, list_elem_of_further. }
  apply Hfind. intros v Hv. apply (chain_mem _ _ _ Hf) in Hv. lia.
Qed.

Lemma pwalk_same_links bs bs' lru lru1 :
  same_links bs bs' → fwd bs → fwd bs' →
  ∀ rest i i1 b h h1 v dv hv,
    pwalk bs lru rest i b h = Some (v, dv, hv) →
    ∃ dv1 hv1, pwalk bs' lru1 rest i1 b h1 = Some (v, dv1, hv1).
Proof.
  intros Hs Hf Hf'.
  induction rest as [|c rest IH]; intros i i1 b h h1 v dv hv Hp; [done|].
  rewrite pwalk_cons in Hp. rewrite pwalk_cons.
  rewrite (same_links_find _ _ _ _ Hs Hf Hf').
  destruct (find_sibling bs (ord c) (chain bs b)) as [x|]; [|done].
  destruct (bs !! x) as [dx|] eqn:Hx; [|done].
  destruct (proj2 Hs _ _ Hx) as (dx1 & Hx1 & _ & _ & Hch & _).
  rewrite Hx1. unfold pwalk_below in *. destruct rest as [|c' rest'].
  - simplify_eq. by eexists _, _.
  - rewrite Hch. destruct (n_child dx =? 0); [done|]. by eapply IH.
Qed.

Lemma remove_rule_unregistered rule_prefix (t : Traph) :
  webentity_creation_rules _ t !! rule_prefix = None →
  remove_webentity_creation_rule _ rule_prefix t = (Raises KeyError, t).
Proof. unfold remove_webentity_creation_rule. by intros ->. Qed.

(** X17. [remove_webentity_creation_rule] raises [KeyError] for a prefix that
    has no rule and leaves the Traph as it is. For a prefix that has one,
    the rule is deleted whatever comes next, so that a second call raises
    [KeyError]: when [lru_node] finds nothing an [Exception] is raised and
    the trie is as it was; when it finds a node on a block the call
    returns [True], the node has lost its rule flag and kept its other
    flags, and no block is added. *)
Theorem remove_webentity_creation_rule_outcomes (rule_prefix : string) (t : Traph) :
  wf (lru_trie_storage _ t) →
  (webentity_creation_rules _ t !! rule_prefix = None →
   remove_webentity_creation_rule _ rule_prefix t = (Raises KeyError, t))
  ∧ (is_Some (webentity_creation_rules _ t !! rule_prefix) →
     ∃ o t',
       remove_webentity_creation_rule _ rule_prefix t = (o, t')
       ∧ webentity_creation_rules _ t'
         = delete rule_prefix (webentity_creation_rules _ t)
       ∧ (remove_webentity_creation_rule _ rule_prefix t').1 = Raises KeyError
       ∧ (lru_node rule_prefix (lru_trie_storage _ t) = Ok None →
          o = RaisesException (String.append "Prefix not in tree: " rule_prefix)
          ∧ lru_trie_storage _ t' = lru_trie_storage _ t)
       ∧ (∀ n b,
            lru_node rule_prefix (lru_trie_storage _ t) = Ok (Some n) →
            block n = Some b →
            o = Returns true
            ∧ length (blocks (lru_trie_storage _ t'))
              = length (blocks (lru_trie_storage _ t))
            ∧ ∃ n', lru_node rule_prefix (lru_trie_storage _ t') = Ok (Some n')
                    ∧ block n' = Some b ∧ char n' = char n
                    ∧ has_webentity_creation_rule n' = false
                    ∧ is_page n' = is_page n
                    ∧ has_webentity n' = has_webentity n)).
Proof.
  intros Hw. split; [apply remove_rule_unregistered|].
  intros [pattern Hrule].
  assert (∀ st o,
    (remove_webentity_creation_rule _ rule_prefix
       (with_storage _ st
          (with_rules _ (delete rule_prefix (webentity_creation_rules _ t)) t))).1
    = o → o = Raises KeyError) as Hgone.
  { intros st o <-. rewrite remove_rule_unregistered; [done|].
    cbn [webentity_creation_rules with_storage with_rules].
    apply lookup_delete_eq. }
  assert (∀ o,
    (remove_webentity_creation_rule _ rule_prefix
       (with_rules _ (delete rule_prefix (webentity_creation_rules _ t)) t)).1
    = o → o = Raises KeyError) as Hgone'.
  { intros o <-. rewrite remove_rule_unregistered; [done|].
    cbn [webentity_creation_rules with_rules].
    apply lookup_delete_eq. }
  unfold remove_webentity_creation_rule at 1. rewrite Hrule.
  cbn [lru_trie_storage with_rules].
    destruct (lru_node rule_prefix (lru_trie_storage _ t)) as [[n|]|e] eqn:Hfind.
    + destruct (block n) as [b|] eqn:Hb.
      * destruct (lru_node_stored _ _ _ _ Hw Hfind Hb) as (d & -> & Hd).
        unfold unflag_as_webentity_creation_rule, with_data.
        cbn [data handle block node_exists].
        set (d' := set_flags (unflag (n_flags d)
                                LRU_TRIE_NODE_FLAG_WEBENTITY_CREATION_RULE) d).
        change {| block := Some b; node_exists := true; data := d' |}
          with (handle b d').
        rewrite write_handle.
        set (st' := {| blocks := <[b := d']> (blocks (lru_trie_storage _ t));
                       journal := journal (lru_trie_storage _ t) ++ [(b, d')] |}).
        eexists _, _. split; [done|]. cbn [webentity_creation_rules with_storage
          with_rules lru_trie_storage].
        split; [done|]. split; [by eapply Hgone|]. split; [done|].
        intros n1 b1 [= <-] [= <-]. split; [done|].
        split; [cbn [blocks st']; by rewrite length_insert|].
        pose proof (lookup_lt_Some _ _ _ Hd) as Hlt.
        assert (blocks st' !! b = Some d') as Hd'
          by (by apply list_lookup_insert_eq).
        assert (same_links (blocks (lru_trie_storage _ t)) (blocks st')) as Hsame.
        { split; [cbn [blocks st']; by rewrite length_insert|].
          intros x dx Hx. destruct (decide (x = b)) as [->|Hne].
          - exists d'. assert (dx = d) as -> by congruence. done.
          - exists dx. split; [|done]. cbn [blocks st'].
            by rewrite list_lookup_insert_ne. }
        assert (wf st') as Hw'.
        { split; [rewrite (proj1 Hsame); apply Hw|].
          apply (same_links_fwd _ _ Hsame), Hw. }
        exists (handle b d'). split; [|split; [done|split; [done|]]].
        -- destruct (decide (rule_prefix = EmptyString)) as [->|Hne].
           ++ unfold lru_node in *. cbn [lru_node_from] in *. simplify_eq.
              revert Hfind. unfold root.
              destruct (blocks (lru_trie_storage _ t) !! LRU_TRIE_NODE_HEADER_BLOCKS)
                as [d0|] eqn:H0.
              ** rewrite (node_of_block_handle _ _ _ H0). intros [= -> ->].
                 by rewrite (node_of_block_handle _ _ _ Hd').
              ** rewrite node_of_block_missing by (by apply lookup_ge_None).
                 done.
           ++ assert (LRU_TRIE_NODE_HEADER_BLOCKS
                      < length (blocks (lru_trie_storage _ t))) as Hroot.
              { destruct (decide (length (blocks (lru_trie_storage _ t))
                                  ≤ LRU_TRIE_NODE_HEADER_BLOCKS)) as [Hno|?]; [|lia].
                by pose proof (lru_node_rootless _ _ _ Hno Hfind). }
              rewrite (lru_node_pwalk _ _ Hw) in Hfind by done.
              destruct (pwalk (blocks (lru_trie_storage _ t)) rule_prefix rule_prefix
                          0 LRU_TRIE_NODE_HEADER_BLOCKS new_history)
                as [[[v dv] hv]|] eqn:Hp; [|done].
              cbn [found_handle] in Hfind. simplify_eq.
              destruct (pwalk_same_links _ _ rule_prefix rule_prefix Hsame
                          (proj2 Hw) (proj2 Hw') _ 0 0 _ _ new_history _ _ _ Hp)
                as (dv1 & hv1 & Hp1).
              pose proof (pwalk_lookup _ _ _ _ _ _ _ _ _ Hp1) as Hv1.
              assert (dv1 = d') as -> by congruence.
              rewrite (lru_node_pwalk _ _ Hw')
                by (done || (rewrite (proj1 Hsame); done)).
              by rewrite Hp1.
        -- unfold has_webentity_creation_rule, is_page, has_webentity.
           cbn [handle data d' set_flags n_flags].
           rewrite !test_unflag by done. done.
      * destruct (write _ _) as [n1 st1]. eexists _, _. split; [done|].
        cbn [webentity_creation_rules with_storage with_rules].
        split; [done|]. split; [by eapply Hgone|]. split; [done|].
        intros n1' b1 [= <-]. congruence.
    + eexists _, _. split; [done|].
      cbn [webentity_creation_rules with_rules lru_trie_storage].
      split; [done|]. split; [by eapply Hgone'|]. split; [done|]. done.
    + eexists _, _. split; [done|].
      cbn [webentity_creation_rules with_rules lru_trie_storage].
      split; [done|]. split; [by eapply Hgone'|]. split; done.
Qed.

(** ** Adding links *)

(** The peers of a page in a batch: with [key] the source and [value]
    the target of a link these are the targets of the page, in the order
    of the batch and as many times as they come. *)
Definition peers_of (key value : string * string → string) (page : string)
    (links : list (string * string)) : list string :=
  value <$> filter (λ link, key link = page) links.

Definition build (key value : string * string → string)
    (links : list (string * string)) (m : gmap string (list string))
  : gmap string (list string) :=
  fold_left (λ m link, multimap_append (key link) (value link) m) links m.

Lemma build_lookup key value links :
  ∀ m page,
    build key value links m !! page
    = if decide (page ∈ key <$> links)
      then Some (default [] (m !! page) ++ peers_of key value page links)
      else m !! page.
Proof.
  induction links as [|link links IH]; intros m page.
  - cbn. rewrite decide_False; [done|]. by intros ?%elem_of_nil.
  - change (build key value (link :: links) m)
      with (build key value links (multimap_append (key link) (value link) m)).
    rewrite IH.
    unfold multimap_append, peers_of. rewrite fmap_cons.
    destruct (decide (key link = page)) as [<-|Hne].
    + rewrite (decide_True (P := key link ∈ key link :: _))
        by apply list_elem_of_here.
      rewrite lookup_insert_eq, filter_cons_True by done. cbn [default id].
      rewrite fmap_cons.
      destruct (decide (key link ∈ key <$> links)) as [Hin|Hnin];
        [by rewrite <- app_assoc|].
      f_equal.
      assert (filter (λ l, key l = key link) links = []) as ->; [|done].
      apply elem_of_nil_inv. intros l [Heq Hl]%list_elem_of_filter. apply Hnin.
      rewrite <- Heq. by apply list_elem_of_fmap_2.
    + rewrite lookup_insert_ne, filter_cons_False by done.
      destruct (decide (page ∈ key <$> links)) as [Hin|Hnin].
      * rewrite decide_True by (by apply list_elem_of_further). done.
      * rewrite decide_False; [done|].
        intros [?|?]%elem_of_cons; done.
Qed.

Lemma add_links_pages_builds links :
  ∀ (t : Traph) report pages outlinks inlinks t' report' pages' outlinks' inlinks',
    add_links_pages lru_variations LinkStorage links
      (t, report, pages, outlinks, inlinks)
      = Ok (t', report', pages', outlinks', inlinks') →
    outlinks' = build fst snd links outlinks
    ∧ inlinks' = build snd fst links inlinks
    ∧ ∀ page, is_Some (pages' !! page)
              ↔ is_Some (pages !! page) ∨ page ∈ links.*1 ∨ page ∈ links.*2.
Proof.
  induction links as [|[source target] links IH];
    intros t report pages outlinks inlinks t' report' pages' outlinks' inlinks' H.
  - cbn in H. simplify_eq. split; [done|]. split; [done|].
    intros page. split; [by left|]. intros [?|[?%elem_of_nil|?%elem_of_nil]]; done.
  - cbn [add_links_pages] in H.
    destruct (add_links_page _ _ source (t, report, pages))
      as [[[t1 r1] p1]|e] eqn:H1; cbn [bind] in H; [|done].
    destruct (add_links_page _ _ target (t1, r1, p1))
      as [[[t2 r2] p2]|e] eqn:H2; cbn [bind] in H; [|done].
    apply IH in H as (-> & -> & Hp). split; [done|]. split; [done|].
    assert (∀ page (ta : Traph) ra pa tb rb pb x,
      add_links_page lru_variations LinkStorage page (ta, ra, pa) = Ok (tb, rb, pb) →
      is_Some (pb !! x) ↔ x = page ∨ is_Some (pa !! x)) as Hone.
    { intros page ta ra pa tb rb pb x. unfold add_links_page.
      destruct (pa !! page) as [n|] eqn:Hpg.
      - intros [= <- <- <-]. split; [by right|]. intros [->|?]; [|done].
        by rewrite Hpg.
      - destruct (Traph_add_page _ _ page ta) as [[[n r] tc]|e];
          cbn [bind]; [|done].
        intros [= <- <- <-]. rewrite lookup_insert_is_Some. split.
        + intros [->|[_ ?]]; [by left|by right].
        + intros [->|?]; [by left|].
          destruct (decide (page = x)) as [->|?]; [by left|by right]. }
    intros page. rewrite Hp, (Hone _ _ _ _ _ _ _ _ H2), (Hone _ _ _ _ _ _ _ _ H1).
    rewrite !fmap_cons, !elem_of_cons. cbn [fst snd]. tauto.
Qed.

(** X18. The first loop of [add_links], when every [__add_page] it makes
    returns: each source is a key of [outlinks] with its targets, each
    target a key of [inlinks] with its sources, in the order of the batch
    and with their repetitions; and [pages] holds the node of every page
    of the batch, so that the blocks of the peers of any key are there to
    be handed to the link store. *)
Theorem add_links_builds_the_multimaps
    (links : list (string * string)) (t t' : Traph) (report : TraphWriteReport)
    (pages : gmap string LRUTrieNode)
    (outlinks inlinks : gmap string (list string)) :
  add_links_pages lru_variations LinkStorage links (t, new_report, ∅, ∅, ∅)
    = Ok (t', report, pages, outlinks, inlinks) →
  (∀ page,
     outlinks !! page
     = if decide (page ∈ links.*1)
       then Some (peers_of fst snd page links) else None)
  ∧ (∀ page,
       inlinks !! page
       = if decide (page ∈ links.*2)
         then Some (peers_of snd fst page links) else None)
  ∧ (∀ page, is_Some (pages !! page) ↔ page ∈ links.*1 ∨ page ∈ links.*2)
  ∧ (∀ page peers,
       outlinks !! page = Some peers ∨ inlinks !! page = Some peers →
       ∃ node peer_blocks,
         pages !! page = Some node
         ∧ page_blocks pages peers = Ok peer_blocks
         ∧ length peer_blocks = length peers).
Proof.
  intros H. apply add_links_pages_builds in H as (-> & -> & Hp).
  assert (∀ page, is_Some (pages !! page) ↔ page ∈ links.*1 ∨ page ∈ links.*2)
    as Hp'.
  { intros page. rewrite Hp, lookup_empty. split; [|by right].
    intros [[? ?]|?]; done. }
  assert (∀ peers, (∀ p, p ∈ peers → is_Some (pages !! p)) →
    ∃ peer_blocks, page_blocks pages peers = Ok peer_blocks
                   ∧ length peer_blocks = length peers) as Hblocks.
  { induction peers as [|p peers IH]; intros Hall; [by exists []|].
    cbn [page_blocks].
    destruct (Hall p) as [n ->]; [apply list_elem_of_here|].
    destruct IH as (bs & -> & Hlen).
    { intros q Hq. by apply Hall, list_elem_of_further. }
    cbn [bind]. exists (block n :: bs). split; [done|]. cbn. by rewrite Hlen. }
  split; [|split; [|split; [done|]]].
  - intros page. rewrite build_lookup, lookup_empty. done.
  - intros page. rewrite build_lookup, lookup_empty. done.
  - intros page peers Hor.
    assert (is_Some (pages !! page) ∧ ∀ p, p ∈ peers → is_Some (pages !! p))
      as [[node Hnode] Hpeers].
    { destruct Hor as [Ho|Hi]; rewrite build_lookup, lookup_empty in *.
      - destruct (decide (page ∈ links.*1)) as [Hin|]; [|done].
        cbn [default app] in Ho. simplify_eq. split; [apply Hp'; by left|].
        intros p ([s t0] & -> & [_ Hl]%list_elem_of_filter)%list_elem_of_fmap.
        apply Hp'. right. by apply (list_elem_of_fmap_2 snd) in Hl.
      - destruct (decide (page ∈ links.*2)) as [Hin|]; [|done].
        cbn [default app] in Hi. simplify_eq. split; [apply Hp'; by right|].
        intros p ([s t0] & -> & [_ Hl]%list_elem_of_filter)%list_elem_of_fmap.
        apply Hp'. left. by apply (list_elem_of_fmap_2 fst) in Hl. }
    destruct (Hblocks peers Hpeers) as (bs & Hbs & Hlen).
    by exists node, bs.
Qed.

Lemma flush_links_returns store_op (pages : gmap string LRUTrieNode) :
  (∀ node peers s, ∃ s', store_op node peers s = Ok s') →
  ∀ items (s : Storage * LinkStorage),
    (∀ page peers, (page, peers) ∈ items →
       ∃ node peer_blocks,
         pages !! page = Some node ∧ page_blocks pages peers = Ok peer_blocks) →
    ∃ s', flush_links LinkStorage store_op pages items s = Ok s'.
Proof.
  intros Hop. induction items as [|[page peers] items IH]; intros s Hall.
  - by exists s.
  - cbn [flush_links].
    destruct (Hall page peers) as (node & bs & -> & ->); [apply list_elem_of_here|].
    cbn [bind]. destruct (Hop node bs s) as [s1 ->]. cbn [bind].
    apply IH. intros p ps Hin. by apply Hall, list_elem_of_further.
Qed.

(** X19. [add_links] returns whenever every [__add_page] it makes returns and
    the link store takes every call: the lookups in [pages] of its last
    two loops never raise [KeyError]. The report is the one of the first
    loop. *)
Theorem add_links_never_misses_a_page
    (links : list (string * string)) (t t1 : Traph) (report : TraphWriteReport)
    (pages : gmap string LRUTrieNode)
    (outlinks inlinks : gmap string (list string)) :
  (∀ node peers s, ∃ s', add_outlinks node peers s = Ok s') →
  (∀ node peers s, ∃ s', add_inlinks node peers s = Ok s') →
  add_links_pages lru_variations LinkStorage links (t, new_report, ∅, ∅, ∅)
    = Ok (t1, report, pages, outlinks, inlinks) →
  ∃ t', add_links lru_variations LinkStorage add_outlinks add_inlinks links t
        = Ok (report, t').
Proof.
  intros Hout Hin Hpages. unfold add_links. rewrite Hpages. cbn [bind].
  pose proof Hpages as Hb.
  apply add_links_pages_builds in Hb as (-> & -> & Hp).
  assert (∀ page, is_Some (pages !! page) ↔ page ∈ links.*1 ∨ page ∈ links.*2)
    as Hp'.
  { intros page. rewrite Hp, lookup_empty. split; [|by right].
    intros [[? ?]|?]; done. }
  assert (∀ peers, (∀ p, p ∈ peers → is_Some (pages !! p)) →
    ∃ peer_blocks, page_blocks pages peers = Ok peer_blocks) as Hblocks.
  { induction peers as [|p peers IH]; intros Hall; [by exists []|].
    cbn [page_blocks].
    destruct (Hall p) as [n ->]; [apply list_elem_of_here|].
    destruct IH as (bs & ->).
    { intros q Hq. by apply Hall, list_elem_of_further. }
    cbn [bind]. by eexists. }
  destruct (flush_links_returns add_outlinks pages Hout
              (map_to_list (build fst snd links ∅))
              (lru_trie_storage _ t1, links_store_storage _ t1)) as [s1 ->].
  { intros page peers Hin'%elem_of_map_to_list.
    rewrite build_lookup, lookup_empty in Hin'.
    destruct (decide (page ∈ links.*1)) as [Hl|]; [|done].
    cbn [default app] in Hin'. simplify_eq.
    destruct (proj2 (Hp' page) (or_introl Hl)) as [node Hnode].
    destruct (Hblocks (peers_of fst snd page links)) as [bs Hbs].
    { intros p ([s t0] & -> & [_ Hl']%list_elem_of_filter)%list_elem_of_fmap.
      apply Hp'. right. by apply (list_elem_of_fmap_2 snd) in Hl'. }
    by exists node, bs. }
  cbn [bind].
  destruct (flush_links_returns add_inlinks pages Hin
              (map_to_list (build snd fst links ∅)) s1) as [s2 ->].
  { intros page peers Hin'%elem_of_map_to_list.
    rewrite build_lookup, lookup_empty in Hin'.
    destruct (decide (page ∈ links.*2)) as [Hl|]; [|done].
    cbn [default app] in Hin'. simplify_eq.
    destruct (proj2 (Hp' page) (or_intror Hl)) as [node Hnode].
    destruct (Hblocks (peers_of snd fst page links)) as [bs Hbs].
    { intros p ([s t0] & -> & [_ Hl']%list_elem_of_filter)%list_elem_of_fmap.
      apply Hp'. left. by apply (list_elem_of_fmap_2 fst) in Hl'. }
    by exists node, bs. }
  cbn [bind]. by eexists.
Qed.

(** ** The rules met on the walk *)

Lemma longest_candidate_registered (t : Traph) lru rules :
  ∀ acc,
    (∀ rp, rp ∈ rules → is_Some (webentity_creation_rules _ t !! rp)) →
    ∃ c, longest_candidate LinkStorage t rules lru acc = Ok c.
Proof.
  induction rules as [|rp rules IH]; intros acc Hall; [by exists acc|].
  cbn [longest_candidate]. unfold apply_webentity_creation_rule.
  destruct (Hall rp) as [pattern Hrp]; [apply list_elem_of_here|].
  destruct (webentity_creation_rules LinkStorage t !! rp) as [regexp|]; [|done].
  cbn [bind]. apply IH. intros rp' Hin. by apply Hall, list_elem_of_further.
Qed.

Lemma longest_candidate_unregistered (t : Traph) lru rules :
  ∀ acc,
    (∃ rp, rp ∈ rules ∧ webentity_creation_rules _ t !! rp = None) →
    longest_candidate LinkStorage t rules lru acc = Raise KeyError.
Proof.
  induction rules as [|rp rules IH]; intros acc (rp' & Hin & Hnone).
  - by apply elem_of_nil in Hin.
  - cbn [longest_candidate]. unfold apply_webentity_creation_rule.
    destruct (webentity_creation_rules _ t !! rp) as [pattern|] eqn:Hrp;
      cbn [bind]; [|done].
    apply elem_of_cons in Hin as [Heq|Hin].
    { subst rp'. discriminate (eq_trans (eq_sym Hrp) Hnone). }
    apply IH. by exists rp'.
Qed.

(** X23. On a well-formed trie, once [add_page] of the trie has returned:
    [__add_page] raises [KeyError] when the walk met a rule flag whose
    prefix has no rule in [webentity_creation_rules]; and it returns, with
    the node of the page, when every rule met is there and either one of
    them gives a candidate or the default rule matches. *)
Theorem add_page_needs_the_rules_it_meets
    (t : Traph) (lru : string) (node : LRUTrieNode)
    (history : LRUTrieWalkHistory) (st : Storage) :
  wf (lru_trie_storage _ t) →
  add_page lru (lru_trie_storage _ t) = Ok (node, history, st) →
  ((∃ rule_prefix,
      rule_prefix ∈ rules_to_apply history
      ∧ webentity_creation_rules _ t !! rule_prefix = None) →
   Traph_add_page lru_variations LinkStorage lru t = Raise KeyError)
  ∧ ((∀ rule_prefix,
        rule_prefix ∈ rules_to_apply history →
        is_Some (webentity_creation_rules _ t !! rule_prefix)) →
     ∃ candidate,
       longest_candidate LinkStorage t (rules_to_apply history) lru EmptyString
         = Ok candidate
       ∧ (nonempty candidate = true
          ∨ is_Some (apply_webentity_default_creation_rule _ t lru) →
          ∃ report t',
            Traph_add_page lru_variations LinkStorage lru t
              = Ok (node, report, t'))).
Proof.
  intros Hw Hadd.
  assert (wf st) as Hwst.
  { destruct (add_page_spec lru _ Hw) as (v & dv & h & st1 & Hadd' & Hsteps & _).
    rewrite Hadd in Hadd'. simplify_eq. by eapply steps_wf. }
  unfold Traph_add_page. cbn [lru_trie_storage entered]. rewrite Hadd.
  cbn [bind]. split.
  - intros Hmiss.
    rewrite (longest_candidate_rules _ _ t) by done.
    by rewrite (longest_candidate_unregistered t lru _ EmptyString Hmiss).
  - intros Hall.
    destruct (longest_candidate_registered t lru _ EmptyString Hall) as [c Hc].
    exists c. split; [done|]. intros Hor.
    rewrite (longest_candidate_rules _ _ t) by done.
    rewrite Hc. cbn [bind].
    destruct (nonempty c && _); [by eexists _, _|].
    assert (∀ prefixes,
      ∃ report t',
        bind (add_prefixes LinkStorage prefixes
                (with_storage _ st (entered _ lru t)))
          (λ '(webentity_id, t0),
             Ok (node, report_created webentity_id prefixes new_report, t0))
        = Ok (node, report, t')) as Hcreate.
    { intros prefixes. unfold add_prefixes, generated_web_entity_id.
      cbn [lru_trie_storage with_storage entered].
      destruct (set_prefixes_spec
                  (S (last_webentity_id _ (with_storage _ st (entered _ lru t))))
                  prefixes st Hwst) as (st' & Hset & _).
      eexists _, _. rewrite Hset. cbn [bind]. reflexivity. }
    destruct (nonempty c) eqn:Hne; [apply Hcreate|].
    destruct Hor as [?|[c' Hdef]]; [done|].
    unfold apply_webentity_default_creation_rule in *.
    cbn [default_webentity_creation_rule with_storage entered].
    rewrite Hdef. apply Hcreate.
Qed.

(** ** The pages of the Traph *)

(** A sequence of calls of the public [add_page]. *)
Fixpoint Traph_add_pages (lrus : list string) (t : Traph) : result Traph :=
  match lrus with
  | [] => Ok t
  | lru :: lrus' =>
      try (_, t) <- Traph_add_page_report lru_variations LinkStorage lru t in
      Traph_add_pages lrus' t
  end.

Lemma Traph_add_pages_spec lrus :
  ∀ t t' : Traph,
    tree (blocks (lru_trie_storage _ t)) →
    header_clean (blocks (lru_trie_storage _ t)) →
    Traph_add_pages lrus t = Ok t' →
    steps (lru_trie_storage _ t) (lru_trie_storage _ t')
    ∧ ∀ lru, lru ∈ lrus → lru ≠ EmptyString →
        ∃ v dv hv,
          pwalk (blocks (lru_trie_storage _ t')) lru lru 0
                LRU_TRIE_NODE_HEADER_BLOCKS new_history = Some (v, dv, hv)
          ∧ page_bit dv = true.
Proof.
  induction lrus as [|lru lrus IH]; intros t t' Ht Hh Hrun.
  - cbn in Hrun. simplify_eq. split; [apply rtc_refl|].
    by intros lru ?%elem_of_nil.
  - cbn [Traph_add_pages] in Hrun. unfold Traph_add_page_report in Hrun.
    destruct (Traph_add_page _ _ lru t) as [[[n r] t1]|e] eqn:Hcall;
      cbn [bind] in Hrun; [|done].
    pose proof (tree_wf _ Ht) as Hw.
    destruct (Traph_add_page_trie _ _ _ _ _ Hw Hcall)
      as ((h1 & st1 & Hadd & Hs1 & Hs2) & _).
    assert (steps (lru_trie_storage _ t) (lru_trie_storage _ t1)) as Hs
      by (by eapply rtc_trans).
    destruct (IH t1 t' (steps_tree _ _ Ht Hs) (steps_header _ _ Hw Hh Hs) Hrun)
      as (Hs3 & Hall).
    split; [by eapply rtc_trans|].
    intros lru' [->|Hin]%elem_of_cons Hne; [|by apply Hall].
    destruct (insert_path (Page lru) _ Hw) as (st1' & Hins & _ & Hpath).
    cbn [insert] in Hins. rewrite Hadd in Hins. cbn [bind] in Hins. simplify_eq.
    pose proof (steps_wf _ _ Hw Hs1) as Hw1.
    destruct (Hpath Hne (blocks (lru_trie_storage _ t')))
      as (v & dv & hv & Hp & Hpg).
    + apply steps_ext; [done|by eapply rtc_trans].
    + apply (steps_wf _ _ Hw). by eapply rtc_trans.
    + exists v, dv, hv. split; [done|]. by apply Hpg.
Qed.

(** X20. Every non-empty LRU added to a fresh Traph through [add_page] is
    yielded by its [pages_iter], with the node [lru_node] finds for it,
    whatever webentities the calls created; and [pages_iter] yields pages
    only. *)
Theorem added_pages_are_iterated (lrus : list string) (t t' : Traph) :
  lru_trie_storage _ t = empty_trie →
  Traph_add_pages lrus t = Ok t' →
  ∃ pages,
    Traph_pages_iter _ t' = Ok pages
    ∧ (∀ n s, (n, s) ∈ pages → is_page n = true)
    ∧ (∀ lru, lru ∈ lrus → lru ≠ EmptyString →
         ∃ n, lru_node lru (lru_trie_storage _ t') = Ok (Some n)
              ∧ is_page n = true ∧ (n, lru) ∈ pages).
Proof.
  intros Hfresh Hrun.
  assert (tree (blocks (lru_trie_storage _ t))) as Ht
    by (rewrite Hfresh; apply empty_trie_tree).
  assert (header_clean (blocks (lru_trie_storage _ t))) as Hh
    by (rewrite Hfresh; apply empty_trie_header).
  destruct (Traph_add_pages_spec lrus t t' Ht Hh Hrun) as (Hsteps & Hall).
  pose proof (tree_wf _ Ht) as Hw.
  pose proof (steps_tree _ _ Ht Hsteps) as Ht'.
  pose proof (steps_header _ _ Hw Hh Hsteps) as Hh'.
  pose proof (tree_wf _ Ht') as Hw'. pose proof (tree_fwd _ Ht') as Hf'.
  unfold Traph_pages_iter, pages_iter.
  rewrite (dfs_iter_preorder_spec _ Ht' Hh'). cbn [bind].
  eexists. split; [done|]. split.
  - intros n s Hin. by apply list_elem_of_filter in Hin as [Hp _].
  - intros lru Hin Hne.
    destruct (Hall lru Hin Hne) as (v & dv & hv & Hp & Hpg).
    exists (handle v dv).
    split; [by apply (lru_node_present _ _ v dv hv)|]. split; [done|].
    apply (pwalk_preorder _ _ Hf' _ _ _ _ _ _ _ EmptyString) in Hp as Hin'.
    apply pwalk_lookup in Hp.
    apply list_elem_of_filter. split; [done|].
    apply list_elem_of_fmap. exists (v, lru). split; [|done].
    unfold visit. cbn [fst snd]. by rewrite (node_of_block_handle _ _ _ Hp).
Qed.

End CoordinatorFurther.

(** * Further properties of the link store header *)

Section HeaderFacts.

Variable storage : Type.
Variable storage_read : storage -> nat -> option string.
Variable storage_write : string -> nat -> storage -> storage.
Variable block_size : storage -> nat.
Variable order : byteorder.
Variable unpack_of_none : error.

Abbreviation header_pack := (LinkStoreHeader.pack order).
Abbreviation header_read :=
  (LinkStoreHeader.read storage storage_read order unpack_of_none).
Abbreviation header_write := (LinkStoreHeader.write storage storage_write order).
Abbreviation header_ensure :=
  (LinkStoreHeader.ensure storage storage_read storage_write block_size order).
Abbreviation header_new :=
  (LinkStoreHeader.LinkStoreHeader storage storage_read storage_write block_size
     order unpack_of_none).

Lemma header_pack_unpack values data :
  header_pack values = Ok data →
  LinkStoreHeader.unpack order data = Ok values ∧ String.length data = 18.
Proof.
  intros Hp.
  destruct (PackFacts.pack_unpack order LinkStoreHeader.LINK_STORE_HEADER_FORMAT
              0 values data) as [Hun Hlen]; [|done|done].
  repeat apply Forall_cons_2; (lia || apply Forall_nil_2).
Qed.

(** X22. The header packs to 18 bytes, which [unpack] reads back. Built on a
    storage whose block 0 is missing or empty, [LinkStoreHeader] writes 18
    null bytes there, once, and its data is three zeros, provided the
    storage then gives them back and has a block size above 0; built on a
    storage whose block 0 holds a packed header it writes nothing and its
    data is the values packed. [write] then [read] gives the data back.
    With a block size of 0 the loop of [__ensure] does not end. *)
Theorem header_is_ensured_once (st : storage) (fuel : nat) :
  header_pack [0; 0; 0]%Z = Ok (Pack.pad 18)
  ∧ (LinkStoreHeader.falsy (storage_read st 0) = true →
     0 < block_size (storage_write (Pack.pad 18) 0 st) →
     storage_read (storage_write (Pack.pad 18) 0 st) 0 = Some (Pack.pad 18) →
     header_new (2 + fuel) st
     = Ok (storage_write (Pack.pad 18) 0 st, [0; 0; 0]%Z))
  ∧ (∀ values data,
       header_pack values = Ok data → storage_read st 0 = Some data →
       0 < block_size st →
       header_new (2 + fuel) st = Ok (st, values))
  ∧ (∀ values data,
       header_pack values = Ok data →
       header_write values st = Ok (storage_write data 0 st)
       ∧ (storage_read (storage_write data 0 st) 0 = Some data →
          header_read (storage_write data 0 st) = Ok values))
  ∧ (LinkStoreHeader.falsy (storage_read st 0) = false → block_size st = 0 →
     header_ensure fuel st = Raise NonTermination).
Proof.
  assert (header_pack [0; 0; 0]%Z = Ok (Pack.pad 18)) as Hzero
    by (by destruct order).
  split; [done|]. split; [|split; [|split]].
  - intros Hfalsy Hsize Hread.
    unfold LinkStoreHeader.LinkStoreHeader, LinkStoreHeader.ensure.
    rewrite Hzero. cbn [bind Nat.add LinkStoreHeader.ensure_loop].
    change (0 <? LinkStoreHeader.LINK_STORE_HEADER_BLOCKS) with true. cbn iota.
    rewrite Hfalsy.
    assert ((block_size (storage_write (Pack.pad 18) 0 st)
             <? LinkStoreHeader.LINK_STORE_HEADER_BLOCKS) = false) as ->.
    { apply Nat.ltb_ge. unfold LinkStoreHeader.LINK_STORE_HEADER_BLOCKS. lia. }
    cbn [bind]. unfold LinkStoreHeader.read. rewrite Hread.
    by rewrite (proj1 (header_pack_unpack _ _ Hzero)).
  - intros values data Hp Hread Hsize.
    destruct (header_pack_unpack _ _ Hp) as [Hun Hlen].
    unfold LinkStoreHeader.LinkStoreHeader, LinkStoreHeader.ensure.
    rewrite Hzero. cbn [bind Nat.add LinkStoreHeader.ensure_loop].
    change (0 <? LinkStoreHeader.LINK_STORE_HEADER_BLOCKS) with true. cbn iota.
    rewrite Hread.
    assert (LinkStoreHeader.falsy (Some data) = false) as ->
      by (by destruct data).
    assert ((block_size st <? LinkStoreHeader.LINK_STORE_HEADER_BLOCKS) = false)
      as ->.
    { apply Nat.ltb_ge. unfold LinkStoreHeader.LINK_STORE_HEADER_BLOCKS. lia. }
    cbn [bind]. unfold LinkStoreHeader.read. by rewrite Hread, Hun.
  - intros values data Hp. unfold LinkStoreHeader.write. rewrite Hp.
    split; [done|]. intros Hread. unfold LinkStoreHeader.read.
    rewrite Hread. by apply header_pack_unpack.
  - intros Hfalsy Hsize. unfold LinkStoreHeader.ensure. rewrite Hzero. cbn [bind].
    induction fuel as [|fuel' IH]; [done|].
    cbn [LinkStoreHeader.ensure_loop].
    change (0 <? LinkStoreHeader.LINK_STORE_HEADER_BLOCKS) with true. cbn iota.
    rewrite Hfalsy, Hsize. exact IH.
Qed.

End HeaderFacts.

(** A storage held in a list, of block size 18: the header is written at
    block 0 of the empty storage, and found there the next time. *)
Definition demo_header_read (st : list string) (b : nat) : option string :=
  st !! b.

Definition demo_header_write (data : string) (b : nat) (st : list string)
  : list string :=
  if b <? length st then <[b := data]> st else st ++ [data].

Example header_on_an_empty_storage :
  LinkStoreHeader.LinkStoreHeader (list string) demo_header_read
    demo_header_write (λ _, 18) little TypeError 2 []
  = Ok ([Pack.pad 18], [0; 0; 0]%Z)
  ∧ LinkStoreHeader.LinkStoreHeader (list string) demo_header_read
      demo_header_write (λ _, 18) little TypeError 2 [Pack.pad 18]
    = Ok ([Pack.pad 18], [0; 0; 0]%Z).
Proof. split; reflexivity. Qed.

(** * The properties above on the demonstration tries *)

Definition demo_root_data : NodeData :=
  Eval vm_compute in default (default_data 0%Z) (blocks demo_trie !! 1).

Definition demo_block : NodeData :=
  Eval vm_compute in default (default_data 0%Z) (blocks demo_trie !! 2).

Lemma node_siblings_iter_is_rest_of_list_witness :
  wf demo_trie
  ∧ blocks demo_trie !! 2 = Some demo_block
  ∧ node_siblings_iter demo_trie (handle 2 demo_block)
    = Ok (node_of_block demo_trie <$> tail (chain (blocks demo_trie) 2))
  ∧ 2 ∉ tail (chain (blocks demo_trie) 2).
Proof.
  assert (wf demo_trie) as Hw by (apply wfb_sound; reflexivity).
  assert (blocks demo_trie !! 2 = Some demo_block) as Hb by reflexivity.
  split; [exact Hw|]. split; [exact Hb|].
  exact (node_siblings_iter_is_rest_of_list demo_trie 2 demo_block Hw Hb).
Defined.

Lemma add_lru_twice_writes_nothing_witness :
  wf demo_trie
  ∧ ∃ n history st',
      add_lru "ad" demo_trie = Ok (n, history, st')
      ∧ ∃ history', add_lru "ad" st' = Ok (n, history', st').
Proof.
  assert (wf demo_trie) as Hw by (apply wfb_sound; reflexivity).
  split; [exact Hw|].
  exact (add_lru_twice_writes_nothing "ad" demo_trie Hw).
Defined.

Lemma insertion_keeps_what_is_stored_witness :
  wf demo_trie
  ∧ lru_node "ab" demo_trie = Ok (Some (handle 2 demo_block))
  ∧ block (handle 2 demo_block) = Some 2
  ∧ (∃ m history st',
       add_lru "ad" demo_trie = Ok (m, history, st')
       ∧ ∃ n', lru_node "ab" st' = Ok (Some n')
               ∧ block n' = Some 2 ∧ node_exists n' = true
               ∧ char n' = char (handle 2 demo_block)
               ∧ parent n' = parent (handle 2 demo_block)
               ∧ (is_page (handle 2 demo_block) = true → is_page n' = true))
  ∧ (∃ m history st',
       add_page "ad" demo_trie = Ok (m, history, st')
       ∧ ∃ n', lru_node "ab" st' = Ok (Some n')
               ∧ block n' = Some 2 ∧ node_exists n' = true
               ∧ char n' = char (handle 2 demo_block)
               ∧ parent n' = parent (handle 2 demo_block)
               ∧ (is_page (handle 2 demo_block) = true → is_page n' = true)).
Proof.
  assert (wf demo_trie) as Hw by (apply wfb_sound; reflexivity).
  assert (lru_node "ab" demo_trie = Ok (Some (handle 2 demo_block))) as Hl
    by (vm_compute; reflexivity).
  split; [exact Hw|]. split; [exact Hl|]. split; [reflexivity|].
  exact (insertion_keeps_what_is_stored demo_trie "ab" "ad"
           (handle 2 demo_block) 2 Hw Hl eq_refl).
Defined.

Lemma prefixes_of_an_lru_are_stored_witness :
  wf empty_trie
  ∧ "ab"%string ≠ EmptyString
  ∧ ∃ n history st',
      add_lru (String.append "ab" "c") empty_trie = Ok (n, history, st')
      ∧ ∃ m b, lru_node "ab" st' = Ok (Some m)
               ∧ block m = Some b ∧ node_exists m = true.
Proof.
  assert (wf empty_trie) as Hw by (apply wfb_sound; reflexivity).
  assert ("ab"%string ≠ EmptyString) as Hne by discriminate.
  split; [exact Hw|]. split; [exact Hne|].
  exact (prefixes_of_an_lru_are_stored empty_trie "ab" "c" Hw Hne).
Defined.

Lemma add_page_flags_once_witness :
  wf demo_trie
  ∧ ∃ n history st',
      add_page "ab" demo_trie = Ok (n, history, st')
      ∧ is_page n = true
      ∧ (∃ m h0 st0, add_lru "ab" demo_trie = Ok (m, h0, st0)
                     ∧ page_was_created history = negb (is_page m))
      ∧ (∃ history', add_page "ab" st' = Ok (n, history', st')
                     ∧ page_was_created history' = false)
      ∧ ("ab"%string ≠ EmptyString → lru_node "ab" st' = Ok (Some n)).
Proof.
  assert (wf demo_trie) as Hw by (apply wfb_sound; reflexivity).
  split; [exact Hw|].
  exact (add_page_flags_once "ab" demo_trie Hw).
Defined.

Lemma add_lru_allocates_at_most_its_length_witness :
  wf empty_trie
  ∧ ∃ n history st',
      add_lru "abc" empty_trie = Ok (n, history, st')
      ∧ length (blocks empty_trie) ≤ length (blocks st')
      ∧ length (blocks st') ≤ length (blocks empty_trie) + String.length "abc"
      ∧ (length (blocks empty_trie) = LRU_TRIE_NODE_HEADER_BLOCKS →
         length (blocks st')
         = LRU_TRIE_NODE_HEADER_BLOCKS + String.length "abc").
Proof.
  assert (wf empty_trie) as Hw by (apply wfb_sound; reflexivity).
  split; [exact Hw|].
  exact (add_lru_allocates_at_most_its_length "abc" empty_trie Hw).
Defined.

Lemma flags_are_independent_witness :
  (0 <= 0)%Z ∧ (0 <= 2)%Z
  ∧ test (flag 4 0) 2 = (0 =? 2)%Z || test 4 2
  ∧ test (unflag 4 0) 2 = negb (0 =? 2)%Z && test 4 2
  ∧ ((0 <= 4 < 256)%Z → (0 < 8)%Z →
     (0 <= flag 4 0 < 256)%Z ∧ (0 <= unflag 4 0 < 256)%Z)
  ∧ (∀ node,
       is_page (flag_as_page node) = true
       ∧ is_page (unflag_as_page node) = false
       ∧ is_page (unflag_as_page (flag_as_page node)) = false).
Proof.
  assert (0 <= 0)%Z as H0 by lia. assert (0 <= 2)%Z as H2 by lia.
  split; [exact H0|]. split; [exact H2|].
  exact (flags_are_independent 4 0 2 H0 H2).
Defined.

Lemma lru_node_always_returns_witness :
  wf demo_trie
  ∧ ∃ found,
      lru_node "ax" demo_trie = Ok found
      ∧ (∀ n b, found = Some n → block n = Some b →
           ∃ d, n = handle b d ∧ blocks demo_trie !! b = Some d)
      ∧ (∀ n, found = Some n → block n = None →
           length (blocks demo_trie) = LRU_TRIE_NODE_HEADER_BLOCKS).
Proof.
  assert (wf demo_trie) as Hw by (apply wfb_sound; reflexivity).
  split; [exact Hw|].
  exact (lru_node_always_returns "ax" demo_trie Hw).
Defined.

Lemma empty_lru_is_the_node_of_the_root_character_witness :
  wf demo_trie
  ∧ blocks demo_trie !! LRU_TRIE_NODE_HEADER_BLOCKS = Some demo_root_data
  ∧ (0 <= n_char demo_root_data < 256)%Z
  ∧ lru_node EmptyString demo_trie
    = Ok (Some (handle LRU_TRIE_NODE_HEADER_BLOCKS demo_root_data))
  ∧ lru_node (String (chr (n_char demo_root_data)) EmptyString) demo_trie
    = Ok (Some (handle LRU_TRIE_NODE_HEADER_BLOCKS demo_root_data))
  ∧ ∃ n history st',
      add_page EmptyString demo_trie = Ok (n, history, st')
      ∧ block n = Some LRU_TRIE_NODE_HEADER_BLOCKS ∧ is_page n = true
      ∧ lru_node (String (chr (n_char demo_root_data)) EmptyString) st'
        = Ok (Some n).
Proof.
  assert (wf demo_trie) as Hw by (apply wfb_sound; reflexivity).
  assert (blocks demo_trie !! LRU_TRIE_NODE_HEADER_BLOCKS = Some demo_root_data)
    as Hd by reflexivity.
  assert (0 <= n_char demo_root_data < 256)%Z as Hc by (simpl; lia).
  split; [exact Hw|]. split; [exact Hd|]. split; [exact Hc|].
  exact (empty_lru_is_the_node_of_the_root_character demo_trie demo_root_data
           Hw Hd Hc).
Defined.

Lemma coordinator_add_page_keeps_the_trie_witness :
  wf (lru_trie_storage _ demo_traph)
  ∧ Traph_add_page_report demo_variations unit "ab" demo_traph
    = Ok (fst demo_first_add_page, snd demo_first_add_page)
  ∧ wf (lru_trie_storage _ (snd demo_first_add_page))
  ∧ (tree (blocks (lru_trie_storage _ demo_traph)) →
     tree (blocks (lru_trie_storage _ (snd demo_first_add_page))))
  ∧ (∀ other n b,
       lru_node other (lru_trie_storage _ demo_traph) = Ok (Some n) →
       block n = Some b →
       ∃ n', lru_node other (lru_trie_storage _ (snd demo_first_add_page))
             = Ok (Some n')
             ∧ block n' = Some b ∧ char n' = char n)
  ∧ links_store_storage _ (snd demo_first_add_page)
    = links_store_storage _ demo_traph
  ∧ webentity_creation_rules _ (snd demo_first_add_page)
    = webentity_creation_rules _ demo_traph
  ∧ ((created_webentities (fst demo_first_add_page) = ∅
      ∧ last_webentity_id _ (snd demo_first_add_page)
        = last_webentity_id _ demo_traph)
     ∨ (∃ prefixes,
          created_webentities (fst demo_first_add_page)
          = {[S (last_webentity_id _ demo_traph) := prefixes]}
          ∧ last_webentity_id _ (snd demo_first_add_page)
            = S (last_webentity_id _ demo_traph))).
Proof.
  assert (wf (lru_trie_storage _ demo_traph)) as Hw
    by (apply wfb_sound; reflexivity).
  assert (Traph_add_page_report demo_variations unit "ab" demo_traph
          = Ok (fst demo_first_add_page, snd demo_first_add_page)) as H1
    by (vm_compute; reflexivity).
  split; [exact Hw|]. split; [exact H1|].
  exact (coordinator_add_page_keeps_the_trie demo_variations unit demo_traph
           "ab" _ _ Hw H1).
Defined.

Lemma remove_webentity_creation_rule_outcomes_witness :
  wf (lru_trie_storage _ demo_rule_traph)
  ∧ is_Some (webentity_creation_rules _ demo_rule_traph !! "a"%string)
  ∧ lru_node "a" (lru_trie_storage _ demo_rule_traph)
    = Ok (Some (handle 1 {| n_char := 97%Z; n_flags := 6%Z; n_next := 0;
                            n_child := 0; n_parent := 0; n_webentity := 1 |}))
  ∧ ∃ o t',
      remove_webentity_creation_rule unit "a" demo_rule_traph = (o, t')
      ∧ o = Returns true
      ∧ (remove_webentity_creation_rule unit "a" t').1 = Raises KeyError
      ∧ ∃ n', lru_node "a" (lru_trie_storage _ t') = Ok (Some n')
              ∧ has_webentity_creation_rule n' = false
              ∧ has_webentity n' = true.
Proof.
  assert (wf (lru_trie_storage _ demo_rule_traph)) as Hw
    by (apply wfb_sound; reflexivity).
  assert (is_Some (webentity_creation_rules _ demo_rule_traph !! "a"%string))
    as Hrule by (eexists; vm_compute; reflexivity).
  assert (lru_node "a" (lru_trie_storage _ demo_rule_traph)
          = Ok (Some (handle 1 {| n_char := 97%Z; n_flags := 6%Z; n_next := 0;
                                  n_child := 0; n_parent := 0;
                                  n_webentity := 1 |}))) as Hfind
    by (vm_compute; reflexivity).
  split; [exact Hw|]. split; [exact Hrule|]. split; [exact Hfind|].
  destruct (proj2 (remove_webentity_creation_rule_outcomes unit "a"
                     demo_rule_traph Hw) Hrule)
    as (o & t' & Hrem & _ & Hgone & _ & Hfound).
  destruct (Hfound _ 1 Hfind eq_refl)
    as (Ho & _ & n' & Hn' & _ & _ & Hflag & _ & Hweb).
  exists o, t'. split; [exact Hrem|]. split; [exact Ho|]. split; [exact Hgone|].
  exists n'. split; [exact Hn'|]. split; [exact Hflag|].
  rewrite Hweb. reflexivity.
Defined.

Definition demo_links_state : links_state unit :=
  Eval vm_compute in
    match add_links_pages demo_variations unit demo_links
            (demo_traph, new_report, ∅, ∅, ∅) with
    | Ok s => s
    | Raise _ => (demo_traph, new_report, ∅, ∅, ∅)
    end.

Definition demo_links_traph : Traph unit := demo_links_state.1.1.1.1.
Definition demo_links_report : TraphWriteReport := demo_links_state.1.1.1.2.
Definition demo_links_pages : gmap string LRUTrieNode := demo_links_state.1.1.2.
Definition demo_outlinks : gmap string (list string) := demo_links_state.1.2.
Definition demo_inlinks : gmap string (list string) := demo_links_state.2.

Lemma demo_links_run :
  add_links_pages demo_variations unit demo_links
    (demo_traph, new_report, ∅, ∅, ∅)
  = Ok (demo_links_traph, demo_links_report, demo_links_pages,
        demo_outlinks, demo_inlinks).
Proof. vm_compute. reflexivity. Qed.

Lemma add_links_builds_the_multimaps_witness :
  add_links_pages demo_variations unit demo_links
    (demo_traph, new_report, ∅, ∅, ∅)
  = Ok (demo_links_traph, demo_links_report, demo_links_pages,
        demo_outlinks, demo_inlinks)
  ∧ demo_outlinks !! "a"%string
    = (if decide ("a"%string ∈ demo_links.*1)
       then Some (peers_of fst snd "a" demo_links) else None)
  ∧ peers_of fst snd "a" demo_links = ["b"; "b"; "c"]%string.
Proof.
  split; [exact demo_links_run|]. split; [|reflexivity].
  exact (proj1 (add_links_builds_the_multimaps demo_variations unit demo_links
                  demo_traph _ _ _ _ _ demo_links_run) "a"%string).
Defined.

Lemma add_links_never_misses_a_page_witness :
  (∀ node peers s, ∃ s', demo_link_op node peers s = Ok s')
  ∧ add_links_pages demo_variations unit demo_links
      (demo_traph, new_report, ∅, ∅, ∅)
    = Ok (demo_links_traph, demo_links_report, demo_links_pages,
          demo_outlinks, demo_inlinks)
  ∧ ∃ t', add_links demo_variations unit demo_link_op demo_link_op
            demo_links demo_traph
          = Ok (demo_links_report, t').
Proof.
  assert (∀ node peers s, ∃ s', demo_link_op node peers s = Ok s') as Hop
    by (intros node peers s; exists s; reflexivity).
  split; [exact Hop|]. split; [exact demo_links_run|].
  exact (add_links_never_misses_a_page demo_variations unit demo_link_op
           demo_link_op demo_links demo_traph _ _ _ _ _ Hop Hop demo_links_run).
Defined.

Definition demo_pages_traph : Traph unit :=
  Eval vm_compute in
    match Traph_add_pages demo_variations unit ["ab"; "b"]%string demo_traph with
    | Ok t => t
    | Raise _ => demo_traph
    end.

Lemma added_pages_are_iterated_witness :
  lru_trie_storage _ demo_traph = empty_trie
  ∧ Traph_add_pages demo_variations unit ["ab"; "b"]%string demo_traph
    = Ok demo_pages_traph
  ∧ ∃ pages,
      Traph_pages_iter _ demo_pages_traph = Ok pages
      ∧ (∀ n s, (n, s) ∈ pages → is_page n = true)
      ∧ (∀ lru, lru ∈ ["ab"; "b"]%string → lru ≠ EmptyString →
           ∃ n, lru_node lru (lru_trie_storage _ demo_pages_traph) = Ok (Some n)
                ∧ is_page n = true ∧ (n, lru) ∈ pages).
Proof.
  assert (Traph_add_pages demo_variations unit ["ab"; "b"]%string demo_traph
          = Ok demo_pages_traph) as Hrun by (vm_compute; reflexivity).
  split; [reflexivity|]. split; [exact Hrun|].
  exact (added_pages_are_iterated demo_variations unit ["ab"; "b"]%string
           demo_traph demo_pages_traph eq_refl Hrun).
Defined.

Lemma add_page_needs_the_rules_it_meets_witness :
  wf (lru_trie_storage _ demo_rule_traph)
  ∧ add_page "ab" (lru_trie_storage _ demo_rule_traph)
    = Ok (demo_rule_walk.1.1, demo_rule_walk.1.2, demo_rule_walk.2)
  ∧ ((∃ rule_prefix,
        rule_prefix ∈ rules_to_apply demo_rule_walk.1.2
        ∧ webentity_creation_rules _ demo_rule_traph !! rule_prefix = None) →
     Traph_add_page demo_variations unit "ab" demo_rule_traph = Raise KeyError)
  ∧ ((∀ rule_prefix,
        rule_prefix ∈ rules_to_apply demo_rule_walk.1.2 →
        is_Some (webentity_creation_rules _ demo_rule_traph !! rule_prefix)) →
     ∃ candidate,
       longest_candidate unit demo_rule_traph
         (rules_to_apply demo_rule_walk.1.2) "ab" EmptyString = Ok candidate
       ∧ (nonempty candidate = true
          ∨ is_Some (apply_webentity_default_creation_rule _ demo_rule_traph "ab") →
          ∃ report t',
            Traph_add_page demo_variations unit "ab" demo_rule_traph
              = Ok (demo_rule_walk.1.1, report, t'))).
Proof.
  assert (wf (lru_trie_storage _ demo_rule_traph)) as Hw
    by (apply wfb_sound; reflexivity).
  assert (add_page "ab" (lru_trie_storage _ demo_rule_traph)
          = Ok (demo_rule_walk.1.1, demo_rule_walk.1.2, demo_rule_walk.2))
    as Hadd by (vm_compute; reflexivity).
  split; [exact Hw|]. split; [exact Hadd|].
  exact (add_page_needs_the_rules_it_meets demo_variations unit demo_rule_traph
           "ab" _ _ _ Hw Hadd).
Defined.

Lemma lru_node_finds_only_what_was_inserted_witness :
  Forall (λ op, lru_of op ≠ EmptyString) [Lru "ab"; Page "ac"]
  ∧ ∃ st,
      insert_all [Lru "ab"; Page "ac"] empty_trie = Ok st
      ∧ ∀ lru n b,
          lru ≠ EmptyString →
          lru_node lru st = Ok (Some n) → block n = Some b →
          ∃ op rest, op ∈ [Lru "ab"; Page "ac"]
                     ∧ lru_of op = String.append lru rest.
Proof.
  assert (Forall (λ op, lru_of op ≠ EmptyString) [Lru "ab"; Page "ac"]) as Hall
    by (repeat constructor; discriminate).
  split; [exact Hall|].
  exact (lru_node_finds_only_what_was_inserted [Lru "ab"; Page "ac"] Hall).
Defined.

Lemma lookup_round_trip_and_misses_witness :
  wf demo_trie
  ∧ (∀ lru, lru ≠ EmptyString →
       ∃ n history st' b,
         add_lru lru demo_trie = Ok (n, history, st')
         ∧ block n = Some b
         ∧ ∃ n', lru_node lru st' = Ok (Some n') ∧ block n' = Some b)
  ∧ (LRU_TRIE_NODE_HEADER_BLOCKS < length (blocks demo_trie) →
     ∀ lru, lru ≠ EmptyString →
       (lru_node lru demo_trie = Ok None
        ↔ off_trie (blocks demo_trie) LRU_TRIE_NODE_HEADER_BLOCKS lru)).
Proof.
  assert (wf demo_trie) as Hw by (apply wfb_sound; reflexivity).
  split; [exact Hw|].
  exact (lookup_round_trip_and_misses demo_trie Hw).
Defined.
